(** * Link-state routing core: OSPF-style and ISIS-style routers

  A shallow embedding of [ospf_router.py], [isis_router.py] and
  [ospf_network.py], with the kernel route list of [linux_router.py] and
  [ospf_router_linux.py] and the record exchange loop of the demos.

  Modelling conventions.
  - Python [dict]s are insertion ordered; several loops of the routers
    depend on that order (the minimum scan of the shortest-path loop, the
    first-match scan of [_get_interface_to_neighbor]).  A dict is therefore
    an association list in insertion order: assignment to an existing key
    keeps its position, assignment to a new key appends.
  - Python [set]s are only tested for membership and emptiness; they are
    lists of keys.
  - Python [int] is [Z].  [time.time()] readings are passed in as a
    parameter and only stored.
  - Console output ([print]) is not part of the model.
  - [_flood_lsa] / [_flood_lsp] contain only a guarded [pass].  The model
    records each execution of that [pass] as a ghost event, so that "what
    would have been sent" can be stated; no state is touched.
  - LSA objects are passed by reference in Python.  The only in-place
    mutation of an LSA ([connect_routers] appending a link) targets the
    object that [add_interface] allocated three statements earlier, which no
    other database can hold yet; value semantics is therefore exact. *)

From Stdlib Require Import Ascii String List ZArith Lia Bool Arith.
Import ListNotations.
Local Open Scope string_scope.
Local Open Scope list_scope.

(* ------------------------------------------------------------------ *)
(** ** Insertion-ordered dictionaries and sets of strings *)

Definition dict (V : Type) : Type := list (string * V).

Section Dict.
Context {V : Type}.

(** [d.get(k)] *)
Fixpoint dict_get (k : string) (d : dict V) : option V :=
  match d with
  | [] => None
  | (k', v) :: t => if String.eqb k k' then Some v else dict_get k t
  end.

(** [k in d] *)
Definition dict_mem (k : string) (d : dict V) : bool :=
  match dict_get k d with Some _ => true | None => false end.

(** [d[k] = v] *)
Fixpoint dict_set (k : string) (v : V) (d : dict V) : dict V :=
  match d with
  | [] => [(k, v)]
  | (k', v') :: t =>
      if String.eqb k k' then (k, v) :: t else (k', v') :: dict_set k v t
  end.

(** [del d[k]] (for a key that is present) *)
Fixpoint dict_del (k : string) (d : dict V) : dict V :=
  match d with
  | [] => []
  | (k', v') :: t =>
      if String.eqb k k' then t else (k', v') :: dict_del k t
  end.

Definition dict_keys (d : dict V) : list string := map fst d.

(** The keys of a Python dict are pairwise distinct. *)
Definition dict_wf (d : dict V) : Prop := NoDup (dict_keys d).
End Dict.

(** Sets of strings: [x in s], [s.add(x)], [s.discard(x)]. *)
Definition str_set : Type := list string.

Definition set_mem (x : string) (s : str_set) : bool :=
  existsb (String.eqb x) s.

Definition set_add (x : string) (s : str_set) : str_set :=
  if set_mem x s then s else s ++ [x].

Definition set_discard (x : string) (s : str_set) : str_set :=
  filter (fun y => negb (String.eqb x y)) s.

(** Truthiness of a Python [str]: the empty string is falsy. *)
Definition truthy (s : string) : bool := negb (String.eqb s "").

(** A reading of [time.time()]. *)
Definition timestamp : Type := Z.

(** Interface table entry: [{'ip', 'mask', 'cost', 'neighbors'}]; the same
    in both routers. *)
Record InterfaceInfo : Type := mkInterfaceInfo {
  if_ip : string;
  if_mask : string;
  if_cost : Z;
  if_neighbors : str_set
}.

(* ------------------------------------------------------------------ *)
(** ** Shortest-path engine

    The Dijkstra loop and the predecessor walks are the same text in
    [ospf_router.py] (lines 179-200, 237-271) and in [isis_router.py]
    (lines 180-201, 230-253); they are embedded once. *)

Module SPF.

(** Values held by [distances]: an [int], or [float('inf')] (the default
    of [distances.get(current, float('inf'))]). *)
Inductive distance : Type :=
| Fin (z : Z)
| Inf.

Definition dist_add (d : distance) (c : Z) : distance :=
  match d with
  | Fin z => Fin (z + c)
  | Inf => Inf
  end.

Definition dist_ltb (a b : distance) : bool :=
  match a, b with
  | Fin x, Fin y => Z.ltb x y
  | Fin _, Inf => true
  | Inf, _ => false
  end.

(** [graph[router_id]] is a list of [(neighbor_id, cost)]. *)
Definition graph : Type := dict (list (string * Z)).

(** [{k: v for k, v in distances.items() if k in unvisited}] *)
Definition candidates (distances : dict distance) (unvisited : str_set)
  : dict distance :=
  filter (fun kv => set_mem (fst kv) unvisited) distances.

(** [min(candidates, key=candidates.get)]: the first key, in iteration
    order, whose value is minimal. *)
Fixpoint min_from (best : string) (bv : distance) (l : dict distance)
  : string :=
  match l with
  | [] => best
  | (k, v) :: t =>
      if dist_ltb v bv then min_from k v t else min_from best bv t
  end.

Definition min_key (c : dict distance) : option string :=
  match c with
  | [] => None
  | (k, v) :: t => Some (min_from k v t)
  end.

(** Body of [for neighbor_id, cost in graph[current]]. *)
Definition relax_edge (current : string) (unvisited : str_set)
  (st : dict distance * dict string) (e : string * Z)
  : dict distance * dict string :=
  let '(distances, previous) := st in
  let '(neighbor_id, cost) := e in
  if set_mem neighbor_id unvisited then
    let new_distance :=
      dist_add (match dict_get current distances with
                | Some d => d
                | None => Inf
                end) cost in
    if negb (dict_mem neighbor_id distances)
       || match dict_get neighbor_id distances with
          | Some d => dist_ltb new_distance d
          | None => false
          end
    then (dict_set neighbor_id new_distance distances,
          dict_set neighbor_id current previous)
    else st
  else st.

(** [while unvisited: ...].  Every iteration removes [current] from
    [unvisited], so [length unvisited] iterations are enough; see
    [dijkstra_fuel_enough]. *)
Fixpoint dijkstra (fuel : nat) (g : graph) (distances : dict distance)
  (previous : dict string) (unvisited : str_set)
  : dict distance * dict string :=
  match fuel with
  | O => (distances, previous)
  | S fuel' =>
      match unvisited with
      | [] => (distances, previous)
      | _ :: _ =>
          match min_key (candidates distances unvisited) with
          | None => (distances, previous)
          | Some current =>
              let unvisited' := set_discard current unvisited in
              let st :=
                match dict_get current g with
                | Some edges =>
                    fold_left (relax_edge current unvisited') edges
                      (distances, previous)
                | None => (distances, previous)
                end in
              dijkstra fuel' g (fst st) (snd st) unvisited'
          end
      end
  end.

(** Lines 180-200: the initialisation and the loop. *)
Definition shortest_paths (self_id : string) (g : graph) (nodes : list string)
  : dict distance * dict string :=
  dijkstra (length nodes) g [(self_id, Fin 0)] [] nodes.

(** [while current in previous: path.append(current); current =
    previous[current]].  [None] stands for a walk that does not end. *)
Fixpoint walk_back (fuel : nat) (previous : dict string) (current : string)
  (path : list string) : option (list string) :=
  match fuel with
  | O => None
  | S fuel' =>
      match dict_get current previous with
      | Some p => walk_back fuel' previous p (path ++ [current])
      | None => Some path
      end
  end.

(** A walk that has not ended after [length previous] steps has met some
    key twice and never ends. *)
Definition walk_fuel (previous : dict string) : nat := S (length previous).

Definition _get_path (self_id dest : string) (previous : dict string)
  : option (list string) :=
  match walk_back (walk_fuel previous) previous dest [] with
  | None => None
  | Some path => Some (rev (path ++ [self_id]))
  end.

(** [path[-2]] *)
Definition second_to_last (path : list string) : option string :=
  nth_error path (length path - 2).

Definition _find_next_hop (self_id dest : string) (previous : dict string)
  : option (option string) :=
  if negb (dict_mem dest previous) then Some None
  else
    match walk_back (walk_fuel previous) previous dest [] with
    | None => None
    | Some path0 =>
        let path := path0 ++ [self_id] in
        if Nat.leb 2 (length path) then Some (second_to_last path)
        else Some None
    end.

Fixpoint _get_interface_to_neighbor (interfaces : dict InterfaceInfo)
  (neighbor_id : string) : option string :=
  match interfaces with
  | [] => None
  | (iface, info) :: t =>
      if set_mem neighbor_id (if_neighbors info) then Some iface
      else _get_interface_to_neighbor t neighbor_id
  end.

End SPF.

(** Exceptions ([KeyError], [ValueError], [RuntimeError]) and walks that do
    not end are [None]. *)
Definition bind {A B : Type} (c : option A) (k : A -> option B) : option B :=
  match c with
  | Some a => k a
  | None => None
  end.

Notation "'do' x <- c ; k" := (bind c (fun x => k))
  (at level 10, x pattern, c at level 100, k at level 200).

(* ------------------------------------------------------------------ *)
(** ** [ospf_router.py] *)

Module OSPF.
Import SPF.

Inductive OSPFState : Type :=
| DOWN | INIT | TWO_WAY | EXSTART | EXCHANGE | LOADING | FULL.

Definition state_eqb (a b : OSPFState) : bool :=
  match a, b with
  | DOWN, DOWN | INIT, INIT | TWO_WAY, TWO_WAY | EXSTART, EXSTART
  | EXCHANGE, EXCHANGE | LOADING, LOADING | FULL, FULL => true
  | _, _ => false
  end.

(** An entry of [LSA.links]: a dict with keys ['interface'], ['ip'],
    ['cost'] and, when [connect_routers] wrote it, ['neighbor_router_id'].
    The last two are read with [.get], so they may be missing. *)
Record Link : Type := mkLink {
  link_interface : string;
  link_ip : string;
  link_cost : option Z;
  link_neighbor_router_id : option string
}.

Record LSA : Type := mkLSA {
  lsa_router_id : string;
  lsa_sequence : Z;
  lsa_links : list Link;
  lsa_age : Z
}.

Record Route : Type := mkRoute {
  rt_prefix : string;
  rt_next_hop : string;
  rt_cost : distance;
  rt_interface : string
}.

(** [{'state', 'last_hello', 'interface'}] *)
Record Neighbor : Type := mkNeighbor {
  nb_state : OSPFState;
  nb_last_hello : timestamp;
  nb_interface : string
}.

Record OSPFRouter : Type := mkRouter {
  router_id : string;
  area_id : string;
  hello_interval : Z;
  dead_interval : Z;
  neighbors : dict Neighbor;
  lsdb : dict LSA;
  routing_table : dict Route;
  interfaces : dict InterfaceInfo;
  running : bool
}.

(** Ghost event: the [pass] of [_flood_lsa] was executed for this neighbor
    ("In real implementation, send packet"). *)
Inductive Event : Type :=
| FloodPass (neighbor_id : string) (lsa : LSA).

Definition with_neighbors (r : OSPFRouter) (n : dict Neighbor) : OSPFRouter :=
  mkRouter (router_id r) (area_id r) (hello_interval r) (dead_interval r)
    n (lsdb r) (routing_table r) (interfaces r) (running r).

Definition with_lsdb (r : OSPFRouter) (l : dict LSA) : OSPFRouter :=
  mkRouter (router_id r) (area_id r) (hello_interval r) (dead_interval r)
    (neighbors r) l (routing_table r) (interfaces r) (running r).

Definition with_routing_table (r : OSPFRouter) (t : dict Route) : OSPFRouter :=
  mkRouter (router_id r) (area_id r) (hello_interval r) (dead_interval r)
    (neighbors r) (lsdb r) t (interfaces r) (running r).

Definition with_interfaces (r : OSPFRouter) (i : dict InterfaceInfo)
  : OSPFRouter :=
  mkRouter (router_id r) (area_id r) (hello_interval r) (dead_interval r)
    (neighbors r) (lsdb r) (routing_table r) i (running r).

(** The link entry [_create_self_lsa] builds for one interface. *)
Definition self_link (item : string * InterfaceInfo) : Link :=
  mkLink (fst item) (if_ip (snd item)) (Some (if_cost (snd item))) None.

Definition _create_self_lsa (r : OSPFRouter) : OSPFRouter :=
  let links := map self_link (interfaces r) in
  with_lsdb r
    (dict_set (router_id r) (mkLSA (router_id r) 0 links 0) (lsdb r)).

(** [OSPFRouter.__init__] *)
Definition new_router (rid area : string) : OSPFRouter :=
  _create_self_lsa (mkRouter rid area 10 40 [] [] [] [] false).

Definition default_mask : string := "255.255.255.0".

Definition add_interface (r : OSPFRouter) (interface ip mask : string)
  (cost : Z) : OSPFRouter :=
  _create_self_lsa
    (with_interfaces r
       (dict_set interface (mkInterfaceInfo ip mask cost []) (interfaces r))).

(** The guard of the loop of [_flood_lsa]. *)
Definition flood_guard (except_router : string) (item : string * Neighbor)
  : bool :=
  negb (String.eqb (fst item) except_router)
  && state_eqb (nb_state (snd item)) FULL.

(** [_flood_lsa] changes nothing; its result here is the ghost trace. *)
Definition _flood_lsa (r : OSPFRouter) (lsa : LSA) (except_router : string)
  : list Event :=
  flat_map
    (fun item =>
       if flood_guard except_router item then [FloodPass (fst item) lsa]
       else [])
    (neighbors r).

Definition _receive_lsa (r : OSPFRouter) (lsa : LSA) (from_router : string)
  : OSPFRouter * list Event :=
  match dict_get (lsa_router_id lsa) (lsdb r) with
  | None =>
      let r' := with_lsdb r (dict_set (lsa_router_id lsa) lsa (lsdb r)) in
      (r', _flood_lsa r' lsa from_router)
  | Some stored =>
      if Z.gtb (lsa_sequence lsa) (lsa_sequence stored) then
        let r' := with_lsdb r (dict_set (lsa_router_id lsa) lsa (lsdb r)) in
        (r', _flood_lsa r' lsa from_router)
      else (r, [])
  end.

Definition receive_lsa (r : OSPFRouter) (lsa : LSA) (from_router : string)
  : OSPFRouter * list Event :=
  _receive_lsa r lsa from_router.

(** [for router_id, lsa in self.lsdb.items(): self._receive_lsa(lsa,
    neighbor_id)].  The loop runs over the live dict: [i] is the iterator's
    position, and a change of size between two steps raises
    [RuntimeError]. *)
Fixpoint _send_lsas_from (n i : nat) (r : OSPFRouter) (neighbor_id : string)
  : option (OSPFRouter * list Event) :=
  match n with
  | O => Some (r, [])
  | S n' =>
      match nth_error (lsdb r) i with
      | None => Some (r, [])
      | Some (_, lsa) =>
          let (r1, ev1) := _receive_lsa r lsa neighbor_id in
          if Nat.eqb (length (lsdb r1)) (length (lsdb r)) then
            do res <- _send_lsas_from n' (S i) r1 neighbor_id;
            Some (fst res, ev1 ++ snd res)
          else None
      end
  end.

Definition _send_lsas (r : OSPFRouter) (neighbor_id : string)
  : option (OSPFRouter * list Event) :=
  _send_lsas_from (length (lsdb r)) 0 r neighbor_id.

(** [self.neighbors[neighbor_id]['state'] = st] *)
Definition set_state (r : OSPFRouter) (neighbor_id : string) (st : OSPFState)
  : option OSPFRouter :=
  do info <- dict_get neighbor_id (neighbors r);
  Some (with_neighbors r
          (dict_set neighbor_id
             (mkNeighbor st (nb_last_hello info) (nb_interface info))
             (neighbors r))).

Definition _exchange_lsas (r : OSPFRouter) (neighbor_id : string)
  : option (OSPFRouter * list Event) :=
  do info <- dict_get neighbor_id (neighbors r);
  if state_eqb (nb_state info) TWO_WAY then
    do r1 <- set_state r neighbor_id EXSTART;
    do res <- _send_lsas r1 neighbor_id;
    do r3 <- set_state (fst res) neighbor_id EXCHANGE;
    do r4 <- set_state r3 neighbor_id FULL;
    Some (r4, snd res)
  else Some (r, []).

Definition receive_hello (r : OSPFRouter) (neighbor_id interface : string)
  (now : timestamp) : option (OSPFRouter * list Event) :=
  let r1 :=
    match dict_get neighbor_id (neighbors r) with
    | None =>
        with_neighbors r
          (dict_set neighbor_id (mkNeighbor INIT now interface) (neighbors r))
    | Some info =>
        with_neighbors r
          (dict_set neighbor_id
             (mkNeighbor (nb_state info) now (nb_interface info))
             (neighbors r))
    end in
  do info <- dict_get neighbor_id (neighbors r1);
  if state_eqb (nb_state info) INIT then
    do r2 <- set_state r1 neighbor_id TWO_WAY;
    _exchange_lsas r2 neighbor_id
  else Some (r1, []).

(** [link.get('neighbor_router_id')] is kept when it is truthy and a key
    of the LSDB; the weight is [link.get('cost', 10)]. *)
Definition link_edge (db : dict LSA) (link : Link) : list (string * Z) :=
  match link_neighbor_router_id link with
  | Some neighbor_id =>
      if truthy neighbor_id && dict_mem neighbor_id db then
        [(neighbor_id,
          match link_cost link with Some c => c | None => 10%Z end)]
      else []
  | None => []
  end.

(** The edges one stored record contributes to the graph. *)
Definition lsa_edges (db : dict LSA) (lsa : LSA) : list (string * Z) :=
  flat_map (link_edge db) (lsa_links lsa).

Definition build_graph (db : dict LSA) : graph :=
  fold_left (fun g item => dict_set (fst item) (lsa_edges db (snd item)) g)
    db [].

Definition _get_path (r : OSPFRouter) (dest : string)
  (previous : dict string) : option (list string) :=
  SPF._get_path (router_id r) dest previous.

Definition _find_next_hop (r : OSPFRouter) (dest : string)
  (previous : dict string) : option (option string) :=
  SPF._find_next_hop (router_id r) dest previous.

Definition _get_interface_to_neighbor (r : OSPFRouter) (neighbor_id : string)
  : option string :=
  SPF._get_interface_to_neighbor (interfaces r) neighbor_id.

Definition prefix_of (dest : string) : string := dest ++ "/32".

(** The route one item of [distances] yields, if any: the body of the
    loop of [_build_routing_table] up to the assignment.  The outer
    [option] is [None] when a predecessor walk does not end. *)
Definition route_for (r : OSPFRouter) (previous : dict string)
  (item : string * distance) : option (option Route) :=
  let dest_router := fst item in
  let cost := snd item in
  if String.eqb dest_router (router_id r) then Some None
  else
    do nh <- _find_next_hop r dest_router previous;
    match nh with
    | None => Some None
    | Some next_hop =>
        if truthy next_hop && dict_mem next_hop (neighbors r) then
          match _get_interface_to_neighbor r next_hop with
          | Some interface =>
              if truthy interface then
                do path <- _get_path r dest_router previous;
                Some (Some (mkRoute (prefix_of dest_router) next_hop cost
                              interface))
              else Some None
          | None => Some None
          end
        else Some None
    end.

Definition route_step (r : OSPFRouter) (previous : dict string)
  (acc : option (dict Route)) (item : string * distance)
  : option (dict Route) :=
  do table <- acc;
  do out <- route_for r previous item;
  match out with
  | Some route => Some (dict_set (rt_prefix route) route table)
  | None => Some table
  end.

Definition _build_routing_table (r : OSPFRouter) (distances : dict distance)
  (previous : dict string) : option OSPFRouter :=
  do table <- fold_left (route_step r previous) distances (Some []);
  Some (with_routing_table r table).

Definition calculate_spf (r : OSPFRouter) : option OSPFRouter :=
  if Nat.ltb (length (lsdb r)) 2 then Some r
  else
    let g := build_graph (lsdb r) in
    let sp := shortest_paths (router_id r) g (dict_keys (lsdb r)) in
    _build_routing_table r (fst sp) (snd sp).

(** [router_id.split('.')]: every separator ends a part; the parts may be
    empty. *)
Fixpoint split_on (sep : Ascii.ascii) (s : string) : list string :=
  match s with
  | EmptyString => [EmptyString]
  | String c rest =>
      if Ascii.eqb c sep then EmptyString :: split_on sep rest
      else
        match split_on sep rest with
        | h :: t => String c h :: t
        | [] => [String c EmptyString]
        end
  end.

(** [_get_prefix_for_router]; a method that does not read [self]. *)
Definition _get_prefix_for_router (rid : string) : option string :=
  match split_on "."%char rid with
  | [p0; p1; p2; _] =>
      Some (p0 ++ "." ++ p1 ++ "." ++ p2 ++ ".0/24")%string
  | _ => None
  end.

(** [get_routing_table]: a copy of the dict, which is the value itself. *)
Definition get_routing_table (r : OSPFRouter) : dict Route :=
  routing_table r.

End OSPF.

(* ------------------------------------------------------------------ *)
(** ** [ospf_network.py] and the exchange loop of the demos *)

Module OSPFNet.
Import OSPF.

Record OSPFNetwork : Type := mkNetwork {
  routers : dict OSPFRouter;
  links : list (string * string * string * string)
}.

Definition empty_network : OSPFNetwork := mkNetwork [] [].

Definition default_area : string := "0.0.0.0".

Definition add_router (net : OSPFNetwork) (rid area : string) : OSPFNetwork :=
  mkNetwork (dict_set rid (new_router rid area) (routers net)) (links net).

(** A method call on the router object stored under [rid]: only that
    object is handed to the method. *)
Definition on_router (rid : string) (f : OSPFRouter -> option OSPFRouter)
  (net : OSPFNetwork) : option OSPFNetwork :=
  do r <- dict_get rid (routers net);
  do r' <- f r;
  Some (mkNetwork (dict_set rid r' (routers net)) (links net)).

(** [router.lsdb[router.router_id].links.append(link)] *)
Definition append_self_link (link : Link) (r : OSPFRouter)
  : option OSPFRouter :=
  do lsa <- dict_get (router_id r) (lsdb r);
  Some (with_lsdb r
          (dict_set (router_id r)
             (mkLSA (lsa_router_id lsa) (lsa_sequence lsa)
                (lsa_links lsa ++ [link]) (lsa_age lsa))
             (lsdb r))).

(** [router.neighbors[neighbor_id] = {'state': INIT, ...}] *)
Definition put_neighbor (neighbor_id interface : string) (now : timestamp)
  (r : OSPFRouter) : option OSPFRouter :=
  Some (with_neighbors r
          (dict_set neighbor_id (mkNeighbor INIT now interface)
             (neighbors r))).

(** [router.interfaces[interface]['neighbors'].add(neighbor_id)] *)
Definition attach_neighbor (interface neighbor_id : string) (r : OSPFRouter)
  : option OSPFRouter :=
  do info <- dict_get interface (interfaces r);
  Some (with_interfaces r
          (dict_set interface
             (mkInterfaceInfo (if_ip info) (if_mask info) (if_cost info)
                (set_add neighbor_id (if_neighbors info)))
             (interfaces r))).

(** The statements of [connect_routers], in order.  [router1] and
    [router2] are the objects stored under the two ids, so every statement
    is a call on the router currently stored under that id. *)
Definition connect_routers (net : OSPFNetwork) (router1_id router2_id : string)
  (interface1 interface2 ip1 ip2 : string) (cost : Z) (now : timestamp)
  : option OSPFNetwork :=
  if negb (dict_mem router1_id (routers net))
     || negb (dict_mem router2_id (routers net))
  then None
  else
    do n <- on_router router1_id
              (fun r => Some (add_interface r interface1 ip1 default_mask cost))
              net;
    do n <- on_router router2_id
              (fun r => Some (add_interface r interface2 ip2 default_mask cost))
              n;
    let n := mkNetwork (routers n)
               (links n
                ++ [(router1_id, router2_id, interface1, interface2)]) in
    do n <- on_router router1_id
              (append_self_link
                 (mkLink interface1 ip1 (Some cost) (Some router2_id))) n;
    do n <- on_router router2_id
              (append_self_link
                 (mkLink interface2 ip2 (Some cost) (Some router1_id))) n;
    do n <- on_router router1_id (put_neighbor router2_id interface1 now) n;
    do n <- on_router router1_id (attach_neighbor interface1 router2_id) n;
    do n <- on_router router2_id (put_neighbor router1_id interface2 now) n;
    do n <- on_router router2_id (attach_neighbor interface2 router1_id) n;
    do n <- on_router router1_id
              (fun r => do res <- receive_hello r router2_id interface1 now;
                        Some (fst res)) n;
    on_router router2_id
      (fun r => do res <- receive_hello r router1_id interface2 now;
                Some (fst res)) n.

(** [router.receive_lsa(lsa, from_router)] for the router stored under
    [rid]. *)
Definition deliver (rid : string) (lsa : LSA) (from_router : string)
  (net : OSPFNetwork) : option OSPFNetwork :=
  on_router rid (fun r => Some (fst (receive_lsa r lsa from_router))) net.

(** The innermost loop of the "Exchanging LSAs" step of [demo.py],
    [combined_demo.py] and [route_loop_demo.py]: the router under [rid]
    receives every record of the LSDB of the router under [neighbor_id].
    When both ids name the same object the loop runs over the dict it
    mutates, as [_send_lsas] does. *)
Definition pull_from (rid neighbor_id : string) (net : OSPFNetwork)
  : option OSPFNetwork :=
  if String.eqb rid neighbor_id then
    on_router rid
      (fun r => do res <- _send_lsas r neighbor_id; Some (fst res)) net
  else
    do src <- dict_get neighbor_id (routers net);
    on_router rid
      (fun r =>
         Some (fold_left
                 (fun acc item => fst (receive_lsa acc (snd item) neighbor_id))
                 (lsdb src) r))
      net.

(** [for neighbor_id in router.neighbors.keys(): if neighbor_id in
    network.routers: ...] *)
Definition pull_from_neighbors (rid : string) (net : OSPFNetwork)
  : option OSPFNetwork :=
  do r <- dict_get rid (routers net);
  fold_left
    (fun acc neighbor_id =>
       do n <- acc;
       if dict_mem neighbor_id (routers n) then pull_from rid neighbor_id n
       else Some n)
    (dict_keys (neighbors r)) (Some net).

(** [for router_id, router in network.routers.items(): ...] *)
Definition exchange_pass (net : OSPFNetwork) : option OSPFNetwork :=
  fold_left (fun acc rid => do n <- acc; pull_from_neighbors rid n)
    (dict_keys (routers net)) (Some net).

(** [router.calculate_spf()] for the router stored under [rid]. *)
Definition spf_at (rid : string) (net : OSPFNetwork) : option OSPFNetwork :=
  on_router rid calculate_spf net.

(** [del router.neighbors[neighbor_id]] under the guard [neighbor_id in
    router.neighbors]. *)
Definition drop_neighbor (neighbor_id : string) (r : OSPFRouter)
  : option OSPFRouter :=
  if dict_mem neighbor_id (neighbors r) then
    Some (with_neighbors r (dict_del neighbor_id (neighbors r)))
  else Some r.

(** [for iface in router.interfaces.values():
    iface['neighbors'].discard(neighbor_id)] *)
Definition detach_neighbor (neighbor_id : string) (r : OSPFRouter)
  : option OSPFRouter :=
  Some (with_interfaces r
          (map (fun item =>
                  (fst item,
                   mkInterfaceInfo (if_ip (snd item)) (if_mask (snd item))
                     (if_cost (snd item))
                     (set_discard neighbor_id (if_neighbors (snd item)))))
             (interfaces r))).

(** [simulate_link_failure]: nothing happens unless both routers exist;
    the list [links] is not touched. *)
Definition simulate_link_failure (net : OSPFNetwork)
  (router1_id router2_id : string) : option OSPFNetwork :=
  if dict_mem router1_id (routers net) && dict_mem router2_id (routers net)
  then
    do n <- on_router router1_id (drop_neighbor router2_id) net;
    do n <- on_router router2_id (drop_neighbor router1_id) n;
    do n <- on_router router1_id (detach_neighbor router2_id) n;
    on_router router2_id (detach_neighbor router1_id) n
  else Some net.

End OSPFNet.

(* ------------------------------------------------------------------ *)
(** ** [isis_router.py] *)

Module ISIS.
Import SPF.

Inductive ISISLevel : Type :=
| LEVEL_1 | LEVEL_2 | LEVEL_1_2.

Inductive ISISState : Type :=
| DOWN | INIT | UP.

Definition level_eqb (a b : ISISLevel) : bool :=
  match a, b with
  | LEVEL_1, LEVEL_1 | LEVEL_2, LEVEL_2 | LEVEL_1_2, LEVEL_1_2 => true
  | _, _ => false
  end.

Definition state_eqb (a b : ISISState) : bool :=
  match a, b with
  | DOWN, DOWN | INIT, INIT | UP, UP => true
  | _, _ => false
  end.

(** An entry of [LSP.links]; the neighbor key is ['neighbor_system_id']. *)
Record Link : Type := mkLink {
  link_interface : string;
  link_ip : string;
  link_cost : option Z;
  link_neighbor_system_id : option string
}.

Record LSP : Type := mkLSP {
  lsp_system_id : string;
  lsp_sequence : Z;
  lsp_links : list Link;
  lsp_age : Z;
  lsp_level : ISISLevel
}.

Record ISISRoute : Type := mkRoute {
  rt_prefix : string;
  rt_next_hop : string;
  rt_cost : distance;
  rt_interface : string;
  rt_level : ISISLevel
}.

(** [{'state', 'last_hello', 'interface', 'level'}] *)
Record Neighbor : Type := mkNeighbor {
  nb_state : ISISState;
  nb_last_hello : timestamp;
  nb_interface : string;
  nb_level : ISISLevel
}.

Record ISISRouter : Type := mkRouter {
  system_id : string;
  level : ISISLevel;
  hello_interval : Z;
  hold_time : Z;
  neighbors : dict Neighbor;
  lsdb : dict LSP;
  routing_table : dict ISISRoute;
  interfaces : dict InterfaceInfo;
  running : bool
}.

(** Ghost event: the [pass] of [_flood_lsp] was executed for this
    neighbor. *)
Inductive Event : Type :=
| FloodPass (neighbor_id : string) (lsp : LSP).

Definition with_neighbors (r : ISISRouter) (n : dict Neighbor) : ISISRouter :=
  mkRouter (system_id r) (level r) (hello_interval r) (hold_time r)
    n (lsdb r) (routing_table r) (interfaces r) (running r).

Definition with_lsdb (r : ISISRouter) (l : dict LSP) : ISISRouter :=
  mkRouter (system_id r) (level r) (hello_interval r) (hold_time r)
    (neighbors r) l (routing_table r) (interfaces r) (running r).

Definition with_routing_table (r : ISISRouter) (t : dict ISISRoute)
  : ISISRouter :=
  mkRouter (system_id r) (level r) (hello_interval r) (hold_time r)
    (neighbors r) (lsdb r) t (interfaces r) (running r).

Definition with_interfaces (r : ISISRouter) (i : dict InterfaceInfo)
  : ISISRouter :=
  mkRouter (system_id r) (level r) (hello_interval r) (hold_time r)
    (neighbors r) (lsdb r) (routing_table r) i (running r).

Definition self_link (item : string * InterfaceInfo) : Link :=
  mkLink (fst item) (if_ip (snd item)) (Some (if_cost (snd item))) None.

Definition _create_self_lsp (r : ISISRouter) : ISISRouter :=
  let links := map self_link (interfaces r) in
  with_lsdb r
    (dict_set (system_id r) (mkLSP (system_id r) 0 links 0 (level r))
       (lsdb r)).

(** [ISISRouter.__init__] *)
Definition new_router (sid : string) (lvl : ISISLevel) : ISISRouter :=
  _create_self_lsp (mkRouter sid lvl 10 30 [] [] [] [] false).

Definition default_mask : string := "255.255.255.0".

Definition add_interface (r : ISISRouter) (interface ip mask : string)
  (cost : Z) : ISISRouter :=
  _create_self_lsp
    (with_interfaces r
       (dict_set interface (mkInterfaceInfo ip mask cost []) (interfaces r))).

Definition _levels_compatible (level1 level2 : ISISLevel) : bool :=
  if level_eqb level1 LEVEL_1_2 || level_eqb level2 LEVEL_1_2 then true
  else level_eqb level1 level2.

Definition flood_guard (except_router : string) (item : string * Neighbor)
  : bool :=
  negb (String.eqb (fst item) except_router)
  && state_eqb (nb_state (snd item)) UP.

(** [_flood_lsp] changes nothing; its result here is the ghost trace. *)
Definition _flood_lsp (r : ISISRouter) (lsp : LSP) (except_router : string)
  : list Event :=
  flat_map
    (fun item =>
       if flood_guard except_router item then [FloodPass (fst item) lsp]
       else [])
    (neighbors r).

Definition _receive_lsp (r : ISISRouter) (lsp : LSP) (from_router : string)
  : ISISRouter * list Event :=
  match dict_get (lsp_system_id lsp) (lsdb r) with
  | None =>
      let r' := with_lsdb r (dict_set (lsp_system_id lsp) lsp (lsdb r)) in
      (r', _flood_lsp r' lsp from_router)
  | Some stored =>
      if Z.gtb (lsp_sequence lsp) (lsp_sequence stored) then
        let r' := with_lsdb r (dict_set (lsp_system_id lsp) lsp (lsdb r)) in
        (r', _flood_lsp r' lsp from_router)
      else (r, [])
  end.

Definition receive_lsp (r : ISISRouter) (lsp : LSP) (from_router : string)
  : ISISRouter * list Event :=
  _receive_lsp r lsp from_router.

(** The loop of [_send_lsps] over the live dict, as in the OSPF router. *)
Fixpoint _send_lsps_from (n i : nat) (r : ISISRouter) (neighbor_id : string)
  : option (ISISRouter * list Event) :=
  match n with
  | O => Some (r, [])
  | S n' =>
      match nth_error (lsdb r) i with
      | None => Some (r, [])
      | Some (_, lsp) =>
          let (r1, ev1) := _receive_lsp r lsp neighbor_id in
          if Nat.eqb (length (lsdb r1)) (length (lsdb r)) then
            do res <- _send_lsps_from n' (S i) r1 neighbor_id;
            Some (fst res, ev1 ++ snd res)
          else None
      end
  end.

Definition _send_lsps (r : ISISRouter) (neighbor_id : string)
  : option (ISISRouter * list Event) :=
  _send_lsps_from (length (lsdb r)) 0 r neighbor_id.

Definition _exchange_lsps (r : ISISRouter) (neighbor_id : string)
  : option (ISISRouter * list Event) :=
  _send_lsps r neighbor_id.

(** [self.neighbors[neighbor_id]['state'] = st] *)
Definition set_state (r : ISISRouter) (neighbor_id : string) (st : ISISState)
  : option ISISRouter :=
  do info <- dict_get neighbor_id (neighbors r);
  Some (with_neighbors r
          (dict_set neighbor_id
             (mkNeighbor st (nb_last_hello info) (nb_interface info)
                (nb_level info))
             (neighbors r))).

(** [neighbor_level] defaults to [LEVEL_1] in the source. *)
Definition receive_hello (r : ISISRouter) (neighbor_id interface : string)
  (neighbor_level : ISISLevel) (now : timestamp)
  : option (ISISRouter * list Event) :=
  let r1 :=
    match dict_get neighbor_id (neighbors r) with
    | None =>
        with_neighbors r
          (dict_set neighbor_id
             (mkNeighbor INIT now interface neighbor_level) (neighbors r))
    | Some info =>
        with_neighbors r
          (dict_set neighbor_id
             (mkNeighbor (nb_state info) now (nb_interface info)
                (nb_level info))
             (neighbors r))
    end in
  do info <- dict_get neighbor_id (neighbors r1);
  if state_eqb (nb_state info) INIT then
    if _levels_compatible (level r) neighbor_level then
      do r2 <- set_state r1 neighbor_id UP;
      _exchange_lsps r2 neighbor_id
    else Some (r1, [])
  else Some (r1, []).

Definition link_edge (db : dict LSP) (link : Link) : list (string * Z) :=
  match link_neighbor_system_id link with
  | Some neighbor_id =>
      if truthy neighbor_id && dict_mem neighbor_id db then
        [(neighbor_id,
          match link_cost link with Some c => c | None => 10%Z end)]
      else []
  | None => []
  end.

Definition lsp_edges (db : dict LSP) (lsp : LSP) : list (string * Z) :=
  flat_map (link_edge db) (lsp_links lsp).

Definition build_graph (db : dict LSP) : graph :=
  fold_left (fun g item => dict_set (fst item) (lsp_edges db (snd item)) g)
    db [].

Definition _find_next_hop (r : ISISRouter) (dest : string)
  (previous : dict string) : option (option string) :=
  SPF._find_next_hop (system_id r) dest previous.

Definition _get_interface_to_neighbor (r : ISISRouter) (neighbor_id : string)
  : option string :=
  SPF._get_interface_to_neighbor (interfaces r) neighbor_id.

Definition prefix_of (dest : string) : string := dest ++ "/32".

Definition route_for (r : ISISRouter) (previous : dict string)
  (item : string * distance) : option (option ISISRoute) :=
  let dest_system := fst item in
  let cost := snd item in
  if String.eqb dest_system (system_id r) then Some None
  else
    do nh <- _find_next_hop r dest_system previous;
    match nh with
    | None => Some None
    | Some next_hop =>
        if truthy next_hop && dict_mem next_hop (neighbors r) then
          match _get_interface_to_neighbor r next_hop with
          | Some interface =>
              if truthy interface then
                Some (Some (mkRoute (prefix_of dest_system) next_hop cost
                              interface (level r)))
              else Some None
          | None => Some None
          end
        else Some None
    end.

Definition route_step (r : ISISRouter) (previous : dict string)
  (acc : option (dict ISISRoute)) (item : string * distance)
  : option (dict ISISRoute) :=
  do table <- acc;
  do out <- route_for r previous item;
  match out with
  | Some route => Some (dict_set (rt_prefix route) route table)
  | None => Some table
  end.

Definition _build_routing_table (r : ISISRouter) (distances : dict distance)
  (previous : dict string) : option ISISRouter :=
  do table <- fold_left (route_step r previous) distances (Some []);
  Some (with_routing_table r table).

Definition calculate_spf (r : ISISRouter) : option ISISRouter :=
  if Nat.ltb (length (lsdb r)) 2 then Some r
  else
    let g := build_graph (lsdb r) in
    let sp := shortest_paths (system_id r) g (dict_keys (lsdb r)) in
    _build_routing_table r (fst sp) (snd sp).

End ISIS.

(* ------------------------------------------------------------------ *)
(** ** [linux_router.py] and [ospf_router_linux.py] *)

Module Linux.

(** An element of [routes_installed]. *)
Record RouteEntry : Type := mkEntry {
  re_prefix : string;
  re_next_hop : string;
  re_interface : string
}.

(** [{'ip', 'netmask'}] *)
Record KernelInterface : Type := mkKernelInterface {
  ki_ip : string;
  ki_netmask : string
}.

Record LinuxRouter : Type := mkLinuxRouter {
  lr_router_id : string;
  lr_interfaces : dict KernelInterface;
  routes_installed : list RouteEntry
}.

(** [LinuxRouter.__init__] *)
Definition new_linux_router (rid : string) : LinuxRouter :=
  mkLinuxRouter rid [] [].

Definition add_interface (lr : LinuxRouter) (interface ip netmask : string)
  : LinuxRouter :=
  mkLinuxRouter (lr_router_id lr)
    (dict_set interface (mkKernelInterface ip netmask) (lr_interfaces lr))
    (routes_installed lr).

Definition install_route (lr : LinuxRouter) (prefix next_hop interface : string)
  : LinuxRouter :=
  mkLinuxRouter (lr_router_id lr) (lr_interfaces lr)
    (routes_installed lr ++ [mkEntry prefix next_hop interface]).

(** [[r for r in self.routes_installed if r['prefix'] != prefix]] *)
Definition delete_route (lr : LinuxRouter) (prefix : string) : LinuxRouter :=
  mkLinuxRouter (lr_router_id lr) (lr_interfaces lr)
    (filter (fun r => negb (String.eqb (re_prefix r) prefix))
       (routes_installed lr)).

(** Only prints. *)
Definition enable_ip_forwarding (lr : LinuxRouter) : LinuxRouter := lr.

Definition get_routes (lr : LinuxRouter) : list RouteEntry :=
  routes_installed lr.

End Linux.

Module OSPFLinux.
Import SPF.

(** An [OSPFRouterLinux] is an [OSPFRouter] with one more attribute. *)
Record OSPFRouterLinux : Type := mkRouterLinux {
  base : OSPF.OSPFRouter;
  linux_router : Linux.LinuxRouter
}.

Definition new_router (rid area : string) : OSPFRouterLinux :=
  mkRouterLinux (OSPF.new_router rid area)
    (Linux.enable_ip_forwarding (Linux.new_linux_router rid)).

Definition add_interface (r : OSPFRouterLinux) (interface ip mask : string)
  (cost : Z) : OSPFRouterLinux :=
  mkRouterLinux (OSPF.add_interface (base r) interface ip mask cost)
    (Linux.add_interface (linux_router r) interface ip mask).

(** The loop that installs the routes of the table just built. *)
Definition install_all (lr : Linux.LinuxRouter) (table : dict OSPF.Route)
  : Linux.LinuxRouter :=
  fold_left
    (fun acc item =>
       Linux.install_route acc (fst item) (OSPF.rt_next_hop (snd item))
         (OSPF.rt_interface (snd item)))
    table lr.

(** The override: the inherited construction, then the installation. *)
Definition _build_routing_table (r : OSPFRouterLinux)
  (distances : dict distance) (previous : dict string)
  : option OSPFRouterLinux :=
  do b <- OSPF._build_routing_table (base r) distances previous;
  Some (mkRouterLinux b (install_all (linux_router r) (OSPF.routing_table b))).

(** The inherited [calculate_spf], which calls the override. *)
Definition calculate_spf (r : OSPFRouterLinux) : option OSPFRouterLinux :=
  if Nat.ltb (length (OSPF.lsdb (base r))) 2 then Some r
  else
    let g := OSPF.build_graph (OSPF.lsdb (base r)) in
    let sp := shortest_paths (OSPF.router_id (base r)) g
                (dict_keys (OSPF.lsdb (base r))) in
    _build_routing_table r (fst sp) (snd sp).

Definition get_kernel_routes (r : OSPFRouterLinux) : list Linux.RouteEntry :=
  Linux.get_routes (linux_router r).

End OSPFLinux.

(* ------------------------------------------------------------------ *)
(** ** Vocabulary of the statements *)

(** Every binding of an LSDB stores a record under its own origin, and no
    origin is bound twice.  All operations of the routers keep this. *)
Definition ospf_lsdb_keyed (db : dict OSPF.LSA) : Prop :=
  dict_wf db /\ Forall (fun kv => OSPF.lsa_router_id (snd kv) = fst kv) db.

Definition isis_lsdb_keyed (db : dict ISIS.LSP) : Prop :=
  dict_wf db /\ Forall (fun kv => ISIS.lsp_system_id (snd kv) = fst kv) db.

(** The sequence number stored for an origin, if any. *)
Definition ospf_stored_sequence (origin : string) (r : OSPF.OSPFRouter)
  : option Z :=
  option_map OSPF.lsa_sequence (dict_get origin (OSPF.lsdb r)).

(** A run of [receive_lsa] calls. *)
Definition ospf_receive_all (records : list (OSPF.LSA * string))
  (r : OSPF.OSPFRouter) : OSPF.OSPFRouter :=
  fold_left (fun acc rec => fst (OSPF.receive_lsa acc (fst rec) (snd rec)))
    records r.

(** The sequence numbers observed locally for an origin: the one stored at
    the start, if any, and those of the records received for it. *)
Definition ospf_observed (origin : string) (r : OSPF.OSPFRouter)
  (records : list (OSPF.LSA * string)) : list Z :=
  match ospf_stored_sequence origin r with
  | Some s => [s]
  | None => []
  end
  ++ map (fun rec => OSPF.lsa_sequence (fst rec))
       (filter (fun rec => String.eqb (OSPF.lsa_router_id (fst rec)) origin)
          records).

(** The state recorded for a neighbor, if it is in the Neighbor Table. *)
Definition ospf_neighbor_state (neighbor_id : string) (r : OSPF.OSPFRouter)
  : option OSPF.OSPFState :=
  option_map OSPF.nb_state (dict_get neighbor_id (OSPF.neighbors r)).

Definition isis_neighbor_state (neighbor_id : string) (r : ISIS.ISISRouter)
  : option ISIS.ISISState :=
  option_map ISIS.nb_state (dict_get neighbor_id (ISIS.neighbors r)).

(** [router.receive_hello(neighbor_id, interface)] for the router stored
    under [rid] in a network. *)
Definition ospf_hello_at (rid neighbor_id interface : string)
  (now : timestamp) (net : OSPFNet.OSPFNetwork)
  : option OSPFNet.OSPFNetwork :=
  OSPFNet.on_router rid
    (fun r => do res <- OSPF.receive_hello r neighbor_id interface now;
              Some (fst res))
    net.

(** Calls an ISIS router receives from outside. *)
Inductive isis_input : Type :=
| Hello (neighbor_id interface : string) (neighbor_level : ISIS.ISISLevel)
    (now : timestamp)
| Deliver (lsp : ISIS.LSP) (from_router : string).

Definition isis_step (r : ISIS.ISISRouter) (i : isis_input)
  : option (ISIS.ISISRouter * list ISIS.Event) :=
  match i with
  | Hello neighbor_id interface neighbor_level now =>
      ISIS.receive_hello r neighbor_id interface neighbor_level now
  | Deliver lsp from_router => Some (ISIS.receive_lsp r lsp from_router)
  end.

(** A run of calls, with the ghost events of all of them. *)
Fixpoint isis_run (inputs : list isis_input) (r : ISIS.ISISRouter)
  : option (ISIS.ISISRouter * list ISIS.Event) :=
  match inputs with
  | [] => Some (r, [])
  | i :: rest =>
      do res <- isis_step r i;
      do res' <- isis_run rest (fst res);
      Some (fst res', snd res ++ snd res')
  end.

(** The Neighbor Table entry an OSPF hello leaves behind: an [INIT] or
    unknown peer ends in [FULL]; any other state is kept. *)
Definition ospf_hello_entry (r : OSPF.OSPFRouter)
  (neighbor_id interface : string) (now : timestamp) : OSPF.Neighbor :=
  match dict_get neighbor_id (OSPF.neighbors r) with
  | None => OSPF.mkNeighbor OSPF.FULL now interface
  | Some info =>
      OSPF.mkNeighbor
        (if OSPF.state_eqb (OSPF.nb_state info) OSPF.INIT then OSPF.FULL
         else OSPF.nb_state info)
        now (OSPF.nb_interface info)
  end.

(** The same for an ISIS hello: an [INIT] or unknown peer ends in [UP]
    when the levels are compatible and in [INIT] otherwise. *)
Definition isis_hello_entry (r : ISIS.ISISRouter)
  (neighbor_id interface : string) (neighbor_level : ISIS.ISISLevel)
  (now : timestamp) : ISIS.Neighbor :=
  let up_or_init :=
    if ISIS._levels_compatible (ISIS.level r) neighbor_level then ISIS.UP
    else ISIS.INIT in
  match dict_get neighbor_id (ISIS.neighbors r) with
  | None => ISIS.mkNeighbor up_or_init now interface neighbor_level
  | Some info =>
      ISIS.mkNeighbor
        (if ISIS.state_eqb (ISIS.nb_state info) ISIS.INIT then up_or_init
         else ISIS.nb_state info)
        now (ISIS.nb_interface info) (ISIS.nb_level info)
  end.

(** *** Scenarios *)

Definition three_routers : OSPFNet.OSPFNetwork :=
  OSPFNet.add_router
    (OSPFNet.add_router
       (OSPFNet.add_router OSPFNet.empty_network "A" OSPFNet.default_area)
       "B" OSPFNet.default_area)
    "C" OSPFNet.default_area.

Definition connect_A_B (net : OSPFNet.OSPFNetwork)
  : option OSPFNet.OSPFNetwork :=
  OSPFNet.connect_routers net "A" "B" "eth0" "eth0" "10.1.12.1" "10.1.12.2"
    10%Z 0%Z.

Definition connect_B_C (net : OSPFNet.OSPFNetwork)
  : option OSPFNet.OSPFNetwork :=
  OSPFNet.connect_routers net "B" "C" "eth1" "eth0" "10.1.23.2" "10.1.23.3"
    10%Z 0%Z.

(** Two routers that have not met. *)
Definition two_routers : OSPFNet.OSPFNetwork :=
  OSPFNet.add_router
    (OSPFNet.add_router OSPFNet.empty_network "A" OSPFNet.default_area)
    "B" OSPFNet.default_area.

(** A and B connected by [connect_routers]. *)
Definition pair_A_B : option OSPFNet.OSPFNetwork := connect_A_B two_routers.

(** A record of an origin that A and B do not know. *)
Definition record_X : OSPF.LSA := OSPF.mkLSA "X" 1 [] 0.

(** Router A of the connected pair. *)
Definition pair_router_A : OSPF.OSPFRouter :=
  match do n <- pair_A_B; dict_get "A" (OSPFNet.routers n) with
  | Some a => a
  | None => OSPF.new_router "A" OSPFNet.default_area
  end.

(** Two passes of the exchange loop of the demos; for three routers in a
    line a third pass changes nothing ([exchange_twice_is_complete]). *)
Definition exchange_twice (net : OSPFNet.OSPFNetwork)
  : option OSPFNet.OSPFNetwork :=
  do n <- OSPFNet.exchange_pass net;
  OSPFNet.exchange_pass n.

(** The line A-B-C, link A-B connected first, records exchanged. *)
Definition line_AB_then_BC_exchanged : option OSPFNet.OSPFNetwork :=
  do n <- connect_A_B three_routers;
  do n <- connect_B_C n;
  exchange_twice n.

(** The same line, link B-C connected first. *)
Definition line_BC_then_AB_exchanged : option OSPFNet.OSPFNetwork :=
  do n <- connect_B_C three_routers;
  do n <- connect_A_B n;
  exchange_twice n.

(** [calculate_spf] on A after the exchange. *)
Definition line_AB_then_BC : option OSPFNet.OSPFNetwork :=
  do n <- line_AB_then_BC_exchanged;
  OSPFNet.spf_at "A" n.

Definition line_BC_then_AB : option OSPFNet.OSPFNetwork :=
  do n <- line_BC_then_AB_exchanged;
  OSPFNet.spf_at "A" n.

(** What a network reports about one router. *)
Definition route_of (rid prefix : string) (net : option OSPFNet.OSPFNetwork)
  : option OSPF.Route :=
  do n <- net;
  do r <- dict_get rid (OSPFNet.routers n);
  dict_get prefix (OSPF.routing_table r).

Definition origins_of (rid : string) (net : option OSPFNet.OSPFNetwork)
  : option (list string) :=
  do n <- net;
  do r <- dict_get rid (OSPFNet.routers n);
  Some (dict_keys (OSPF.lsdb r)).

Definition neighbor_states_of (rid : string)
  (net : option OSPFNet.OSPFNetwork)
  : option (list (string * OSPF.OSPFState)) :=
  do n <- net;
  do r <- dict_get rid (OSPFNet.routers n);
  Some (map (fun kv => (fst kv, OSPF.nb_state (snd kv))) (OSPF.neighbors r)).

(** *** Predecessor chains *)

(** [chain_depth previous n d]: the walk from [n] along [previous] ends
    after [d] steps. *)
Inductive chain_depth (previous : dict string) : string -> nat -> Prop :=
| chain_end n : dict_get n previous = None -> chain_depth previous n 0
| chain_step n p d :
    dict_get n previous = Some p ->
    chain_depth previous p d -> chain_depth previous n (S d).

(** [vs] lists visited vertices that have a predecessor, latest first: the
    predecessor of each is visited, and is either a root or further down
    the list. *)
Fixpoint chain_ok (previous : dict string) (unvisited : str_set)
  (vs : list string) : Prop :=
  match vs with
  | [] => True
  | v :: vs' =>
      (exists p, dict_get v previous = Some p
                 /\ ~ In p unvisited
                 /\ (In p vs' \/ dict_get p previous = None))
      /\ chain_ok previous unvisited vs'
  end.

(** Invariant of the shortest-path loop on [previous]. *)
Definition spf_inv (previous : dict string) (unvisited : str_set)
  (vs : list string) : Prop :=
  NoDup vs
  /\ (forall v, In v vs -> ~ In v unvisited)
  /\ chain_ok previous unvisited vs
  /\ (forall n p, dict_get n previous = Some p ->
        In n vs
        \/ (In n unvisited /\ ~ In p unvisited
            /\ (In p vs \/ dict_get p previous = None))).

(** *** More vocabulary *)

(** The string has no ['.']. *)
Definition no_dot (s : string) : Prop :=
  ~ In "."%char (list_ascii_of_string s).

(** Calls an OSPF router receives from outside. *)
Inductive ospf_input : Type :=
| OAddInterface (interface ip mask : string) (cost : Z)
| OHello (neighbor_id interface : string) (now : timestamp)
| ODeliver (lsa : OSPF.LSA) (from_router : string)
| OCalculateSpf.

Definition ospf_step (r : OSPF.OSPFRouter) (i : ospf_input)
  : option OSPF.OSPFRouter :=
  match i with
  | OAddInterface interface ip mask cost =>
      Some (OSPF.add_interface r interface ip mask cost)
  | OHello neighbor_id interface now =>
      do res <- OSPF.receive_hello r neighbor_id interface now;
      Some (fst res)
  | ODeliver lsa from_router => Some (fst (OSPF.receive_lsa r lsa from_router))
  | OCalculateSpf => OSPF.calculate_spf r
  end.

Fixpoint ospf_run (inputs : list ospf_input) (r : OSPF.OSPFRouter)
  : option OSPF.OSPFRouter :=
  match inputs with
  | [] => Some r
  | i :: rest => do r' <- ospf_step r i; ospf_run rest r'
  end.

(** What every OSPF router reachable by such calls satisfies. *)
Definition ospf_sound (r : OSPF.OSPFRouter) : Prop :=
  ospf_lsdb_keyed (OSPF.lsdb r)
  /\ dict_mem (OSPF.router_id r) (OSPF.lsdb r) = true
  /\ dict_wf (OSPF.neighbors r)
  /\ dict_wf (OSPF.interfaces r)
  /\ Forall (fun kv => OSPF.nb_state (snd kv) = OSPF.FULL) (OSPF.neighbors r).

(** What [simulate_link_failure] leaves of a router that loses [peer]. *)
Definition ospf_after_failure (peer : string) (r : OSPF.OSPFRouter)
  : OSPF.OSPFRouter :=
  OSPF.with_interfaces
    (OSPF.with_neighbors r (dict_del peer (OSPF.neighbors r)))
    (map (fun item =>
            (fst item,
             mkInterfaceInfo (if_ip (snd item)) (if_mask (snd item))
               (if_cost (snd item))
               (set_discard peer (if_neighbors (snd item)))))
       (OSPF.interfaces r)).

(** What [connect_routers] does to one of the two routers: the calls it
    makes on that router, in order. *)
Definition ospf_connect_side (r : OSPF.OSPFRouter) (interface ip : string)
  (cost : Z) (peer : string) (now : timestamp) : option OSPF.OSPFRouter :=
  do r <- OSPFNet.append_self_link
            (OSPF.mkLink interface ip (Some cost) (Some peer))
            (OSPF.add_interface r interface ip OSPF.default_mask cost);
  do r <- OSPFNet.put_neighbor peer interface now r;
  do r <- OSPFNet.attach_neighbor interface peer r;
  do res <- OSPF.receive_hello r peer interface now;
  Some (fst res).

(** The router [connect_routers] leaves on one side of a new link: the
    interface is (re)created with the peer as its only neighbor, the self
    record is rebuilt from the interfaces and given one more link that
    names the peer, and the peer is a FULL neighbor on the interface. *)
Definition ospf_connected (r : OSPF.OSPFRouter) (interface ip : string)
  (cost : Z) (peer : string) (now : timestamp) : OSPF.OSPFRouter :=
  OSPF.mkRouter (OSPF.router_id r) (OSPF.area_id r) (OSPF.hello_interval r)
    (OSPF.dead_interval r)
    (dict_set peer (OSPF.mkNeighbor OSPF.FULL now interface)
       (OSPF.neighbors r))
    (dict_set (OSPF.router_id r)
       (OSPF.mkLSA (OSPF.router_id r) 0
          (map OSPF.self_link
             (dict_set interface
                (mkInterfaceInfo ip OSPF.default_mask cost [])
                (OSPF.interfaces r))
           ++ [OSPF.mkLink interface ip (Some cost) (Some peer)])
          0)
       (OSPF.lsdb r))
    (OSPF.routing_table r)
    (dict_set interface (mkInterfaceInfo ip OSPF.default_mask cost [peer])
       (OSPF.interfaces r))
    (OSPF.running r).

(** *** Paths in the graph of the shortest-path loop *)

(** [graph[u]] lists [(v, c)]. *)
Definition edge (g : SPF.graph) (u v : string) (c : Z) : Prop :=
  exists edges, dict_get u g = Some edges /\ In (v, c) edges.

(** [reaches g source v w]: some sequence of edges leads from [source] to
    [v] and its costs add up to [w]. *)
Inductive reaches (g : SPF.graph) (source : string) : string -> Z -> Prop :=
| reaches_source : reaches g source source 0
| reaches_edge v x w c :
    reaches g source v w -> edge g v x c -> reaches g source x (w + c).

(** What the loop keeps true of [distances] and [previous], whatever the
    costs are. *)
Definition path_inv (self_id : string) (g : SPF.graph) (nodes : list string)
  (distances : dict SPF.distance) (previous : dict string)
  (unvisited : str_set) : Prop :=
  (forall n d, dict_get n distances = Some d ->
               exists w, d = SPF.Fin w /\ reaches g self_id n w)
  /\ (forall n p, dict_get n previous = Some p ->
         ~ In p unvisited
         /\ exists wp c,
             dict_get p distances = Some (SPF.Fin wp)
             /\ dict_get n distances = Some (SPF.Fin (wp + c))
             /\ edge g p n c)
  /\ (forall k, dict_mem k distances = true -> k = self_id \/ In k nodes)
  /\ (forall n, In n unvisited -> In n nodes)
  /\ dict_get self_id distances = Some (SPF.Fin 0)
  /\ (In self_id unvisited -> distances = [(self_id, SPF.Fin 0)]).

(** What the loop keeps true between two iterations when no cost is
    negative: a visited vertex has relaxed all its edges, and no visited
    vertex is farther than an unvisited one. *)
Definition opt_inv (g : SPF.graph) (nodes : list string)
  (distances : dict SPF.distance) (unvisited : str_set) : Prop :=
  dict_wf distances
  /\ (forall n d, dict_get n distances = Some d -> exists w, d = SPF.Fin w)
  /\ (forall n, In n unvisited -> In n nodes)
  /\ (forall n, In n nodes -> ~ In n unvisited ->
                dict_mem n distances = true)
  /\ (forall v n c wv,
         ~ In v unvisited ->
         dict_get v distances = Some (SPF.Fin wv) ->
         edge g v n c ->
         exists wn, dict_get n distances = Some (SPF.Fin wn)
                    /\ (wn <= wv + c)%Z)
  /\ (forall v n wv wn,
         ~ In v unvisited -> In n unvisited ->
         dict_get v distances = Some (SPF.Fin wv) ->
         dict_get n distances = Some (SPF.Fin wn) ->
         (wv <= wn)%Z).

(** The same while the edges of [current] are relaxed; [done] are the
    edges already handled. *)
Definition relax_opt_inv (g : SPF.graph) (nodes : list string)
  (current : string) (wc : Z) (done : list (string * Z))
  (distances : dict SPF.distance) (unvisited : str_set) : Prop :=
  dict_wf distances
  /\ (forall n d, dict_get n distances = Some d -> exists w, d = SPF.Fin w)
  /\ (forall n, In n unvisited -> In n nodes)
  /\ (forall n, In n nodes -> ~ In n unvisited ->
                dict_mem n distances = true)
  /\ (forall v n c wv,
         v <> current ->
         ~ In v unvisited ->
         dict_get v distances = Some (SPF.Fin wv) ->
         edge g v n c ->
         exists wn, dict_get n distances = Some (SPF.Fin wn)
                    /\ (wn <= wv + c)%Z)
  /\ (forall n c,
         In (n, c) done ->
         exists wn, dict_get n distances = Some (SPF.Fin wn)
                    /\ (wn <= wc + c)%Z)
  /\ (forall v n wv wn,
         ~ In v unvisited -> In n unvisited ->
         dict_get v distances = Some (SPF.Fin wv) ->
         dict_get n distances = Some (SPF.Fin wn) ->
         (wv <= wn)%Z)
  /\ (forall v wv,
         ~ In v unvisited ->
         dict_get v distances = Some (SPF.Fin wv) ->
         (wv <= wc)%Z)
  /\ dict_get current distances = Some (SPF.Fin wc)
  /\ ~ In current unvisited.

(** No stored link has a negative ['cost']. *)
Definition ospf_costs_nonneg (db : dict OSPF.LSA) : bool :=
  forallb
    (fun item =>
       forallb
         (fun link =>
            match OSPF.link_cost link with
            | Some c => Z.leb 0 c
            | None => true
            end)
         (OSPF.lsa_links (snd item)))
    db.

Definition isis_costs_nonneg (db : dict ISIS.LSP) : bool :=
  forallb
    (fun item =>
       forallb
         (fun link =>
            match ISIS.link_cost link with
            | Some c => Z.leb 0 c
            | None => true
            end)
         (ISIS.lsp_links (snd item)))
    db.

(** A graph with a direct edge A-C that costs more than the way over B. *)
Definition triangle_graph : SPF.graph :=
  [("A", [("B", 10%Z); ("C", 50%Z)]);
   ("B", [("A", 10%Z); ("C", 10%Z)]);
   ("C", [("A", 50%Z); ("B", 10%Z)])].

(** Router A of the line A-B-C after the exchange. *)
Definition line_router_A : OSPF.OSPFRouter :=
  match do n <- line_AB_then_BC_exchanged;
        dict_get "A" (OSPFNet.routers n) with
  | Some a => a
  | None => OSPF.new_router "A" OSPFNet.default_area
  end.

(** An ISIS router A on the line A-B-C that holds the records of all
    three and has B as its neighbor on eth0. *)
Definition isis_line_router_A : ISIS.ISISRouter :=
  ISIS.mkRouter "A" ISIS.LEVEL_1 10%Z 30%Z
    [("B", ISIS.mkNeighbor ISIS.UP 0%Z "eth0" ISIS.LEVEL_1)]
    [("A", ISIS.mkLSP "A" 0%Z
             [ISIS.mkLink "eth0" "10.1.12.1" (Some 10%Z) (Some "B")]
             0%Z ISIS.LEVEL_1);
     ("B", ISIS.mkLSP "B" 0%Z
             [ISIS.mkLink "eth0" "10.1.12.2" (Some 10%Z) (Some "A");
              ISIS.mkLink "eth1" "10.1.23.2" (Some 10%Z) (Some "C")]
             0%Z ISIS.LEVEL_1);
     ("C", ISIS.mkLSP "C" 0%Z
             [ISIS.mkLink "eth0" "10.1.23.3" (Some 10%Z) (Some "B")]
             0%Z ISIS.LEVEL_1)]
    []
    [("eth0", mkInterfaceInfo "10.1.12.1" "255.255.255.0" 10%Z ["B"])]
    false.

(** Calls an ISIS router receives from outside. *)
Inductive isis_call : Type :=
| IAddInterface (interface ip mask : string) (cost : Z)
| IHello (neighbor_id interface : string) (neighbor_level : ISIS.ISISLevel)
    (now : timestamp)
| IDeliver (lsp : ISIS.LSP) (from_router : string)
| ICalculateSpf.

Definition isis_call_step (r : ISIS.ISISRouter) (c : isis_call)
  : option ISIS.ISISRouter :=
  match c with
  | IAddInterface interface ip mask cost =>
      Some (ISIS.add_interface r interface ip mask cost)
  | IHello neighbor_id interface neighbor_level now =>
      do res <- ISIS.receive_hello r neighbor_id interface neighbor_level now;
      Some (fst res)
  | IDeliver lsp from_router => Some (fst (ISIS.receive_lsp r lsp from_router))
  | ICalculateSpf => ISIS.calculate_spf r
  end.

Fixpoint isis_calls (calls : list isis_call) (r : ISIS.ISISRouter)
  : option ISIS.ISISRouter :=
  match calls with
  | [] => Some r
  | c :: rest => do r' <- isis_call_step r c; isis_calls rest r'
  end.

(** What every ISIS router reachable by such calls satisfies. *)
Definition isis_sound (r : ISIS.ISISRouter) : Prop :=
  isis_lsdb_keyed (ISIS.lsdb r)
  /\ dict_mem (ISIS.system_id r) (ISIS.lsdb r) = true
  /\ dict_wf (ISIS.neighbors r)
  /\ dict_wf (ISIS.interfaces r)
  /\ Forall (fun kv => ISIS.nb_state (snd kv) <> ISIS.DOWN) (ISIS.neighbors r).

(** What the calls keep of a neighbor entry: its interface and level, and
    the state UP. *)
Definition isis_neighbor_kept (info info' : ISIS.Neighbor) : Prop :=
  ISIS.nb_interface info' = ISIS.nb_interface info
  /\ ISIS.nb_level info' = ISIS.nb_level info
  /\ (ISIS.nb_state info = ISIS.UP -> ISIS.nb_state info' = ISIS.UP).

(** An ISIS router that has heard B on eth0 at level 2 while being level 1
    itself, and what it is sent next. *)
Definition isis_router_heard_B : ISIS.ISISRouter :=
  match ISIS.receive_hello (ISIS.new_router "A" ISIS.LEVEL_1) "B" "eth0"
          ISIS.LEVEL_2 0%Z with
  | Some res => fst res
  | None => ISIS.new_router "A" ISIS.LEVEL_1
  end.

Definition isis_calls_after_B : list isis_call :=
  [IAddInterface "eth1" "10.0.1.1" ISIS.default_mask 10%Z;
   IHello "B" "eth1" ISIS.LEVEL_1 5%Z;
   IDeliver (ISIS.mkLSP "B" 3%Z [] 0%Z ISIS.LEVEL_1) "B";
   ICalculateSpf].

(** Two interfaces that both list B; eth0 was added first. *)
Definition two_interfaces_to_B : dict InterfaceInfo :=
  [("eth0", mkInterfaceInfo "10.1.12.1" "255.255.255.0" 10%Z ["B"]);
   ("eth1", mkInterfaceInfo "10.1.13.1" "255.255.255.0" 10%Z ["C"; "B"])].

(** The invariant while the edges of [current] are relaxed. *)
Definition relax_inv (current : string) (previous : dict string)
  (unvisited : str_set) (vs : list string) : Prop :=
  spf_inv previous unvisited vs
  /\ ~ In current unvisited
  /\ (In current vs \/ dict_get current previous = None).

(** All predecessor walks over [previous] end within the fuel. *)
Definition walks_end (previous : dict string) : Prop :=
  forall n, exists path,
    SPF.walk_back (SPF.walk_fuel previous) previous n [] = Some path.

(** Invariant of the shortest-path loop on [distances]: a vertex with a
    distance is the source or has a predecessor, and predecessors have a
    distance. *)
Definition dist_inv (self_id : string) (distances : dict SPF.distance)
  (previous : dict string) : Prop :=
  (forall k, dict_mem k distances = true ->
             k = self_id \/ dict_mem k previous = true)
  /\ (forall n p, dict_get n previous = Some p ->
                  dict_mem p distances = true).

(* ------------------------------------------------------------------ *)
(** * Proofs *)

(** ** Dictionary lemmas *)

Section DictLemmas.
Context {V : Type}.
Implicit Types (d : dict V) (k : string) (v : V).

Lemma dict_get_set_eq k v d : dict_get k (dict_set k v d) = Some v.
Proof.
  induction d as [|[k' v'] t IH]; simpl.
  - now rewrite String.eqb_refl.
  - destruct (String.eqb k k') eqn:E; simpl.
    + now rewrite String.eqb_refl.
    + now rewrite E.
Qed.

Lemma dict_get_set_neq k k' v d :
  k <> k' -> dict_get k' (dict_set k v d) = dict_get k' d.
Proof.
  intros Hne. induction d as [|[k0 v0] t IH]; simpl.
  - destruct (String.eqb k' k) eqn:E; [|reflexivity].
    apply String.eqb_eq in E. congruence.
  - destruct (String.eqb k k0) eqn:E; simpl.
    + apply String.eqb_eq in E. subst k0.
      destruct (String.eqb k' k) eqn:E'; [|reflexivity].
      apply String.eqb_eq in E'. congruence.
    + now rewrite IH.
Qed.

Lemma dict_mem_set_eq k v d : dict_mem k (dict_set k v d) = true.
Proof. unfold dict_mem. now rewrite dict_get_set_eq. Qed.

Lemma dict_mem_set_neq k k' v d :
  k <> k' -> dict_mem k' (dict_set k v d) = dict_mem k' d.
Proof. intros H. unfold dict_mem. now rewrite dict_get_set_neq. Qed.

Lemma dict_get_In k v d : dict_get k d = Some v -> In (k, v) d.
Proof.
  induction d as [|[k' v'] t IH]; simpl; [discriminate|].
  destruct (String.eqb k k') eqn:E.
  - apply String.eqb_eq in E. intros [= ->]. subst. now left.
  - intros H. right. auto.
Qed.

Lemma dict_get_key_In k v d : dict_get k d = Some v -> In k (dict_keys d).
Proof.
  intros H. apply dict_get_In in H.
  unfold dict_keys. change k with (fst (k, v)). now apply in_map.
Qed.

Lemma dict_get_None_not_In k d : dict_get k d = None -> ~ In k (dict_keys d).
Proof.
  induction d as [|[k' v'] t IH]; simpl; [tauto|].
  destruct (String.eqb k k') eqn:E; [discriminate|].
  apply String.eqb_neq in E. intros H [Hk|Hk]; [congruence|]. now apply IH.
Qed.

Lemma dict_In_get k v d : dict_wf d -> In (k, v) d -> dict_get k d = Some v.
Proof.
  unfold dict_wf. induction d as [|[k' v'] t IH]; simpl; [tauto|].
  intros Hnd [Heq|Hin].
  - injection Heq as -> ->. now rewrite String.eqb_refl.
  - inversion Hnd as [|? ? Hnot Hnd']; subst.
    destruct (String.eqb k k') eqn:E.
    + apply String.eqb_eq in E. subst k'. exfalso. apply Hnot.
      change k with (fst (k, v)). now apply in_map.
    + now apply IH.
Qed.

Lemma dict_mem_In k d : dict_mem k d = true <-> In k (dict_keys d).
Proof.
  unfold dict_mem. split.
  - destruct (dict_get k d) eqn:E; [|discriminate].
    intros _. eapply dict_get_key_In; eauto.
  - intros H. destruct (dict_get k d) eqn:E; [reflexivity|].
    now apply dict_get_None_not_In in E.
Qed.

(** Assigning to a present key changes neither the keys nor the size. *)
Lemma dict_set_keys_present k v d :
  dict_mem k d = true -> dict_keys (dict_set k v d) = dict_keys d.
Proof.
  unfold dict_mem. induction d as [|[k' v'] t IH]; simpl; [discriminate|].
  destruct (String.eqb k k') eqn:E; simpl.
  - apply String.eqb_eq in E. now subst.
  - intros H. now rewrite IH.
Qed.

(** Assigning to an absent key appends the binding. *)
Lemma dict_set_absent k v d :
  dict_mem k d = false -> dict_set k v d = d ++ [(k, v)].
Proof.
  unfold dict_mem. induction d as [|[k' v'] t IH]; simpl; [reflexivity|].
  destruct (String.eqb k k') eqn:E; [discriminate|].
  intros H. now rewrite IH.
Qed.

Lemma dict_set_wf k v d : dict_wf d -> dict_wf (dict_set k v d).
Proof.
  intros Hwf. destruct (dict_mem k d) eqn:E.
  - unfold dict_wf. now rewrite dict_set_keys_present.
  - rewrite dict_set_absent by assumption.
    unfold dict_wf, dict_keys in *. rewrite map_app. simpl.
      apply NoDup_rev in Hwf. rewrite <- (rev_involutive (map fst d ++ [k])).
    apply NoDup_rev. rewrite rev_app_distr. simpl. constructor; [|assumption].
    rewrite <- in_rev. intros Hin.
    assert (dict_mem k d = true) by (apply dict_mem_In; exact Hin).
    congruence.
Qed.

Lemma dict_set_length_present k v d :
  dict_mem k d = true -> length (dict_set k v d) = length d.
Proof.
  intros H. apply dict_set_keys_present with (v := v) in H.
  unfold dict_keys in H.
  rewrite <- (length_map fst (dict_set k v d)), H. apply length_map.
Qed.
End DictLemmas.

Lemma set_mem_In x s : set_mem x s = true <-> In x s.
Proof.
unfold set_mem. rewrite existsb_exists. split.
- intros [y [Hin Heq]]. apply String.eqb_eq in Heq. now subst.
- intros H. exists x. split; [assumption|apply String.eqb_refl].
Qed.

Lemma set_discard_In x y s : In y (set_discard x s) <-> In y s /\ x <> y.
Proof.
unfold set_discard. rewrite filter_In, negb_true_iff, String.eqb_neq. tauto.
Qed.

(* ------------------------------------------------------------------ *)
(** ** Acceptance rule *)

Module OSPFAcceptance.
Import OSPF.

Lemma ospf_receive_stores r lsa from_router :
  (forall stored,
      dict_get (lsa_router_id lsa) (lsdb r) = Some stored ->
      (lsa_sequence stored < lsa_sequence lsa)%Z) ->
  receive_lsa r lsa from_router
  = (with_lsdb r (dict_set (lsa_router_id lsa) lsa (lsdb r)),
     _flood_lsa (with_lsdb r (dict_set (lsa_router_id lsa) lsa (lsdb r)))
       lsa from_router).
Proof.
  intros H. unfold receive_lsa, _receive_lsa.
  destruct (dict_get (lsa_router_id lsa) (lsdb r)) as [stored|]; [|reflexivity].
  specialize (H stored eq_refl). rewrite Z.gtb_ltb.
  apply Z.ltb_lt in H. now rewrite H.
Qed.

Lemma ospf_receive_discards r lsa from_router stored :
  dict_get (lsa_router_id lsa) (lsdb r) = Some stored ->
  (lsa_sequence lsa <= lsa_sequence stored)%Z ->
  receive_lsa r lsa from_router = (r, []).
Proof.
  intros Hget Hle. unfold receive_lsa, _receive_lsa. rewrite Hget.
  rewrite Z.gtb_ltb. apply Z.ltb_ge in Hle. now rewrite Hle.
Qed.

(** After a call, the record's origin is stored with a sequence that is
    not below the record's. *)
Lemma ospf_receive_bound r lsa from_router :
  exists stored,
    dict_get (lsa_router_id lsa) (lsdb (fst (receive_lsa r lsa from_router)))
    = Some stored
    /\ (lsa_sequence lsa <= lsa_sequence stored)%Z.
Proof.
  unfold receive_lsa, _receive_lsa.
  destruct (dict_get (lsa_router_id lsa) (lsdb r)) as [stored|] eqn:Hget.
  - rewrite Z.gtb_ltb.
    destruct (Z.ltb_spec (lsa_sequence stored) (lsa_sequence lsa)); simpl.
    + exists lsa. rewrite dict_get_set_eq. split; [reflexivity|lia].
    + exists stored. split; [assumption|lia].
  - simpl. exists lsa. rewrite dict_get_set_eq. split; [reflexivity|lia].
Qed.

Lemma ospf_receive_duplicate r lsa from_router from_router' :
  receive_lsa (fst (receive_lsa r lsa from_router)) lsa from_router'
  = (fst (receive_lsa r lsa from_router), []).
Proof.
  destruct (ospf_receive_bound r lsa from_router) as [stored [Hget Hle]].
  eapply ospf_receive_discards; eassumption.
Qed.

(** Records of other origins are never touched. *)
Lemma ospf_receive_other r lsa from_router origin :
  origin <> lsa_router_id lsa ->
  dict_get origin (lsdb (fst (receive_lsa r lsa from_router)))
  = dict_get origin (lsdb r).
Proof.
  intros Hne. unfold receive_lsa, _receive_lsa.
  destruct (dict_get (lsa_router_id lsa) (lsdb r)) as [stored|].
  - destruct (Z.gtb _ _); simpl; [|reflexivity].
    apply dict_get_set_neq. congruence.
  - simpl. apply dict_get_set_neq. congruence.
Qed.

(** Only the LSDB of the receiving router can change. *)
Lemma ospf_receive_frame r lsa from_router :
  let r' := fst (receive_lsa r lsa from_router) in
  router_id r' = router_id r /\ neighbors r' = neighbors r
  /\ interfaces r' = interfaces r /\ routing_table r' = routing_table r.
Proof.
  unfold receive_lsa, _receive_lsa.
  destruct (dict_get (lsa_router_id lsa) (lsdb r)) as [stored|].
  - destruct (Z.gtb _ _); simpl; auto.
  - simpl; auto.
Qed.

End OSPFAcceptance.

Module ISISAcceptance.
Import ISIS.

Lemma isis_receive_stores r lsp from_router :
  (forall stored,
      dict_get (lsp_system_id lsp) (lsdb r) = Some stored ->
      (lsp_sequence stored < lsp_sequence lsp)%Z) ->
  receive_lsp r lsp from_router
  = (with_lsdb r (dict_set (lsp_system_id lsp) lsp (lsdb r)),
     _flood_lsp (with_lsdb r (dict_set (lsp_system_id lsp) lsp (lsdb r)))
       lsp from_router).
Proof.
  intros H. unfold receive_lsp, _receive_lsp.
  destruct (dict_get (lsp_system_id lsp) (lsdb r)) as [stored|]; [|reflexivity].
  specialize (H stored eq_refl). rewrite Z.gtb_ltb.
  apply Z.ltb_lt in H. now rewrite H.
Qed.

Lemma isis_receive_discards r lsp from_router stored :
  dict_get (lsp_system_id lsp) (lsdb r) = Some stored ->
  (lsp_sequence lsp <= lsp_sequence stored)%Z ->
  receive_lsp r lsp from_router = (r, []).
Proof.
  intros Hget Hle. unfold receive_lsp, _receive_lsp. rewrite Hget.
  rewrite Z.gtb_ltb. apply Z.ltb_ge in Hle. now rewrite Hle.
Qed.

Lemma isis_receive_bound r lsp from_router :
  exists stored,
    dict_get (lsp_system_id lsp) (lsdb (fst (receive_lsp r lsp from_router)))
    = Some stored
    /\ (lsp_sequence lsp <= lsp_sequence stored)%Z.
Proof.
  unfold receive_lsp, _receive_lsp.
  destruct (dict_get (lsp_system_id lsp) (lsdb r)) as [stored|] eqn:Hget.
  - rewrite Z.gtb_ltb.
    destruct (Z.ltb_spec (lsp_sequence stored) (lsp_sequence lsp)); simpl.
    + exists lsp. rewrite dict_get_set_eq. split; [reflexivity|lia].
    + exists stored. split; [assumption|lia].
  - simpl. exists lsp. rewrite dict_get_set_eq. split; [reflexivity|lia].
Qed.

Lemma isis_receive_duplicate r lsp from_router from_router' :
  receive_lsp (fst (receive_lsp r lsp from_router)) lsp from_router'
  = (fst (receive_lsp r lsp from_router), []).
Proof.
  destruct (isis_receive_bound r lsp from_router) as [stored [Hget Hle]].
  eapply isis_receive_discards; eassumption.
Qed.

Lemma isis_receive_other r lsp from_router origin :
  origin <> lsp_system_id lsp ->
  dict_get origin (lsdb (fst (receive_lsp r lsp from_router)))
  = dict_get origin (lsdb r).
Proof.
  intros Hne. unfold receive_lsp, _receive_lsp.
  destruct (dict_get (lsp_system_id lsp) (lsdb r)) as [stored|].
  - destruct (Z.gtb _ _); simpl; [|reflexivity].
    apply dict_get_set_neq. congruence.
  - simpl. apply dict_get_set_neq. congruence.
Qed.

Lemma isis_receive_frame r lsp from_router :
  let r' := fst (receive_lsp r lsp from_router) in
  system_id r' = system_id r /\ level r' = level r
  /\ neighbors r' = neighbors r
  /\ interfaces r' = interfaces r /\ routing_table r' = routing_table r.
Proof.
  unfold receive_lsp, _receive_lsp.
  destruct (dict_get (lsp_system_id lsp) (lsdb r)) as [stored|].
  - destruct (Z.gtb _ _); simpl; auto 6.
  - simpl; auto 6.
Qed.

End ISISAcceptance.

(** C1. Acceptance rule of [receive_lsa] and [receive_lsp].  For a record
    with origin O: if O is absent from the LSDB the record is stored; if
    its sequence is strictly greater than the stored one it replaces the
    stored record; otherwise the call returns the router unchanged with
    no flooding event.  The calls are total (no error).  Delivering the
    same record a second time, from any sender, changes nothing and
    floods nothing. *)
Theorem receive_record_acceptance :
  (forall (r : OSPF.OSPFRouter) (lsa : OSPF.LSA) (from_router : string),
      let origin := OSPF.lsa_router_id lsa in
      let res := OSPF.receive_lsa r lsa from_router in
      (dict_get origin (OSPF.lsdb r) = None ->
       dict_get origin (OSPF.lsdb (fst res)) = Some lsa)
      /\ (forall stored,
             dict_get origin (OSPF.lsdb r) = Some stored ->
             (OSPF.lsa_sequence lsa > OSPF.lsa_sequence stored)%Z ->
             dict_get origin (OSPF.lsdb (fst res)) = Some lsa)
      /\ (forall stored,
             dict_get origin (OSPF.lsdb r) = Some stored ->
             ~ (OSPF.lsa_sequence lsa > OSPF.lsa_sequence stored)%Z ->
             res = (r, []))
      /\ (forall from_router',
             OSPF.receive_lsa (fst res) lsa from_router' = (fst res, [])))
  /\ (forall (r : ISIS.ISISRouter) (lsp : ISIS.LSP) (from_router : string),
         let origin := ISIS.lsp_system_id lsp in
         let res := ISIS.receive_lsp r lsp from_router in
         (dict_get origin (ISIS.lsdb r) = None ->
          dict_get origin (ISIS.lsdb (fst res)) = Some lsp)
         /\ (forall stored,
                dict_get origin (ISIS.lsdb r) = Some stored ->
                (ISIS.lsp_sequence lsp > ISIS.lsp_sequence stored)%Z ->
                dict_get origin (ISIS.lsdb (fst res)) = Some lsp)
         /\ (forall stored,
                dict_get origin (ISIS.lsdb r) = Some stored ->
                ~ (ISIS.lsp_sequence lsp > ISIS.lsp_sequence stored)%Z ->
                res = (r, []))
         /\ (forall from_router',
                ISIS.receive_lsp (fst res) lsp from_router' = (fst res, []))).
Proof.
  split.
  - intros r lsa from_router origin res. subst origin res.
    repeat split.
    + intros Habs. rewrite OSPFAcceptance.ospf_receive_stores.
      * simpl. apply dict_get_set_eq.
      * intros stored Hs. congruence.
    + intros stored Hget Hgt. rewrite OSPFAcceptance.ospf_receive_stores.
      * simpl. apply dict_get_set_eq.
      * intros s Hs. assert (s = stored) by congruence. subst. lia.
    + intros stored Hget Hle.
      eapply OSPFAcceptance.ospf_receive_discards; [eassumption|lia].
    + intros f. apply OSPFAcceptance.ospf_receive_duplicate.
  - intros r lsp from_router origin res. subst origin res.
    repeat split.
    + intros Habs. rewrite ISISAcceptance.isis_receive_stores.
      * simpl. apply dict_get_set_eq.
      * intros stored Hs. congruence.
    + intros stored Hget Hgt. rewrite ISISAcceptance.isis_receive_stores.
      * simpl. apply dict_get_set_eq.
      * intros s Hs. assert (s = stored) by congruence. subst. lia.
    + intros stored Hget Hle.
      eapply ISISAcceptance.isis_receive_discards; [eassumption|lia].
    + intros f. apply ISISAcceptance.isis_receive_duplicate.
Qed.

(** A new origin, a newer record and a stale record at a fresh OSPF
    router, and a stale record at a fresh ISIS router. *)
Lemma receive_record_acceptance_witness :
  let r := OSPF.new_router "A" "0.0.0.0" in
  let b3 := OSPF.mkLSA "B" 3 [] 0 in
  let a1 := OSPF.mkLSA "A" 1 [] 0 in
  let a0 := OSPF.mkLSA "A" 0 [] 0 in
  let i := ISIS.new_router "0001" ISIS.LEVEL_1 in
  let p0 := ISIS.mkLSP "0001" 0 [] 0 ISIS.LEVEL_2 in
  dict_get "B" (OSPF.lsdb (fst (OSPF.receive_lsa r b3 "B"))) = Some b3
  /\ dict_get "A" (OSPF.lsdb (fst (OSPF.receive_lsa r a1 "B"))) = Some a1
  /\ OSPF.receive_lsa r a0 "B" = (r, [])
  /\ ISIS.receive_lsp i p0 "0002" = (i, []).
Proof.
  intros r b3 a1 a0 i p0.
  pose proof receive_record_acceptance as [Ho Hi].
  split; [|split; [|split]].
  - apply (proj1 (Ho r b3 "B")). reflexivity.
  - apply (proj1 (proj2 (Ho r a1 "B")) (OSPF.mkLSA "A" 0 [] 0)).
    + reflexivity.
    + simpl. lia.
  - apply (proj1 (proj2 (proj2 (Ho r a0 "B"))) (OSPF.mkLSA "A" 0 [] 0)).
    + reflexivity.
    + simpl. lia.
  - apply (proj1 (proj2 (proj2 (Hi i p0 "0002")))
             (ISIS.mkLSP "0001" 0 [] 0 ISIS.LEVEL_1)).
    + reflexivity.
    + simpl. lia.
Defined.

(* ------------------------------------------------------------------ *)
(** ** More dictionary lemmas *)

Section DictUpdates.
Context {V : Type}.
Implicit Types (d : dict V) (k : string) (v : V).

Lemma dict_set_set k v v' d : dict_set k v' (dict_set k v d) = dict_set k v' d.
Proof.
  induction d as [|[k0 v0] t IH]; simpl.
  - now rewrite String.eqb_refl.
  - destruct (String.eqb k k0) eqn:E; simpl.
    + now rewrite String.eqb_refl.
    + now rewrite E, IH.
Qed.

Lemma dict_set_Forall (P : string * V -> Prop) k v d :
  Forall P d -> P (k, v) -> Forall P (dict_set k v d).
Proof.
  intros Hd Hk. induction d as [|[k0 v0] t IH]; simpl.
  - now constructor.
  - inversion Hd; subst. destruct (String.eqb k k0); constructor; auto.
Qed.

Lemma dict_set_In k v d kv :
  In kv (dict_set k v d) -> kv = (k, v) \/ In kv d.
Proof.
  induction d as [|[k0 v0] t IH]; simpl.
  - intros [H|[]]; auto.
  - destruct (String.eqb k k0); simpl; intros [H|H]; auto.
    destruct (IH H); auto.
Qed.

Lemma nth_error_dict_get i k v d :
  dict_wf d -> nth_error d i = Some (k, v) -> dict_get k d = Some v.
Proof.
  intros Hwf Hn. apply dict_In_get; [assumption|].
  eapply nth_error_In; eassumption.
Qed.

End DictUpdates.

(* ------------------------------------------------------------------ *)
(** ** The LSDB stays keyed by origin *)

Module OSPFKeyed.
Import OSPF.

Lemma ospf_keyed_set db lsa :
  ospf_lsdb_keyed db -> ospf_lsdb_keyed (dict_set (lsa_router_id lsa) lsa db).
Proof.
  intros [Hwf Hall]. split.
  - now apply dict_set_wf.
  - now apply dict_set_Forall.
Qed.

Lemma ospf_keyed_new_router rid area : ospf_lsdb_keyed (lsdb (new_router rid area)).
Proof.
  unfold new_router, _create_self_lsa. simpl. split.
  - unfold dict_wf. simpl. constructor; [tauto|constructor].
  - repeat constructor.
Qed.

Lemma ospf_keyed_create_self r :
  ospf_lsdb_keyed (lsdb r) -> ospf_lsdb_keyed (lsdb (_create_self_lsa r)).
Proof.
  intros H. unfold _create_self_lsa. simpl.
  apply (ospf_keyed_set (lsdb r)
           (mkLSA (router_id r) 0 (map self_link (interfaces r)) 0) H).
Qed.

Lemma ospf_keyed_add_interface r interface ip mask cost :
  ospf_lsdb_keyed (lsdb r) ->
  ospf_lsdb_keyed (lsdb (add_interface r interface ip mask cost)).
Proof. intros H. unfold add_interface. now apply ospf_keyed_create_self. Qed.

Lemma ospf_keyed_receive r lsa from_router :
  ospf_lsdb_keyed (lsdb r) ->
  ospf_lsdb_keyed (lsdb (fst (receive_lsa r lsa from_router))).
Proof.
  intros H. unfold receive_lsa, _receive_lsa.
  destruct (dict_get (lsa_router_id lsa) (lsdb r)) as [stored|].
  - destruct (Z.gtb _ _); simpl; [now apply ospf_keyed_set|assumption].
  - simpl. now apply ospf_keyed_set.
Qed.

(** Re-receiving one's own database is a sequence of duplicates. *)
Lemma ospf_send_lsas_from_noop n i r neighbor_id :
  ospf_lsdb_keyed (lsdb r) ->
  _send_lsas_from n i r neighbor_id = Some (r, []).
Proof.
  intros [Hwf Hall]. revert i. induction n as [|n IH]; intros i; simpl.
  - reflexivity.
  - destruct (nth_error (lsdb r) i) as [[k lsa]|] eqn:Hn; [|reflexivity].
    assert (Hid : lsa_router_id lsa = k).
    { apply nth_error_In in Hn. rewrite Forall_forall in Hall.
      apply (Hall _ Hn). }
    assert (Hget : dict_get (lsa_router_id lsa) (lsdb r) = Some lsa).
    { rewrite Hid. eapply nth_error_dict_get; eassumption. }
    pose proof (OSPFAcceptance.ospf_receive_discards r lsa neighbor_id lsa
                  Hget (Z.le_refl _)) as Hrec.
    unfold receive_lsa in Hrec. rewrite Hrec.
    rewrite Nat.eqb_refl, IH. reflexivity.
Qed.

Lemma ospf_send_lsas_noop r neighbor_id :
  ospf_lsdb_keyed (lsdb r) -> _send_lsas r neighbor_id = Some (r, []).
Proof. intros H. now apply ospf_send_lsas_from_noop. Qed.

Lemma ospf_set_state_result r nbs neighbor_id st info :
  dict_get neighbor_id nbs = Some info ->
  set_state (with_neighbors r nbs) neighbor_id st
  = Some (with_neighbors r
            (dict_set neighbor_id
               (mkNeighbor st (nb_last_hello info) (nb_interface info)) nbs)).
Proof. intros H. unfold set_state. simpl. rewrite H. reflexivity. Qed.

(** From [TWO_WAY] the adjacency runs through to [FULL]; nothing else
    changes. *)
Lemma ospf_exchange_result r nbs neighbor_id info :
  ospf_lsdb_keyed (lsdb r) ->
  dict_get neighbor_id nbs = Some info ->
  nb_state info = TWO_WAY ->
  _exchange_lsas (with_neighbors r nbs) neighbor_id
  = Some (with_neighbors r
            (dict_set neighbor_id
               (mkNeighbor FULL (nb_last_hello info) (nb_interface info))
               nbs),
          []).
Proof.
  intros Hk Hget Hst. unfold _exchange_lsas.
  cbn [neighbors with_neighbors]. rewrite Hget. cbn [bind]. rewrite Hst.
  cbn [state_eqb].
  rewrite (ospf_set_state_result r nbs neighbor_id EXSTART info Hget).
  cbn [bind]. rewrite ospf_send_lsas_noop by exact Hk. cbn [bind fst snd].
  erewrite ospf_set_state_result by apply dict_get_set_eq.
  cbn [bind nb_last_hello nb_interface]. rewrite dict_set_set.
  erewrite ospf_set_state_result by apply dict_get_set_eq.
  cbn [bind nb_last_hello nb_interface]. rewrite dict_set_set.
  reflexivity.
Qed.

Lemma ospf_receive_hello_result r neighbor_id interface now :
  ospf_lsdb_keyed (lsdb r) ->
  receive_hello r neighbor_id interface now
  = Some (with_neighbors r
            (dict_set neighbor_id (ospf_hello_entry r neighbor_id interface now)
               (neighbors r)),
          []).
Proof.
  intros Hk. unfold receive_hello, ospf_hello_entry.
  destruct (dict_get neighbor_id (neighbors r)) as [info|] eqn:Hget.
  - cbn [neighbors with_neighbors]. rewrite dict_get_set_eq.
    cbn [bind nb_state].
    destruct (state_eqb (nb_state info) INIT) eqn:Hst; [|reflexivity].
    erewrite ospf_set_state_result by apply dict_get_set_eq.
    cbn [bind nb_last_hello nb_interface]. rewrite dict_set_set.
    erewrite ospf_exchange_result;
      [|exact Hk|apply dict_get_set_eq|reflexivity].
    cbn [nb_last_hello nb_interface]. rewrite dict_set_set. reflexivity.
  - cbn [neighbors with_neighbors]. rewrite dict_get_set_eq.
    cbn [bind nb_state state_eqb].
    erewrite ospf_set_state_result by apply dict_get_set_eq.
    cbn [bind nb_last_hello nb_interface]. rewrite dict_set_set.
    erewrite ospf_exchange_result;
      [|exact Hk|apply dict_get_set_eq|reflexivity].
    cbn [nb_last_hello nb_interface]. rewrite dict_set_set. reflexivity.
Qed.

Lemma ospf_keyed_receive_hello r neighbor_id interface now res :
  ospf_lsdb_keyed (lsdb r) ->
  receive_hello r neighbor_id interface now = Some res ->
  ospf_lsdb_keyed (lsdb (fst res)).
Proof.
  intros Hk H. rewrite ospf_receive_hello_result in H by exact Hk.
  injection H as <-. exact Hk.
Qed.

(** The link [connect_routers] appends keeps the record under its id. *)
Lemma ospf_keyed_append_self_link link r r' :
  ospf_lsdb_keyed (lsdb r) ->
  OSPFNet.append_self_link link r = Some r' ->
  ospf_lsdb_keyed (lsdb r').
Proof.
  intros [Hwf Hall]. unfold OSPFNet.append_self_link.
  destruct (dict_get (router_id r) (lsdb r)) as [lsa|] eqn:Hget;
    cbn [bind]; [|discriminate].
  intros [= <-]. simpl. split.
  - now apply dict_set_wf.
  - apply dict_set_Forall; [assumption|]. simpl.
    apply dict_get_In in Hget. rewrite Forall_forall in Hall.
    apply (Hall _ Hget).
Qed.

End OSPFKeyed.

Module ISISKeyed.
Import ISIS.

Lemma isis_state_eqb_eq a b : state_eqb a b = true <-> a = b.
Proof. destruct a, b; simpl; split; intros H; congruence. Qed.

Lemma isis_keyed_set db lsp :
  isis_lsdb_keyed db -> isis_lsdb_keyed (dict_set (lsp_system_id lsp) lsp db).
Proof.
  intros [Hwf Hall]. split.
  - now apply dict_set_wf.
  - now apply dict_set_Forall.
Qed.

Lemma isis_keyed_new_router sid lvl : isis_lsdb_keyed (lsdb (new_router sid lvl)).
Proof.
  unfold new_router, _create_self_lsp. simpl. split.
  - unfold dict_wf. simpl. constructor; [tauto|constructor].
  - repeat constructor.
Qed.

Lemma isis_keyed_create_self r :
  isis_lsdb_keyed (lsdb r) -> isis_lsdb_keyed (lsdb (_create_self_lsp r)).
Proof.
  intros H. unfold _create_self_lsp. simpl.
  apply (isis_keyed_set (lsdb r)
           (mkLSP (system_id r) 0 (map self_link (interfaces r)) 0 (level r))
           H).
Qed.

Lemma isis_keyed_add_interface r interface ip mask cost :
  isis_lsdb_keyed (lsdb r) ->
  isis_lsdb_keyed (lsdb (add_interface r interface ip mask cost)).
Proof. intros H. unfold add_interface. now apply isis_keyed_create_self. Qed.

Lemma isis_keyed_receive r lsp from_router :
  isis_lsdb_keyed (lsdb r) ->
  isis_lsdb_keyed (lsdb (fst (receive_lsp r lsp from_router))).
Proof.
  intros H. unfold receive_lsp, _receive_lsp.
  destruct (dict_get (lsp_system_id lsp) (lsdb r)) as [stored|].
  - destruct (Z.gtb _ _); simpl; [now apply isis_keyed_set|assumption].
  - simpl. now apply isis_keyed_set.
Qed.

Lemma isis_send_lsps_from_noop n i r neighbor_id :
  isis_lsdb_keyed (lsdb r) ->
  _send_lsps_from n i r neighbor_id = Some (r, []).
Proof.
  intros [Hwf Hall]. revert i. induction n as [|n IH]; intros i; simpl.
  - reflexivity.
  - destruct (nth_error (lsdb r) i) as [[k lsp]|] eqn:Hn; [|reflexivity].
    assert (Hid : lsp_system_id lsp = k).
    { apply nth_error_In in Hn. rewrite Forall_forall in Hall.
      apply (Hall _ Hn). }
    assert (Hget : dict_get (lsp_system_id lsp) (lsdb r) = Some lsp).
    { rewrite Hid. eapply nth_error_dict_get; eassumption. }
    pose proof (ISISAcceptance.isis_receive_discards r lsp neighbor_id lsp
                  Hget (Z.le_refl _)) as Hrec.
    unfold receive_lsp in Hrec. rewrite Hrec.
    rewrite Nat.eqb_refl, IH. reflexivity.
Qed.

Lemma isis_send_lsps_noop r neighbor_id :
  isis_lsdb_keyed (lsdb r) -> _send_lsps r neighbor_id = Some (r, []).
Proof. intros H. now apply isis_send_lsps_from_noop. Qed.

Lemma isis_set_state_result r nbs neighbor_id st info :
  dict_get neighbor_id nbs = Some info ->
  set_state (with_neighbors r nbs) neighbor_id st
  = Some (with_neighbors r
            (dict_set neighbor_id
               (mkNeighbor st (nb_last_hello info) (nb_interface info)
                  (nb_level info))
               nbs)).
Proof. intros H. unfold set_state. simpl. rewrite H. reflexivity. Qed.

Lemma isis_receive_hello_result r neighbor_id interface neighbor_level now :
  isis_lsdb_keyed (lsdb r) ->
  receive_hello r neighbor_id interface neighbor_level now
  = Some (with_neighbors r
            (dict_set neighbor_id
               (isis_hello_entry r neighbor_id interface neighbor_level now)
               (neighbors r)),
          []).
Proof.
  intros Hk. unfold receive_hello, isis_hello_entry.
  destruct (dict_get neighbor_id (neighbors r)) as [info|] eqn:Hget.
  - cbn [neighbors with_neighbors level]. rewrite dict_get_set_eq.
    cbn [bind nb_state].
    destruct (state_eqb (nb_state info) INIT) eqn:Hst; [|reflexivity].
    destruct (_levels_compatible (level r) neighbor_level).
    + erewrite isis_set_state_result by apply dict_get_set_eq.
      cbn [bind nb_last_hello nb_interface nb_level]. rewrite dict_set_set.
      unfold _exchange_lsps.
      rewrite isis_send_lsps_noop by exact Hk. reflexivity.
    + apply isis_state_eqb_eq in Hst. rewrite Hst. reflexivity.
  - cbn [neighbors with_neighbors level]. rewrite dict_get_set_eq.
    cbn [bind nb_state state_eqb].
    destruct (_levels_compatible (level r) neighbor_level).
    + erewrite isis_set_state_result by apply dict_get_set_eq.
      cbn [bind nb_last_hello nb_interface nb_level]. rewrite dict_set_set.
      unfold _exchange_lsps.
      rewrite isis_send_lsps_noop by exact Hk. reflexivity.
    + reflexivity.
Qed.

Lemma isis_keyed_receive_hello r neighbor_id interface neighbor_level now res :
  isis_lsdb_keyed (lsdb r) ->
  receive_hello r neighbor_id interface neighbor_level now = Some res ->
  isis_lsdb_keyed (lsdb (fst res)).
Proof.
  intros Hk H. rewrite isis_receive_hello_result in H by exact Hk.
  injection H as <-. exact Hk.
Qed.

End ISISKeyed.

(* ------------------------------------------------------------------ *)
(** ** Calls on one router of a network *)

Module NetFacts.
Import OSPF OSPFNet.

(** A call on the router stored under [rid] leaves every other router of
    the network as it was. *)
Lemma on_router_others rid f net net' other :
  on_router rid f net = Some net' ->
  other <> rid ->
  dict_get other (routers net') = dict_get other (routers net).
Proof.
  unfold on_router. intros H Hne.
  destruct (dict_get rid (routers net)) as [r|]; [|discriminate].
  cbn [bind] in H. destruct (f r) as [r'|]; [|discriminate].
  cbn [bind] in H. injection H as <-. simpl.
  apply dict_get_set_neq. congruence.
Qed.

Lemma on_router_self rid f net net' :
  on_router rid f net = Some net' ->
  exists r r', dict_get rid (routers net) = Some r /\ f r = Some r'
               /\ dict_get rid (routers net') = Some r'.
Proof.
  unfold on_router. intros H.
  destruct (dict_get rid (routers net)) as [r|]; [|discriminate].
  cbn [bind] in H. destruct (f r) as [r'|] eqn:Hf; [|discriminate].
  cbn [bind] in H. injection H as <-. simpl.
  exists r, r'. repeat split; auto. apply dict_get_set_eq.
Qed.

End NetFacts.

(* ------------------------------------------------------------------ *)
(** ** Exchange on reaching the terminal state *)

(** C2, as stated, fails.  Router A hears B for the first time: B's
    adjacency goes to FULL within the call and A holds its own record, yet
    B's LSDB has not gained origin A. *)
Lemma exchange_reaches_peer_counterexample :
  exists net' a b,
    ospf_hello_at "A" "B" "eth0" 0%Z two_routers = Some net'
    /\ dict_get "A" (OSPFNet.routers net') = Some a
    /\ dict_get "B" (OSPFNet.routers net') = Some b
    /\ ospf_neighbor_state "B" a = Some OSPF.FULL
    /\ dict_mem "A" (OSPF.lsdb a) = true
    /\ dict_mem "A" (OSPF.lsdb b) = false.
Proof.
  eexists. eexists. eexists.
  split; [vm_compute; reflexivity|].
  split; [vm_compute; reflexivity|].
  split; [vm_compute; reflexivity|].
  repeat split.
Qed.

(** C2, amended.  In both variants the exchange triggered when an
    adjacency reaches the terminal state hands every record of the local
    LSDB back to the local router, with the peer as sender.  On an LSDB
    keyed by origin each of them is a duplicate: the loop returns the
    router unchanged, the hello changes only the Neighbor Table entry of
    the peer (an INIT or unknown peer ends FULL, or UP when the levels are
    compatible), no flooding event occurs, and no other router of the
    network is touched. *)
Theorem adjacency_exchange_is_local :
  (forall (r : OSPF.OSPFRouter) (neighbor_id interface : string)
          (now : timestamp),
      ospf_lsdb_keyed (OSPF.lsdb r) ->
      OSPF._send_lsas r neighbor_id = Some (r, [])
      /\ OSPF.receive_hello r neighbor_id interface now
         = Some (OSPF.with_neighbors r
                   (dict_set neighbor_id
                      (ospf_hello_entry r neighbor_id interface now)
                      (OSPF.neighbors r)),
                 [])
      /\ (ospf_neighbor_state neighbor_id r = None
          \/ ospf_neighbor_state neighbor_id r = Some OSPF.INIT ->
          OSPF.nb_state (ospf_hello_entry r neighbor_id interface now)
          = OSPF.FULL))
  /\ (forall (r : ISIS.ISISRouter) (neighbor_id interface : string)
             (neighbor_level : ISIS.ISISLevel) (now : timestamp),
         isis_lsdb_keyed (ISIS.lsdb r) ->
         ISIS._send_lsps r neighbor_id = Some (r, [])
         /\ ISIS.receive_hello r neighbor_id interface neighbor_level now
            = Some (ISIS.with_neighbors r
                      (dict_set neighbor_id
                         (isis_hello_entry r neighbor_id interface
                            neighbor_level now)
                         (ISIS.neighbors r)),
                    [])
         /\ (isis_neighbor_state neighbor_id r = None
             \/ isis_neighbor_state neighbor_id r = Some ISIS.INIT ->
             ISIS._levels_compatible (ISIS.level r) neighbor_level = true ->
             ISIS.nb_state
               (isis_hello_entry r neighbor_id interface neighbor_level now)
             = ISIS.UP))
  /\ (forall (net net' : OSPFNet.OSPFNetwork)
             (local peer interface : string) (now : timestamp),
         ospf_hello_at local peer interface now net = Some net' ->
         forall other,
           other <> local ->
           dict_get other (OSPFNet.routers net')
           = dict_get other (OSPFNet.routers net)).
Proof.
  split; [|split].
  - intros r nid iface now Hk.
    split; [now apply OSPFKeyed.ospf_send_lsas_noop|].
    split; [now apply OSPFKeyed.ospf_receive_hello_result|].
    unfold ospf_neighbor_state, ospf_hello_entry.
    destruct (dict_get nid (OSPF.neighbors r)) as [info|]; simpl.
    + intros [H|H]; [discriminate|]. injection H as ->. reflexivity.
    + reflexivity.
  - intros r nid iface lvl now Hk.
    split; [now apply ISISKeyed.isis_send_lsps_noop|].
    split; [now apply ISISKeyed.isis_receive_hello_result|].
    unfold isis_neighbor_state, isis_hello_entry.
    destruct (dict_get nid (ISIS.neighbors r)) as [info|]; simpl.
    + intros [H|H] Hc; [discriminate|]. injection H as ->.
      rewrite Hc. reflexivity.
    + intros _ Hc. rewrite Hc. reflexivity.
  - intros net net' local peer iface now H other Hne.
    eapply NetFacts.on_router_others; eassumption.
Qed.

(** Fresh routers: the hello brings the peer to the terminal state, and
    the LSDB of the caller is what it was. *)
Lemma adjacency_exchange_is_local_witness :
  let r := OSPF.new_router "A" "0.0.0.0" in
  let i := ISIS.new_router "0001" ISIS.LEVEL_1 in
  (exists r',
      OSPF.receive_hello r "B" "eth0" 0%Z = Some (r', [])
      /\ OSPF.lsdb r' = OSPF.lsdb r
      /\ ospf_neighbor_state "B" r' = Some OSPF.FULL)
  /\ (exists i',
         ISIS.receive_hello i "0002" "eth0" ISIS.LEVEL_1 0%Z = Some (i', [])
         /\ ISIS.lsdb i' = ISIS.lsdb i
         /\ isis_neighbor_state "0002" i' = Some ISIS.UP).
Proof.
  intros r i.
  pose proof adjacency_exchange_is_local as [Ho [Hi _]].
  split.
  - assert (Hk : ospf_lsdb_keyed (OSPF.lsdb r)).
    { split; [constructor; [simpl; tauto|constructor]|repeat constructor]. }
    destruct (Ho r "B" "eth0" 0%Z Hk) as [_ [H1 _]].
    eexists. split; [exact H1|]. split; reflexivity.
  - assert (Hk : isis_lsdb_keyed (ISIS.lsdb i)).
    { split; [constructor; [simpl; tauto|constructor]|repeat constructor]. }
    destruct (Hi i "0002" "eth0" ISIS.LEVEL_1 0%Z Hk) as [_ [H1 _]].
    eexists. split; [exact H1|]. split; reflexivity.
Defined.

(* ------------------------------------------------------------------ *)
(** ** Flooding *)

Lemma flat_map_guard {A B : Type} (p : A -> bool) (f : A -> B) (l : list A) :
  flat_map (fun x => if p x then [f x] else []) l = map f (filter p l).
Proof.
  induction l as [|x t IH]; simpl; [reflexivity|].
  destruct (p x); simpl; now rewrite IH.
Qed.

Lemma ospf_state_eqb_eq a b : OSPF.state_eqb a b = true <-> a = b.
Proof. destruct a, b; simpl; split; intros H; congruence. Qed.

(** The neighbors for which [_flood_lsa] reaches its [pass]. *)
Lemma ospf_flood_trace r lsa except_router :
  OSPF._flood_lsa r lsa except_router
  = map (fun item => OSPF.FloodPass (fst item) lsa)
      (filter (OSPF.flood_guard except_router) (OSPF.neighbors r)).
Proof. unfold OSPF._flood_lsa. apply flat_map_guard. Qed.

Lemma ospf_flood_targets r lsa except_router neighbor_id :
  In (OSPF.FloodPass neighbor_id lsa) (OSPF._flood_lsa r lsa except_router)
  <-> neighbor_id <> except_router
      /\ exists info, In (neighbor_id, info) (OSPF.neighbors r)
                      /\ OSPF.nb_state info = OSPF.FULL.
Proof.
  rewrite ospf_flood_trace, in_map_iff. split.
  - intros [[n info] [Heq Hin]]. injection Heq as ->.
    apply filter_In in Hin. destruct Hin as [Hin Hg].
    unfold OSPF.flood_guard in Hg. simpl in Hg.
    apply andb_true_iff in Hg. destruct Hg as [Hne Hst].
    apply negb_true_iff, String.eqb_neq in Hne.
    apply ospf_state_eqb_eq in Hst. split; [assumption|]. now exists info.
  - intros [Hne [info [Hin Hst]]]. exists (neighbor_id, info).
    split; [reflexivity|]. apply filter_In. split; [assumption|].
    unfold OSPF.flood_guard. simpl. rewrite Hst.
    apply String.eqb_neq in Hne. now rewrite Hne.
Qed.

Lemma isis_flood_trace r lsp except_router :
  ISIS._flood_lsp r lsp except_router
  = map (fun item => ISIS.FloodPass (fst item) lsp)
      (filter (ISIS.flood_guard except_router) (ISIS.neighbors r)).
Proof. unfold ISIS._flood_lsp. apply flat_map_guard. Qed.

Lemma isis_flood_targets r lsp except_router neighbor_id :
  In (ISIS.FloodPass neighbor_id lsp) (ISIS._flood_lsp r lsp except_router)
  <-> neighbor_id <> except_router
      /\ exists info, In (neighbor_id, info) (ISIS.neighbors r)
                      /\ ISIS.nb_state info = ISIS.UP.
Proof.
  rewrite isis_flood_trace, in_map_iff. split.
  - intros [[n info] [Heq Hin]]. injection Heq as ->.
    apply filter_In in Hin. destruct Hin as [Hin Hg].
    unfold ISIS.flood_guard in Hg. simpl in Hg.
    apply andb_true_iff in Hg. destruct Hg as [Hne Hst].
    apply negb_true_iff, String.eqb_neq in Hne.
    apply ISISKeyed.isis_state_eqb_eq in Hst. split; [assumption|].
    now exists info.
  - intros [Hne [info [Hin Hst]]]. exists (neighbor_id, info).
    split; [reflexivity|]. apply filter_In. split; [assumption|].
    unfold ISIS.flood_guard. simpl. rewrite Hst.
    apply String.eqb_neq in Hne. now rewrite Hne.
Qed.

(** C3, as stated, fails.  A and B are adjacent (FULL on both sides).  A
    accepts a record of the new origin X from sender C; the flooding loop
    selects B, the one neighbor that is FULL and is not the sender, yet
    the router B is exactly what it was and does not hold X. *)
Lemma flooding_reaches_neighbors_counterexample :
  exists net net' a a' b',
    pair_A_B = Some net
    /\ OSPFNet.deliver "A" record_X "C" net = Some net'
    /\ dict_get "A" (OSPFNet.routers net) = Some a
    /\ dict_get "A" (OSPFNet.routers net') = Some a'
    /\ dict_get "B" (OSPFNet.routers net') = Some b'
    /\ dict_get "X" (OSPF.lsdb a) = None
    /\ dict_get "X" (OSPF.lsdb a') = Some record_X
    /\ ospf_neighbor_state "B" a = Some OSPF.FULL
    /\ snd (OSPF.receive_lsa a record_X "C") = [OSPF.FloodPass "B" record_X]
    /\ dict_get "B" (OSPFNet.routers net) = Some b'
    /\ dict_mem "X" (OSPF.lsdb b') = false.
Proof.
  do 5 eexists.
  split; [vm_compute; reflexivity|].
  split; [vm_compute; reflexivity|].
  split; [vm_compute; reflexivity|].
  split; [vm_compute; reflexivity|].
  split; [vm_compute; reflexivity|].
  repeat split.
Qed.

(** C3, amended.  Upon acceptance of a record (new origin, or strictly
    higher sequence than stored) the flooding loop reaches its [pass]
    for exactly the neighbors other than the sender whose adjacency is in
    the terminal state, in Neighbor Table order, and sends nothing: the
    receiving router changes in its LSDB entry for the origin only, and no
    other router of the network changes. *)
Theorem flooding_is_simulated :
  (forall (r : OSPF.OSPFRouter) (lsa : OSPF.LSA) (from_router : string),
      (forall stored,
          dict_get (OSPF.lsa_router_id lsa) (OSPF.lsdb r) = Some stored ->
          (OSPF.lsa_sequence lsa > OSPF.lsa_sequence stored)%Z) ->
      let res := OSPF.receive_lsa r lsa from_router in
      fst res
      = OSPF.with_lsdb r
          (dict_set (OSPF.lsa_router_id lsa) lsa (OSPF.lsdb r))
      /\ snd res
          = map (fun item => OSPF.FloodPass (fst item) lsa)
              (filter (OSPF.flood_guard from_router) (OSPF.neighbors r))
      /\ (forall neighbor_id,
             In (OSPF.FloodPass neighbor_id lsa) (snd res)
             <-> neighbor_id <> from_router
                 /\ exists info,
                     In (neighbor_id, info) (OSPF.neighbors r)
                     /\ OSPF.nb_state info = OSPF.FULL))
  /\ (forall (r : ISIS.ISISRouter) (lsp : ISIS.LSP) (from_router : string),
         (forall stored,
             dict_get (ISIS.lsp_system_id lsp) (ISIS.lsdb r) = Some stored ->
             (ISIS.lsp_sequence lsp > ISIS.lsp_sequence stored)%Z) ->
         let res := ISIS.receive_lsp r lsp from_router in
         fst res
         = ISIS.with_lsdb r
             (dict_set (ISIS.lsp_system_id lsp) lsp (ISIS.lsdb r))
         /\ snd res
             = map (fun item => ISIS.FloodPass (fst item) lsp)
                 (filter (ISIS.flood_guard from_router) (ISIS.neighbors r))
         /\ (forall neighbor_id,
                In (ISIS.FloodPass neighbor_id lsp) (snd res)
                <-> neighbor_id <> from_router
                    /\ exists info,
                        In (neighbor_id, info) (ISIS.neighbors r)
                        /\ ISIS.nb_state info = ISIS.UP))
  /\ (forall (net net' : OSPFNet.OSPFNetwork) (rid : string)
             (lsa : OSPF.LSA) (from_router : string),
         OSPFNet.deliver rid lsa from_router net = Some net' ->
         forall other,
           other <> rid ->
           dict_get other (OSPFNet.routers net')
           = dict_get other (OSPFNet.routers net)).
Proof.
  split; [|split].
  - intros r lsa from_router Hacc res. subst res.
    rewrite OSPFAcceptance.ospf_receive_stores
      by (intros s Hs; specialize (Hacc s Hs); lia).
    cbn [fst snd]. split; [reflexivity|]. split.
    + exact (ospf_flood_trace _ _ _).
    + intros n. exact (ospf_flood_targets _ _ _ _).
  - intros r lsp from_router Hacc res. subst res.
    rewrite ISISAcceptance.isis_receive_stores
      by (intros s Hs; specialize (Hacc s Hs); lia).
    cbn [fst snd]. split; [reflexivity|]. split.
    + exact (isis_flood_trace _ _ _).
    + intros n. exact (isis_flood_targets _ _ _ _).
  - intros net net' rid lsa from_router H other Hne.
    eapply NetFacts.on_router_others; eassumption.
Qed.

(** Router A of the connected pair accepts the record of X from C: the
    loop selects B, and only the LSDB of A changes. *)
Lemma flooding_is_simulated_witness :
  let a := pair_router_A in
  dict_get "X" (OSPF.lsdb a) = None
  /\ fst (OSPF.receive_lsa a record_X "C")
      = OSPF.with_lsdb a (dict_set "X" record_X (OSPF.lsdb a))
  /\ snd (OSPF.receive_lsa a record_X "C") = [OSPF.FloodPass "B" record_X].
Proof.
  intros a.
  assert (Hnew : dict_get "X" (OSPF.lsdb a) = None) by reflexivity.
  pose proof flooding_is_simulated as [Ho _].
  destruct (Ho a record_X "C") as [H1 [H2 _]].
  - intros stored Hs. change (dict_get "X" (OSPF.lsdb a) = Some stored) in Hs.
    rewrite Hnew in Hs. discriminate.
  - split; [exact Hnew|]. split; [exact H1|]. rewrite H2. reflexivity.
Defined.

(* ------------------------------------------------------------------ *)
(** ** Shortest-path precondition *)

(** C7. With fewer than two origins in the LSDB, [calculate_spf] returns
    at once: the router, its Routing Table included, is left exactly as it
    was (the table is not emptied). *)
Theorem spf_needs_two_origins :
  (forall r : OSPF.OSPFRouter,
      length (OSPF.lsdb r) < 2 -> OSPF.calculate_spf r = Some r)
  /\ (forall r : ISIS.ISISRouter,
         length (ISIS.lsdb r) < 2 -> ISIS.calculate_spf r = Some r).
Proof.
  split; intros r H.
  - unfold OSPF.calculate_spf. apply Nat.ltb_lt in H. now rewrite H.
  - unfold ISIS.calculate_spf. apply Nat.ltb_lt in H. now rewrite H.
Qed.

(** Routers that know only themselves and carry an old route keep it. *)
Lemma spf_needs_two_origins_witness :
  let old := OSPF.mkRoute "Z/32" "Y" (SPF.Fin 7) "eth9" in
  let r := OSPF.with_routing_table (OSPF.new_router "A" "0.0.0.0")
             [("Z/32", old)] in
  let old' := ISIS.mkRoute "Z/32" "Y" (SPF.Fin 7) "eth9" ISIS.LEVEL_1 in
  let i := ISIS.with_routing_table (ISIS.new_router "0001" ISIS.LEVEL_1)
             [("Z/32", old')] in
  (option_map OSPF.routing_table (OSPF.calculate_spf r)
   = Some [("Z/32", old)])
  /\ (option_map ISIS.routing_table (ISIS.calculate_spf i)
      = Some [("Z/32", old')]).
Proof.
  intros old r old' i. split.
  - rewrite (proj1 spf_needs_two_origins r); [reflexivity|simpl; lia].
  - rewrite (proj2 spf_needs_two_origins i); [reflexivity|simpl; lia].
Defined.

(* ------------------------------------------------------------------ *)
(** ** The self record *)

(** C9, as stated, fails.  Router A, with one interface, receives from B
    a record that names A as origin and has sequence 1: it replaces the
    record A generated for itself. *)
Lemma self_record_immune_counterexample :
  let r := OSPF.add_interface (OSPF.new_router "A" "0.0.0.0")
             "eth0" "10.0.0.1" OSPF.default_mask 10%Z in
  let own := OSPF.mkLSA "A" 0
               [OSPF.mkLink "eth0" "10.0.0.1" (Some 10%Z) None] 0 in
  let foreign := OSPF.mkLSA "A" 1 [] 0 in
  OSPF.router_id r = "A"
  /\ dict_get "A" (OSPF.lsdb r) = Some own
  /\ dict_get "A" (OSPF.lsdb (fst (OSPF.receive_lsa r foreign "B")))
     = Some foreign
  /\ foreign <> own.
Proof. repeat split. discriminate. Qed.

(** C9, amended.  A received record whose origin is the local router's
    own id goes through the same acceptance rule as any other: it replaces
    the stored self record when its sequence is strictly greater and is
    discarded otherwise.  Local regeneration overwrites whatever is stored
    under the own id with a sequence-0 record built from the Interface
    Table. *)
Theorem self_record_follows_acceptance_rule :
  (forall (r : OSPF.OSPFRouter) (lsa own : OSPF.LSA) (from_router : string),
      OSPF.lsa_router_id lsa = OSPF.router_id r ->
      dict_get (OSPF.router_id r) (OSPF.lsdb r) = Some own ->
      let res := OSPF.receive_lsa r lsa from_router in
      ((OSPF.lsa_sequence lsa > OSPF.lsa_sequence own)%Z ->
       dict_get (OSPF.router_id r) (OSPF.lsdb (fst res)) = Some lsa)
      /\ ((OSPF.lsa_sequence lsa <= OSPF.lsa_sequence own)%Z ->
          res = (r, []))
      /\ dict_get (OSPF.router_id r) (OSPF.lsdb (OSPF._create_self_lsa r))
         = Some (OSPF.mkLSA (OSPF.router_id r) 0
                   (map OSPF.self_link (OSPF.interfaces r)) 0))
  /\ (forall (r : ISIS.ISISRouter) (lsp own : ISIS.LSP) (from_router : string),
         ISIS.lsp_system_id lsp = ISIS.system_id r ->
         dict_get (ISIS.system_id r) (ISIS.lsdb r) = Some own ->
         let res := ISIS.receive_lsp r lsp from_router in
         ((ISIS.lsp_sequence lsp > ISIS.lsp_sequence own)%Z ->
          dict_get (ISIS.system_id r) (ISIS.lsdb (fst res)) = Some lsp)
         /\ ((ISIS.lsp_sequence lsp <= ISIS.lsp_sequence own)%Z ->
             res = (r, []))
         /\ dict_get (ISIS.system_id r) (ISIS.lsdb (ISIS._create_self_lsp r))
            = Some (ISIS.mkLSP (ISIS.system_id r) 0
                      (map ISIS.self_link (ISIS.interfaces r)) 0
                      (ISIS.level r))).
Proof.
  split.
  - intros r lsa own from_router Hid Hown res. subst res.
    rewrite <- Hid in Hown. split; [|split].
    + intros Hgt. rewrite OSPFAcceptance.ospf_receive_stores.
      * simpl. rewrite <- Hid. apply dict_get_set_eq.
      * intros s Hs. assert (s = own) by congruence. subst. lia.
    + intros Hle. eapply OSPFAcceptance.ospf_receive_discards; eassumption.
    + unfold OSPF._create_self_lsa. simpl. apply dict_get_set_eq.
  - intros r lsp own from_router Hid Hown res. subst res.
    rewrite <- Hid in Hown. split; [|split].
    + intros Hgt. rewrite ISISAcceptance.isis_receive_stores.
      * simpl. rewrite <- Hid. apply dict_get_set_eq.
      * intros s Hs. assert (s = own) by congruence. subst. lia.
    + intros Hle. eapply ISISAcceptance.isis_receive_discards; eassumption.
    + unfold ISIS._create_self_lsp. simpl. apply dict_get_set_eq.
Qed.

(** A fresh router of either kind: a record of its own id with sequence
    1 replaces the self record, one with sequence 0 is dropped. *)
Lemma self_record_follows_acceptance_rule_witness :
  let r := OSPF.new_router "A" "0.0.0.0" in
  let i := ISIS.new_router "0001" ISIS.LEVEL_1 in
  let a1 := OSPF.mkLSA "A" 1 [] 0 in
  let p0 := ISIS.mkLSP "0001" 0 [] 0 ISIS.LEVEL_2 in
  dict_get "A" (OSPF.lsdb (fst (OSPF.receive_lsa r a1 "B"))) = Some a1
  /\ ISIS.receive_lsp i p0 "0002" = (i, []).
Proof.
  intros r i a1 p0.
  pose proof self_record_follows_acceptance_rule as [Ho Hi].
  split.
  - apply (proj1 (Ho r a1 (OSPF.mkLSA "A" 0 [] 0) "B" eq_refl eq_refl)).
    simpl. lia.
  - apply (proj1 (proj2 (Hi i p0 (ISIS.mkLSP "0001" 0 [] 0 ISIS.LEVEL_1)
                           "0002" eq_refl eq_refl))).
    simpl. lia.
Defined.

(* ------------------------------------------------------------------ *)
(** ** Regeneration of the self record *)

Section FoldSet.
Context {V W : Type} (f : V -> W).

Lemma fold_set_get_other (l : dict V) (g : dict W) (k : string) :
  ~ In k (dict_keys l) ->
  dict_get k
    (fold_left (fun g item => dict_set (fst item) (f (snd item)) g) l g)
  = dict_get k g.
Proof.
  revert g. induction l as [|[k' v'] t IH]; intros g Hnot; simpl.
  - reflexivity.
  - simpl in Hnot. rewrite IH by tauto.
    apply dict_get_set_neq. intros ->. tauto.
Qed.

Lemma fold_set_get (l : dict V) (g : dict W) (k : string) (v : V) :
  dict_wf l -> dict_get k l = Some v ->
  dict_get k
    (fold_left (fun g item => dict_set (fst item) (f (snd item)) g) l g)
  = Some (f v).
Proof.
  unfold dict_wf. revert g.
  induction l as [|[k' v'] t IH]; intros g Hwf Hget; simpl in *.
  - discriminate.
  - inversion Hwf as [|? ? Hnot Hwf']; subst.
    destruct (String.eqb k k') eqn:E.
    + apply String.eqb_eq in E. subst k'. injection Hget as ->.
      rewrite fold_set_get_other by assumption.
      apply dict_get_set_eq.
    + now apply IH.
Qed.

End FoldSet.

Lemma ospf_build_graph_get db k lsa :
  dict_wf db -> dict_get k db = Some lsa ->
  dict_get k (OSPF.build_graph db) = Some (OSPF.lsa_edges db lsa).
Proof.
  intros Hwf Hget. unfold OSPF.build_graph.
  apply (fold_set_get (OSPF.lsa_edges db) db [] k lsa Hwf Hget).
Qed.

Lemma isis_build_graph_get db k lsp :
  dict_wf db -> dict_get k db = Some lsp ->
  dict_get k (ISIS.build_graph db) = Some (ISIS.lsp_edges db lsp).
Proof.
  intros Hwf Hget. unfold ISIS.build_graph.
  apply (fold_set_get (ISIS.lsp_edges db) db [] k lsp Hwf Hget).
Qed.

(** Links without a neighbor identifier contribute no edge. *)
Lemma ospf_self_links_no_edges db ifs :
  OSPF.lsa_edges db (OSPF.mkLSA "" 0 (map OSPF.self_link ifs) 0) = [].
Proof.
  unfold OSPF.lsa_edges. simpl. induction ifs as [|x t IH]; simpl; auto.
Qed.

Lemma isis_self_links_no_edges db ifs lvl :
  ISIS.lsp_edges db (ISIS.mkLSP "" 0 (map ISIS.self_link ifs) 0 lvl) = [].
Proof.
  unfold ISIS.lsp_edges. simpl. induction ifs as [|x t IH]; simpl; auto.
Qed.

(** C10. Every [add_interface] stores the interface with an empty
    neighbor set and rebuilds the self record from scratch: sequence 0, one
    link per interface holding the interface name, its address and its
    cost and no neighbor identifier.  Whatever links the previous self
    record had (the ones [connect_routers] appended included) are gone, so
    the record contributes no edge to the graph of [calculate_spf]. *)
Theorem add_interface_resets_self_record :
  (forall (r : OSPF.OSPFRouter) (interface ip mask : string) (cost : Z),
      let r' := OSPF.add_interface r interface ip mask cost in
      let own :=
        OSPF.mkLSA (OSPF.router_id r) 0
          (map (fun item =>
                  OSPF.mkLink (fst item) (if_ip (snd item))
                    (Some (if_cost (snd item))) None)
             (OSPF.interfaces r')) 0 in
      OSPF.interfaces r'
      = dict_set interface (mkInterfaceInfo ip mask cost [])
          (OSPF.interfaces r)
      /\ dict_get (OSPF.router_id r) (OSPF.lsdb r') = Some own
      /\ OSPF.lsa_edges (OSPF.lsdb r') own = []
      /\ (dict_wf (OSPF.lsdb r) ->
          dict_get (OSPF.router_id r) (OSPF.build_graph (OSPF.lsdb r'))
          = Some []))
  /\ (forall (r : ISIS.ISISRouter) (interface ip mask : string) (cost : Z),
         let r' := ISIS.add_interface r interface ip mask cost in
         let own :=
           ISIS.mkLSP (ISIS.system_id r) 0
             (map (fun item =>
                     ISIS.mkLink (fst item) (if_ip (snd item))
                       (Some (if_cost (snd item))) None)
                (ISIS.interfaces r')) 0 (ISIS.level r) in
         ISIS.interfaces r'
         = dict_set interface (mkInterfaceInfo ip mask cost [])
             (ISIS.interfaces r)
         /\ dict_get (ISIS.system_id r) (ISIS.lsdb r') = Some own
         /\ ISIS.lsp_edges (ISIS.lsdb r') own = []
         /\ (dict_wf (ISIS.lsdb r) ->
             dict_get (ISIS.system_id r) (ISIS.build_graph (ISIS.lsdb r'))
             = Some [])).
Proof.
  split.
  - intros r interface ip mask cost r' own.
    assert (Hown : dict_get (OSPF.router_id r) (OSPF.lsdb r') = Some own).
    { subst r' own. unfold OSPF.add_interface, OSPF._create_self_lsa.
      simpl. apply dict_get_set_eq. }
    assert (Hedges : OSPF.lsa_edges (OSPF.lsdb r') own = []).
    { exact (ospf_self_links_no_edges (OSPF.lsdb r') (OSPF.interfaces r')). }
    split; [reflexivity|]. split; [exact Hown|]. split; [exact Hedges|].
    intros Hwf. rewrite <- Hedges. apply ospf_build_graph_get; [|exact Hown].
    subst r'. unfold OSPF.add_interface, OSPF._create_self_lsa. simpl.
    now apply dict_set_wf.
  - intros r interface ip mask cost r' own.
    assert (Hown : dict_get (ISIS.system_id r) (ISIS.lsdb r') = Some own).
    { subst r' own. unfold ISIS.add_interface, ISIS._create_self_lsp.
      simpl. apply dict_get_set_eq. }
    assert (Hedges : ISIS.lsp_edges (ISIS.lsdb r') own = []).
    { exact (isis_self_links_no_edges (ISIS.lsdb r') (ISIS.interfaces r')
               (ISIS.level r)). }
    split; [reflexivity|]. split; [exact Hown|]. split; [exact Hedges|].
    intros Hwf. rewrite <- Hedges. apply isis_build_graph_get; [|exact Hown].
    subst r'. unfold ISIS.add_interface, ISIS._create_self_lsp. simpl.
    now apply dict_set_wf.
Qed.

(** Router A of the connected pair, once it holds a record of B, has
    the edge to B in its graph; one more [add_interface] and its own entry
    of the graph is empty. *)
Lemma add_interface_resets_self_record_witness :
  let a := fst (OSPF.receive_lsa pair_router_A (OSPF.mkLSA "B" 0 [] 0) "B") in
  let a' := OSPF.add_interface a "eth1" "10.1.13.1" OSPF.default_mask 10%Z in
  dict_get "A" (OSPF.build_graph (OSPF.lsdb a)) = Some [("B", 10%Z)]
  /\ dict_get "A" (OSPF.build_graph (OSPF.lsdb a')) = Some [].
Proof.
  intros a a'. split; [reflexivity|].
  apply (proj1 add_interface_resets_self_record a "eth1" "10.1.13.1"
           OSPF.default_mask 10%Z).
  repeat constructor; simpl; intuition discriminate.
Defined.

(* ------------------------------------------------------------------ *)
(** ** Stored sequence numbers *)

Module OSPFSequence.
Import OSPF.

(** One [receive_lsa]: the stored sequence of the record's origin becomes
    the larger of the stored and the received one; other origins keep
    theirs. *)
Lemma ospf_stored_after_receive origin r lsa from_router :
  ospf_stored_sequence origin (fst (receive_lsa r lsa from_router))
  = if String.eqb (lsa_router_id lsa) origin then
      Some (match ospf_stored_sequence origin r with
            | Some s => Z.max s (lsa_sequence lsa)
            | None => lsa_sequence lsa
            end)
    else ospf_stored_sequence origin r.
Proof.
  unfold ospf_stored_sequence.
  destruct (String.eqb (lsa_router_id lsa) origin) eqn:E.
  - apply String.eqb_eq in E. subst origin.
    unfold receive_lsa, _receive_lsa.
    destruct (dict_get (lsa_router_id lsa) (lsdb r)) as [stored|] eqn:Hget.
    + rewrite Z.gtb_ltb.
      destruct (Z.ltb_spec (lsa_sequence stored) (lsa_sequence lsa)); simpl.
      * rewrite dict_get_set_eq. simpl. f_equal. lia.
      * rewrite Hget. simpl. f_equal. lia.
    + simpl. rewrite dict_get_set_eq. reflexivity.
  - apply String.eqb_neq in E.
    rewrite OSPFAcceptance.ospf_receive_other by congruence. reflexivity.
Qed.

Lemma ospf_stored_monotone records : forall r origin s,
  ospf_stored_sequence origin r = Some s ->
  exists s', ospf_stored_sequence origin (ospf_receive_all records r) = Some s'
             /\ (s <= s')%Z.
Proof.
  induction records as [|[lsa f] t IH]; intros r origin s Hs; simpl.
  - exists s. split; [assumption|lia].
  - unfold ospf_receive_all in *. simpl.
    pose proof (ospf_stored_after_receive origin r lsa f) as Hstep.
    rewrite Hs in Hstep.
    destruct (String.eqb (lsa_router_id lsa) origin).
    + destruct (IH _ _ _ Hstep) as [s' [H1 H2]]. exists s'. split; [exact H1|lia].
    + destruct (IH _ _ _ Hstep) as [s' [H1 H2]]. exists s'. split; [exact H1|lia].
Qed.

Lemma ospf_stored_is_max records : forall r origin s',
  ospf_stored_sequence origin (ospf_receive_all records r) = Some s' ->
  In s' (ospf_observed origin r records)
  /\ forall s, In s (ospf_observed origin r records) -> (s <= s')%Z.
Proof.
  induction records as [|[lsa f] t IH]; intros r origin s' Hs'.
  - unfold ospf_receive_all in Hs'. simpl in Hs'.
    unfold ospf_observed. rewrite Hs'. simpl. split; [now left|].
    intros s [<-|[]]. lia.
  - unfold ospf_receive_all in Hs'. simpl in Hs'.
    destruct (IH _ _ _ Hs') as [Hin Hmax]. clear IH.
    unfold ospf_observed in *.
    pose proof (ospf_stored_after_receive origin r lsa f) as Hstep.
    simpl. destruct (String.eqb (lsa_router_id lsa) origin).
    + rewrite Hstep in Hin, Hmax. simpl in *.
      destruct (ospf_stored_sequence origin r) as [s0|]; simpl in *.
      * split.
        -- destruct Hin as [Hin|Hin]; [|now right; right].
           destruct (Z.max_spec s0 (lsa_sequence lsa)) as [[_ Hm]|[_ Hm]];
             rewrite Hm in Hin; auto.
        -- intros s [<-|[<-|Hs]].
           ++ specialize (Hmax _ (or_introl eq_refl)). lia.
           ++ specialize (Hmax _ (or_introl eq_refl)). lia.
           ++ apply Hmax. now right.
      * split; [exact Hin|]. intros s Hs. now apply Hmax.
    + rewrite Hstep in Hin, Hmax. split; [exact Hin|exact Hmax].
Qed.

(** [add_interface] touches the LSDB under the own id only, and resets
    the sequence stored there. *)
Lemma ospf_add_interface_sequence r interface ip mask cost :
  ospf_stored_sequence (router_id r) (add_interface r interface ip mask cost)
  = Some 0%Z
  /\ forall origin,
      origin <> router_id r ->
      dict_get origin (lsdb (add_interface r interface ip mask cost))
      = dict_get origin (lsdb r).
Proof.
  unfold ospf_stored_sequence, add_interface, _create_self_lsa. simpl. split.
  - now rewrite dict_get_set_eq.
  - intros origin Hne. apply dict_get_set_neq. congruence.
Qed.

End OSPFSequence.

(** C5, as stated, fails.  Router A receives a record of origin A with
    sequence 5 and stores it; the next [add_interface] regenerates the self
    record with sequence 0, below the 5 observed before. *)
Lemma sequence_invariant_counterexample :
  let r0 := OSPF.new_router "A" "0.0.0.0" in
  let r1 := fst (OSPF.receive_lsa r0 (OSPF.mkLSA "A" 5 [] 0) "B") in
  let r2 := OSPF.add_interface r1 "eth0" "10.0.0.1" OSPF.default_mask 10%Z in
  ospf_stored_sequence "A" r1 = Some 5%Z
  /\ ospf_stored_sequence "A" r2 = Some 0%Z.
Proof. split; reflexivity. Qed.

(** C5, amended.  Across any run of [receive_lsa] calls an origin that is
    stored stays stored and its sequence never decreases; the sequence
    stored after the run is the maximum of those observed for the origin
    (the one stored at the start and those received).  [add_interface]
    leaves the records of all other origins alone and resets the sequence
    stored under the router's own id to 0, whatever it was. *)
Theorem stored_sequence_monotone :
  forall (r : OSPF.OSPFRouter) (records : list (OSPF.LSA * string))
         (origin : string),
    (forall s,
        ospf_stored_sequence origin r = Some s ->
        exists s',
          ospf_stored_sequence origin (ospf_receive_all records r) = Some s'
          /\ (s <= s')%Z)
    /\ (forall s',
           ospf_stored_sequence origin (ospf_receive_all records r) = Some s' ->
           In s' (ospf_observed origin r records)
           /\ forall s, In s (ospf_observed origin r records) -> (s <= s')%Z)
    /\ (forall interface ip mask cost,
           ospf_stored_sequence (OSPF.router_id r)
             (OSPF.add_interface r interface ip mask cost) = Some 0%Z
           /\ (origin <> OSPF.router_id r ->
               dict_get origin
                 (OSPF.lsdb (OSPF.add_interface r interface ip mask cost))
               = dict_get origin (OSPF.lsdb r))).
Proof.
  intros r records origin. split; [|split].
  - intros s Hs. now apply OSPFSequence.ospf_stored_monotone.
  - intros s' Hs'. now apply OSPFSequence.ospf_stored_is_max.
  - intros interface ip mask cost.
    destruct (OSPFSequence.ospf_add_interface_sequence r interface ip mask cost)
      as [H1 H2].
    split; [exact H1|]. intros Hne. now apply H2.
Qed.

(** Records of B with sequences 3, 7 and 5 arrive at a router that holds
    B with sequence 4: it ends with 7. *)
Lemma stored_sequence_monotone_witness :
  let r := fst (OSPF.receive_lsa (OSPF.new_router "A" "0.0.0.0")
                  (OSPF.mkLSA "B" 4 [] 0) "B") in
  let records := [(OSPF.mkLSA "B" 3 [] 0, "B"); (OSPF.mkLSA "B" 7 [] 0, "C");
                  (OSPF.mkLSA "B" 5 [] 0, "B")] in
  ospf_stored_sequence "B" r = Some 4%Z
  /\ (exists s', ospf_stored_sequence "B" (ospf_receive_all records r) = Some s'
                 /\ (4 <= s')%Z)
  /\ (forall s, In s (ospf_observed "B" r records) -> (s <= 7)%Z).
Proof.
  intros r records.
  destruct (stored_sequence_monotone r records "B") as [H1 [H2 _]].
  split; [reflexivity|]. split.
  - apply H1. reflexivity.
  - apply (H2 7%Z). reflexivity.
Defined.

(* ------------------------------------------------------------------ *)
(** ** Level compatibility *)

Module ISISLevels.
Import ISIS.

Lemma isis_levels_compatible_iff level1 level2 :
  _levels_compatible level1 level2 = true
  <-> level1 = LEVEL_1_2 \/ level2 = LEVEL_1_2 \/ level1 = level2.
Proof.
  destruct level1, level2; simpl; split; intros H; auto;
    try discriminate;
    destruct H as [H|[H|H]]; discriminate.
Qed.

Lemma isis_disjoint_levels level1 level2 :
  level1 <> LEVEL_1_2 -> level2 <> LEVEL_1_2 -> level2 <> level1 ->
  _levels_compatible level1 level2 = false.
Proof.
  destruct level1, level2; unfold _levels_compatible; simpl;
    intros H1 H2 H3; try reflexivity; exfalso; auto.
Qed.

(** A flooding event for a neighbor means its entry is [UP]. *)
Lemma isis_receive_event_up r lsp from_router neighbor_id lsp' :
  In (FloodPass neighbor_id lsp') (snd (receive_lsp r lsp from_router)) ->
  exists info, In (neighbor_id, info) (neighbors r) /\ nb_state info = UP.
Proof.
  unfold receive_lsp, _receive_lsp.
  assert (Hflood : forall r0,
             neighbors r0 = neighbors r ->
             In (FloodPass neighbor_id lsp') (_flood_lsp r0 lsp from_router) ->
             exists info, In (neighbor_id, info) (neighbors r)
                          /\ nb_state info = UP).
  { intros r0 Hn Hin. rewrite isis_flood_trace, in_map_iff in Hin.
    destruct Hin as [[n info] [Heq Hin]]. injection Heq as -> _.
    apply filter_In in Hin. destruct Hin as [Hin Hg].
    unfold flood_guard in Hg. apply andb_true_iff in Hg.
    destruct Hg as [_ Hst]. apply ISISKeyed.isis_state_eqb_eq in Hst.
    exists info. rewrite <- Hn. auto. }
  destruct (dict_get (lsp_system_id lsp) (lsdb r)) as [stored|].
  - destruct (Z.gtb _ _); simpl; [|tauto]. now apply Hflood.
  - simpl. now apply Hflood.
Qed.

(** What a run of calls keeps true for a peer whose hellos all carry a
    level disjoint from the local one. *)
Lemma isis_run_keeps_init peer inputs : forall r,
  isis_lsdb_keyed (lsdb r) ->
  dict_wf (neighbors r) ->
  level r <> LEVEL_1_2 ->
  (forall interface lvl now,
      In (Hello peer interface lvl now) inputs ->
      lvl <> LEVEL_1_2 /\ lvl <> level r) ->
  isis_neighbor_state peer r = None \/ isis_neighbor_state peer r = Some INIT ->
  exists r' ev,
    isis_run inputs r = Some (r', ev)
    /\ (isis_neighbor_state peer r' = None
        \/ isis_neighbor_state peer r' = Some INIT)
    /\ (isis_neighbor_state peer r = Some INIT
        \/ (exists interface lvl now, In (Hello peer interface lvl now) inputs)
        -> isis_neighbor_state peer r' = Some INIT)
    /\ (forall lsp, ~ In (FloodPass peer lsp) ev).
Proof.
  induction inputs as [|i rest IH]; intros r Hk Hwf Hlvl Hhello Hst.
  - exists r, []. simpl. repeat split; auto.
    intros [H|[? [? [? []]]]]. exact H.
  - destruct i as [nid iface lvl now|lsp from_router].
    + (* a hello *)
      simpl. rewrite (ISISKeyed.isis_receive_hello_result r nid iface lvl now Hk).
      cbn [bind fst snd].
      set (r1 := with_neighbors r
                   (dict_set nid (isis_hello_entry r nid iface lvl now)
                      (neighbors r))).
      assert (Hst1 : (nid = peer -> isis_neighbor_state peer r1 = Some INIT)
                     /\ (nid <> peer ->
                         isis_neighbor_state peer r1
                         = isis_neighbor_state peer r)).
      { split.
        - intros ->. unfold isis_neighbor_state, r1. simpl.
          rewrite dict_get_set_eq. simpl. unfold isis_hello_entry.
          destruct (Hhello iface lvl now (or_introl eq_refl)) as [H1 H2].
          rewrite (isis_disjoint_levels _ _ Hlvl H1 H2).
          unfold isis_neighbor_state in Hst.
          destruct (dict_get peer (neighbors r)) as [info|]; simpl in *.
          + destruct Hst as [Hst|Hst]; [discriminate|].
            injection Hst as ->. reflexivity.
          + reflexivity.
        - intros Hne. unfold isis_neighbor_state, r1. simpl.
          now rewrite dict_get_set_neq. }
      destruct (IH r1) as [r' [ev [Hrun [Hfin [Hkeep Hev]]]]].
      * exact Hk.
      * unfold r1. simpl. now apply dict_set_wf.
      * exact Hlvl.
      * intros i0 l0 n0 Hin. apply (Hhello i0 l0 n0). now right.
      * destruct (String.eqb_spec nid peer) as [He|Hne].
        -- right. now apply Hst1.
        -- destruct Hst1 as [_ H]. rewrite (H Hne). exact Hst.
      * exists r', ev. rewrite Hrun. cbn [bind fst snd app].
        split; [reflexivity|]. split; [exact Hfin|]. split; [|exact Hev].
        intros Hpre. apply Hkeep.
        destruct (String.eqb_spec nid peer) as [He|Hne].
        -- left. now apply Hst1.
        -- destruct Hst1 as [_ H]. rewrite (H Hne).
           destruct Hpre as [Hpre|[i0 [l0 [n0 [Hin|Hin]]]]].
           ++ now left.
           ++ injection Hin as -> _ _ _. congruence.
           ++ right. now exists i0, l0, n0.
    + (* a record *)
      simpl. cbn [bind fst snd].
      destruct (ISISAcceptance.isis_receive_frame r lsp from_router)
        as [_ [Hl [Hn _]]].
      set (r1 := fst (receive_lsp r lsp from_router)) in *.
      assert (Hsame : isis_neighbor_state peer r1 = isis_neighbor_state peer r).
      { unfold isis_neighbor_state. now rewrite Hn. }
      destruct (IH r1) as [r' [ev [Hrun [Hfin [Hkeep Hev]]]]].
      * now apply ISISKeyed.isis_keyed_receive.
      * now rewrite Hn.
      * now rewrite Hl.
      * intros i0 l0 n0 Hin. rewrite Hl. apply (Hhello i0 l0 n0). now right.
      * now rewrite Hsame.
      * exists r', (snd (receive_lsp r lsp from_router) ++ ev).
        rewrite Hrun. cbn [bind fst snd].
        split; [reflexivity|]. split; [exact Hfin|]. split.
        -- intros Hpre. apply Hkeep. rewrite Hsame.
           destruct Hpre as [Hpre|[i0 [l0 [n0 [Hin|Hin]]]]].
           ++ now left.
           ++ discriminate.
           ++ right. now exists i0, l0, n0.
        -- intros lsp' Hin. apply in_app_or in Hin.
           destruct Hin as [Hin|Hin]; [|now apply (Hev lsp')].
           apply isis_receive_event_up in Hin.
           destruct Hin as [info [Hin Hup]].
           apply (dict_In_get _ _ _ Hwf) in Hin.
           unfold isis_neighbor_state in Hst. rewrite Hin in Hst. simpl in Hst.
           rewrite Hup in Hst. destruct Hst; discriminate.
Qed.

End ISISLevels.

(** C8. In the ISIS router two levels are compatible exactly when one of
    them is LEVEL_1_2 or they are equal.  Take a router with a single
    level and a peer that is unknown or in INIT and whose hellos all carry
    the other single level.  Whatever hellos (of any peers) and records
    the router then receives, every call returns, the peer's entry is
    never UP, it is in INIT as soon as the peer has sent a hello, and no
    flooding event is ever addressed to the peer. *)
Theorem incompatible_level_stays_init :
  (forall level1 level2,
      ISIS._levels_compatible level1 level2 = true
      <-> level1 = ISIS.LEVEL_1_2 \/ level2 = ISIS.LEVEL_1_2
          \/ level1 = level2)
  /\ (forall (r : ISIS.ISISRouter) (peer : string)
             (inputs : list isis_input),
         isis_lsdb_keyed (ISIS.lsdb r) ->
         dict_wf (ISIS.neighbors r) ->
         ISIS.level r <> ISIS.LEVEL_1_2 ->
         (forall interface lvl now,
             In (Hello peer interface lvl now) inputs ->
             lvl <> ISIS.LEVEL_1_2 /\ lvl <> ISIS.level r) ->
         isis_neighbor_state peer r = None
         \/ isis_neighbor_state peer r = Some ISIS.INIT ->
         exists r' ev,
           isis_run inputs r = Some (r', ev)
           /\ isis_neighbor_state peer r' <> Some ISIS.UP
           /\ (isis_neighbor_state peer r = Some ISIS.INIT
               \/ (exists interface lvl now,
                      In (Hello peer interface lvl now) inputs) ->
               isis_neighbor_state peer r' = Some ISIS.INIT)
           /\ (forall lsp, ~ In (ISIS.FloodPass peer lsp) ev)).
Proof.
  split.
  - apply ISISLevels.isis_levels_compatible_iff.
  - intros r peer inputs Hk Hwf Hlvl Hhello Hst.
    destruct (ISISLevels.isis_run_keeps_init peer inputs r Hk Hwf Hlvl Hhello Hst)
      as [r' [ev [Hrun [Hfin [Hkeep Hev]]]]].
    exists r', ev. split; [exact Hrun|]. split; [|split; assumption].
    destruct Hfin as [H|H]; rewrite H; discriminate.
Qed.

(** A LEVEL_1 router hears a LEVEL_2 peer twice, forms an adjacency with
    a LEVEL_1 peer and accepts records in between. *)
Lemma incompatible_level_stays_init_witness :
  let r := ISIS.new_router "0001" ISIS.LEVEL_1 in
  let x := ISIS.mkLSP "0009" 1 [] 0 ISIS.LEVEL_1 in
  let inputs :=
    [Hello "0002" "eth0" ISIS.LEVEL_2 0%Z; Deliver x "0003";
     Hello "0003" "eth1" ISIS.LEVEL_1 1%Z;
     Deliver (ISIS.mkLSP "0009" 2 [] 0 ISIS.LEVEL_1) "0004";
     Hello "0002" "eth0" ISIS.LEVEL_2 2%Z] in
  exists r' ev,
    isis_run inputs r = Some (r', ev)
    /\ isis_neighbor_state "0002" r' = Some ISIS.INIT
    /\ isis_neighbor_state "0003" r' = Some ISIS.UP
    /\ (forall lsp, ~ In (ISIS.FloodPass "0002" lsp) ev).
Proof.
  intros r x inputs.
  destruct (proj2 incompatible_level_stays_init r "0002" inputs)
    as [r' [ev [Hrun [_ [Hinit Hev]]]]].
  - split; [constructor; [simpl; tauto|constructor]|repeat constructor].
  - constructor.
  - discriminate.
  - intros interface lvl now Hin. simpl in Hin.
    destruct Hin as [H|[H|[H|[H|[H|[]]]]]]; try discriminate;
      injection H as _ <- _; split; discriminate.
  - left. reflexivity.
  - exists r', ev. split; [exact Hrun|]. split.
    + apply Hinit. right. exists "eth0", ISIS.LEVEL_2, 0%Z. now left.
    + split; [|exact Hev].
      vm_compute in Hrun. injection Hrun as <- _. reflexivity.
Defined.

(* ------------------------------------------------------------------ *)
(** ** Predecessor walks and next hops *)

Lemma string_length_append (s t : string) :
  String.length (s ++ t) = String.length s + String.length t.
Proof. induction s as [|c s IH]; simpl; [reflexivity|now rewrite IH]. Qed.

Lemma string_append_cancel_r (t : string) : forall s1 s2 : string,
  (s1 ++ t)%string = (s2 ++ t)%string -> s1 = s2.
Proof.
  induction s1 as [|c s1 IH]; intros [|c' s2] H; simpl in H.
  - reflexivity.
  - apply (f_equal String.length) in H. simpl in H.
    rewrite string_length_append in H. lia.
  - apply (f_equal String.length) in H. simpl in H.
    rewrite string_length_append in H. lia.
  - injection H as -> H. f_equal. now apply IH.
Qed.

Module SPFFacts.
Import SPF.

(** A walk with an accumulator is the walk from scratch, appended. *)
Lemma walk_back_acc previous : forall fuel current acc,
  walk_back fuel previous current acc
  = option_map (app acc) (walk_back fuel previous current []).
Proof.
  induction fuel as [|fuel IH]; intros current acc; simpl.
  - reflexivity.
  - destruct (dict_get current previous) as [p|].
    + rewrite (IH p (acc ++ [current])), (IH p [current]).
      destruct (walk_back fuel previous p []) as [c|]; simpl; [|reflexivity].
      now rewrite <- app_assoc.
    + simpl. now rewrite app_nil_r.
Qed.

(** A walk from a vertex that has a predecessor starts with that vertex. *)
Lemma walk_back_head previous fuel dest path :
  dict_mem dest previous = true ->
  walk_back fuel previous dest [] = Some path ->
  exists tail, path = dest :: tail.
Proof.
  unfold dict_mem. destruct fuel as [|fuel]; simpl; [discriminate|].
  destruct (dict_get dest previous) as [p|]; [|discriminate].
  intros _ H. rewrite walk_back_acc in H.
  destruct (walk_back fuel previous p []) as [c|]; [|discriminate].
  simpl in H. injection H as <-. now exists c.
Qed.

(** For a non-empty backward path, [path[-2]] after appending the source is
    the vertex that follows the source on the reversed path, and the
    reversed path ends where the backward path started. *)
Lemma first_hop_of_path (self_id dest : string) (tail : list string) :
  exists hop rest,
    rev ((dest :: tail) ++ [self_id]) = self_id :: hop :: rest
    /\ second_to_last ((dest :: tail) ++ [self_id]) = Some hop
    /\ last (hop :: rest) hop = dest
    /\ last (dest :: tail) dest = hop.
Proof.
  destruct (rev (dest :: tail)) as [|hop rest] eqn:Hrev.
  - apply (f_equal (@length string)) in Hrev.
    rewrite length_rev in Hrev. discriminate.
  - exists hop, rest.
    assert (Hp : dest :: tail = rev rest ++ [hop]).
    { rewrite <- (rev_involutive (dest :: tail)), Hrev. reflexivity. }
    split; [|split; [|split]].
    + rewrite rev_app_distr, Hrev. reflexivity.
    + unfold second_to_last. rewrite Hp, <- app_assoc. simpl app at 2.
      rewrite !length_app, length_rev. simpl length.
      rewrite nth_error_app2 by (rewrite length_rev; lia).
      rewrite length_rev.
      replace (length rest + (1 + 1) - 2 - length rest) with 0 by lia.
      reflexivity.
    + assert (Hl : last (rev (dest :: tail)) hop = dest).
      { simpl rev. apply last_last. }
      rewrite Hrev in Hl. exact Hl.
    + rewrite Hp. apply last_last.
Qed.

(** A resolved next hop is the second vertex of the path [_get_path]
    returns, which leads from the source to the destination. *)
Lemma next_hop_on_path self_id dest previous hop :
  _find_next_hop self_id dest previous = Some (Some hop) ->
  exists rest,
    _get_path self_id dest previous = Some (self_id :: hop :: rest)
    /\ last (hop :: rest) hop = dest.
Proof.
  unfold _find_next_hop, _get_path.
  destruct (dict_mem dest previous) eqn:Hmem; cbn [negb]; [|discriminate].
  destruct (walk_back (walk_fuel previous) previous dest []) as [path0|] eqn:Hw;
    [|discriminate].
  destruct (walk_back_head _ _ _ _ Hmem Hw) as [tail ->].
  destruct (first_hop_of_path self_id dest tail) as [h [rest [H1 [H2 [H3 _]]]]].
  destruct (Nat.leb 2 (length ((dest :: tail) ++ [self_id]))); [|discriminate].
  rewrite H2. intros [= <-]. exists rest. rewrite H1. auto.
Qed.

(** [_find_next_hop] and [_get_path] stop together. *)
Lemma get_path_returns self_id dest previous out :
  _find_next_hop self_id dest previous = Some out ->
  exists path, _get_path self_id dest previous = Some path.
Proof.
  unfold _find_next_hop, _get_path.
  destruct (dict_mem dest previous) eqn:Hmem; cbn [negb].
  - destruct (walk_back (walk_fuel previous) previous dest []) as [p|];
      [eauto|discriminate].
  - intros _. unfold dict_mem in Hmem. unfold walk_fuel. simpl.
    destruct (dict_get dest previous); [discriminate|eauto].
Qed.

Lemma interface_found_serves interfaces neighbor_id iface :
  _get_interface_to_neighbor interfaces neighbor_id = Some iface ->
  exists info,
    In (iface, info) interfaces
    /\ set_mem neighbor_id (if_neighbors info) = true.
Proof.
  induction interfaces as [|[name info] t IH]; simpl; [discriminate|].
  destruct (set_mem neighbor_id (if_neighbors info)) eqn:E.
  - intros [= <-]. exists info. auto.
  - intros H. destruct (IH H) as [info' [Hin Hm]]. exists info'. auto.
Qed.

End SPFFacts.

(* ------------------------------------------------------------------ *)
(** ** Routing table construction *)

Module OSPFRoutes.
Import OSPF.

(** What an emitted route says about its destination. *)
Lemma ospf_route_for_emits r previous dest cost route :
  route_for r previous (dest, cost) = Some (Some route) ->
  dest <> router_id r
  /\ route = mkRoute (prefix_of dest) (rt_next_hop route) cost
               (rt_interface route)
  /\ _find_next_hop r dest previous = Some (Some (rt_next_hop route))
  /\ dict_mem (rt_next_hop route) (neighbors r) = true
  /\ _get_interface_to_neighbor r (rt_next_hop route)
     = Some (rt_interface route).
Proof.
  unfold route_for. cbn [fst snd].
  destruct (String.eqb_spec dest (router_id r)) as [|Hne]; [discriminate|].
  destruct (_find_next_hop r dest previous) as [[nh|]|]; cbn [bind];
    try discriminate.
  destruct (truthy nh && dict_mem nh (neighbors r)) eqn:Hg; [|discriminate].
  apply andb_true_iff in Hg. destruct Hg as [_ Hmem].
  destruct (_get_interface_to_neighbor r nh) as [iface|] eqn:Hif;
    [|discriminate].
  destruct (truthy iface); [|discriminate].
  destruct (_get_path r dest previous); cbn [bind]; [|discriminate].
  intros [= <-]. simpl. auto.
Qed.

Lemma ospf_route_fold_none r previous distances :
  fold_left (route_step r previous) distances None = None.
Proof. induction distances as [|x t IH]; simpl; auto. Qed.

(** Every entry of the finished table was emitted for some item of
    [distances], under its own prefix. *)
Lemma ospf_table_routes r previous distances : forall table0 table,
  fold_left (route_step r previous) distances (Some table0) = Some table ->
  forall prefix route,
    dict_get prefix table = Some route ->
    dict_get prefix table0 = Some route
    \/ exists item,
        In item distances
        /\ route_for r previous item = Some (Some route)
        /\ prefix = rt_prefix route.
Proof.
  induction distances as [|item t IH]; intros table0 table Hfold prefix route Hget.
  - simpl in Hfold. injection Hfold as <-. now left.
  - simpl in Hfold.
    destruct (route_for r previous item) as [[new|]|] eqn:Hrf; cbn [bind] in Hfold.
    + destruct (IH _ _ Hfold _ _ Hget) as [H0|[item' [Hin [Hr Hp]]]].
      * destruct (String.eqb_spec (rt_prefix new) prefix) as [He|Hne].
        -- subst prefix. rewrite dict_get_set_eq in H0. injection H0 as ->.
           right. exists item. simpl. auto.
        -- rewrite dict_get_set_neq in H0 by assumption. now left.
      * right. exists item'. simpl. auto.
    + destruct (IH _ _ Hfold _ _ Hget) as [H0|[item' [Hin [Hr Hp]]]].
      * now left.
      * right. exists item'. simpl. auto.
    + rewrite ospf_route_fold_none in Hfold. discriminate.
Qed.

Lemma ospf_prefix_of_inj d1 d2 : prefix_of d1 = prefix_of d2 -> d1 = d2.
Proof. unfold prefix_of. apply string_append_cancel_r. Qed.

Lemma ospf_build_routing_table_frame r distances previous r' :
  _build_routing_table r distances previous = Some r' ->
  router_id r' = router_id r /\ neighbors r' = neighbors r
  /\ lsdb r' = lsdb r /\ interfaces r' = interfaces r.
Proof.
  unfold _build_routing_table.
  destruct (fold_left _ _ _) as [t|]; cbn [bind]; [|discriminate].
  intros [= <-]. simpl. auto.
Qed.

(** Every entry of a built table is the route emitted for an item of
    [distances]. *)
Lemma ospf_built_routes r r' distances previous :
  _build_routing_table r distances previous = Some r' ->
  forall prefix route,
    dict_get prefix (routing_table r') = Some route ->
    exists dest,
      In (dest, rt_cost route) distances
      /\ prefix = prefix_of dest
      /\ route_for r previous (dest, rt_cost route) = Some (Some route).
Proof.
  unfold _build_routing_table. intros Hbuild.
  destruct (fold_left _ _ _) as [table|] eqn:Hfold; cbn [bind] in Hbuild;
    [|discriminate].
  injection Hbuild as <-. simpl. intros prefix route Hget.
  destruct (ospf_table_routes _ _ _ _ _ Hfold _ _ Hget)
    as [H0|[[dest cost] [Hin [Hrf Hp]]]]; [discriminate|].
  destruct (ospf_route_for_emits _ _ _ _ _ Hrf) as [_ [Hr _]].
  assert (Hc : rt_cost route = cost) by (rewrite Hr; reflexivity).
  exists dest. rewrite Hc. split; [assumption|]. split; [|assumption].
  rewrite Hp, Hr. reflexivity.
Qed.

End OSPFRoutes.

(* ------------------------------------------------------------------ *)
(** ** The shortest-path loop ends and leaves walks that end *)

Module SPFLoop.
Import SPF.

Lemma min_from_in l : forall best bv,
  min_from best bv l = best \/ In (min_from best bv l) (dict_keys l).
Proof.
  induction l as [|[k v] t IH]; intros best bv; simpl; [now left|].
  destruct (dist_ltb v bv).
  - destruct (IH k v) as [H|H]; [rewrite H|]; auto.
  - destruct (IH best bv) as [H|H]; auto.
Qed.

Lemma min_key_in c k : min_key c = Some k -> In k (dict_keys c).
Proof.
  destruct c as [|[k0 v0] t]; simpl; [discriminate|].
  intros [= <-]. destruct (min_from_in t k0 v0) as [H|H]; auto.
Qed.

(** The vertex the loop selects is unvisited and has a distance. *)
Lemma min_key_candidate distances unvisited current :
  min_key (candidates distances unvisited) = Some current ->
  In current unvisited /\ dict_mem current distances = true.
Proof.
  intros H. apply min_key_in in H. unfold dict_keys, candidates in H.
  apply in_map_iff in H. destruct H as [[k v] [Hk Hin]]. simpl in Hk. subst k.
  apply filter_In in Hin. destruct Hin as [Hin Hm]. simpl in Hm. split.
  - now apply set_mem_In.
  - apply dict_mem_In. unfold dict_keys. apply in_map_iff.
    exists (current, v). auto.
Qed.

Lemma set_discard_shorter x s :
  In x s -> length (set_discard x s) < length s.
Proof.
  unfold set_discard. induction s as [|y t IH]; simpl; [tauto|].
  intros [->|Hin].
  - rewrite String.eqb_refl. simpl.
    pose proof (filter_length_le (fun y => negb (String.eqb x y)) t). lia.
  - destruct (String.eqb x y); simpl.
    + pose proof (filter_length_le (fun y => negb (String.eqb x y)) t). lia.
    + specialize (IH Hin). lia.
Qed.

Lemma dijkstra_unfold g fuel distances previous unvisited :
  dijkstra (S fuel) g distances previous unvisited
  = match unvisited with
    | [] => (distances, previous)
    | _ :: _ =>
        match min_key (candidates distances unvisited) with
        | None => (distances, previous)
        | Some current =>
            let unvisited' := set_discard current unvisited in
            let st :=
              match dict_get current g with
              | Some edges =>
                  fold_left (relax_edge current unvisited') edges
                    (distances, previous)
              | None => (distances, previous)
              end in
            dijkstra fuel g (fst st) (snd st) unvisited'
        end
    end.
Proof. reflexivity. Qed.

(** [length unvisited] iterations are all the loop can make: more fuel
    changes nothing. *)
Lemma dijkstra_one_more g : forall fuel distances previous unvisited,
  length unvisited <= fuel ->
  dijkstra (S fuel) g distances previous unvisited
  = dijkstra fuel g distances previous unvisited.
Proof.
  induction fuel as [|fuel IH]; intros distances previous unvisited Hlen.
  - destruct unvisited; [reflexivity|simpl in Hlen; lia].
  - rewrite (dijkstra_unfold g (S fuel)), (dijkstra_unfold g fuel).
    destruct unvisited as [|u us] eqn:Hu; [reflexivity|]. rewrite <- Hu in *.
    destruct (min_key (candidates distances unvisited)) as [current|] eqn:Hmin;
      [|reflexivity].
    cbv zeta. apply IH.
    apply min_key_candidate in Hmin. destruct Hmin as [Hin _].
    apply set_discard_shorter in Hin. lia.
Qed.

Lemma dijkstra_fuel_enough g fuel distances previous unvisited :
  length unvisited <= fuel ->
  dijkstra fuel g distances previous unvisited
  = dijkstra (length unvisited) g distances previous unvisited.
Proof.
  intros H. induction H as [|m Hle IH]; [reflexivity|].
  rewrite dijkstra_one_more by assumption. exact IH.
Qed.

End SPFLoop.

Module SPFChains.
Import SPF SPFLoop.

Lemma chain_ok_has_pred previous unvisited vs v :
  chain_ok previous unvisited vs -> In v vs ->
  exists p, dict_get v previous = Some p.
Proof.
  induction vs as [|w t IH]; simpl; [tauto|].
  intros [[p [Hp _]] Ht] [->|Hin]; eauto.
Qed.

(** Shrinking [unvisited] keeps a chain. *)
Lemma chain_ok_shrink previous unvisited unvisited' vs :
  (forall x, In x unvisited' -> In x unvisited) ->
  chain_ok previous unvisited vs -> chain_ok previous unvisited' vs.
Proof.
  intros Hsub. induction vs as [|v t IH]; simpl; [tauto|].
  intros [[p [Hp [Hnot Hor]]] Ht]. split; [|now apply IH].
  exists p. repeat split; auto.
Qed.

(** Assigning the predecessor of an unvisited vertex keeps a chain. *)
Lemma chain_ok_update previous unvisited vs n c :
  (forall v, In v vs -> ~ In v unvisited) ->
  In n unvisited ->
  chain_ok previous unvisited vs ->
  chain_ok (dict_set n c previous) unvisited vs.
Proof.
  intros Hvis Hn. induction vs as [|v t IH]; simpl; [tauto|].
  intros [[p [Hp [Hnot Hor]]] Ht]. split.
  - exists p. split; [|split; [assumption|]].
    + rewrite dict_get_set_neq; [assumption|].
      intros ->. apply (Hvis v); simpl; auto.
    + destruct Hor as [Hin|Hnone]; [now left|right].
      rewrite dict_get_set_neq; [assumption|]. intros ->. tauto.
  - apply IH; [|assumption]. intros w Hw. apply Hvis. simpl. auto.
Qed.

Lemma relax_edge_inv current unvisited vs distances previous e :
  relax_inv current previous unvisited vs ->
  relax_inv current
    (snd (relax_edge current unvisited (distances, previous) e))
    unvisited vs.
Proof.
  intros Hinv. unfold relax_edge. destruct e as [n cost].
  destruct (set_mem n unvisited) eqn:Hmem; [|exact Hinv].
  match goal with
  | |- context [if ?c then _ else _] => destruct c
  end; [|exact Hinv].
  cbn [snd]. apply set_mem_In in Hmem.
  destruct Hinv as [[Hnd [Hvis [Hchain Hall]]] [Hcur Hroot]].
  assert (Hne : n <> current) by (intros ->; tauto).
  split; [|split].
  - split; [assumption|]. split; [assumption|]. split.
    + now apply chain_ok_update.
    + intros m p Hget.
      destruct (String.eqb_spec n m) as [<-|Hnm].
      * rewrite dict_get_set_eq in Hget. injection Hget as <-.
        right. split; [assumption|]. split; [assumption|].
        destruct Hroot as [H|H]; [now left|right].
        now rewrite dict_get_set_neq.
      * rewrite dict_get_set_neq in Hget by assumption.
        destruct (Hall m p Hget) as [H|[H1 [H2 H3]]]; [now left|right].
        split; [assumption|]. split; [assumption|].
        destruct H3 as [H3|H3]; [now left|right].
        rewrite dict_get_set_neq; [assumption|]. intros ->. tauto.
  - assumption.
  - destruct Hroot as [H|H]; [now left|right].
    now rewrite dict_get_set_neq.
Qed.

Lemma relax_fold_inv current unvisited vs edges : forall distances previous,
  relax_inv current previous unvisited vs ->
  relax_inv current
    (snd (fold_left (relax_edge current unvisited) edges
            (distances, previous)))
    unvisited vs.
Proof.
  induction edges as [|e t IH]; intros distances previous Hinv;
    cbn [fold_left].
  - exact Hinv.
  - destruct (relax_edge current unvisited (distances, previous) e)
      as [d' p'] eqn:He.
    apply IH.
    pose proof (relax_edge_inv current unvisited vs distances previous e Hinv)
      as H.
    now rewrite He in H.
Qed.

(** Selecting [current] moves it from the unvisited to the visited. *)
Lemma visit_inv current previous unvisited vs :
  spf_inv previous unvisited vs ->
  In current unvisited ->
  exists vs', relax_inv current previous (set_discard current unvisited) vs'.
Proof.
  intros [Hnd [Hvis [Hchain Hall]]] Hcur.
  assert (Hsub : forall x, In x (set_discard current unvisited) ->
                           In x unvisited).
  { intros x Hx. now apply set_discard_In in Hx. }
  assert (Hgone : ~ In current (set_discard current unvisited)).
  { intros Hx. apply set_discard_In in Hx. tauto. }
  assert (Hfresh : ~ In current vs).
  { intros Hx. now apply (Hvis current Hx). }
  destruct (dict_get current previous) as [p|] eqn:Hp.
  - exists (current :: vs).
    destruct (Hall current p Hp) as [H|[_ [Hpn Hpor]]]; [tauto|].
    split; [|split; [assumption|left; simpl; auto]].
    split; [now constructor|]. split; [|split].
    + intros v [<-|Hv]; [assumption|]. intros Hx. apply (Hvis v Hv). auto.
    + simpl. split.
      * exists p. repeat split; auto.
      * eapply chain_ok_shrink; eassumption.
    + intros n q Hq. destruct (Hall n q Hq) as [H|[H1 [H2 H3]]].
      * left. simpl. auto.
      * destruct (String.eqb_spec current n) as [<-|Hne].
        -- left. simpl. auto.
        -- right. split; [apply set_discard_In; auto|].
           split; [auto|]. destruct H3; [left; simpl|right]; auto.
  - exists vs.
    split; [|split; [assumption|now right]].
    split; [assumption|]. split; [|split].
    + intros v Hv Hx. apply (Hvis v Hv). auto.
    + eapply chain_ok_shrink; eassumption.
    + intros n q Hq. destruct (Hall n q Hq) as [H|[H1 [H2 H3]]]; [now left|].
      right. split; [|split; auto].
      apply set_discard_In. split; [assumption|]. intros <-. congruence.
Qed.

(** The invariant holds for what the loop returns. *)
Lemma dijkstra_inv g : forall fuel distances previous unvisited vs,
  spf_inv previous unvisited vs ->
  exists unvisited' vs',
    spf_inv (snd (dijkstra fuel g distances previous unvisited))
      unvisited' vs'.
Proof.
  induction fuel as [|fuel IH]; intros distances previous unvisited vs Hinv.
  - simpl. eauto.
  - rewrite dijkstra_unfold. destruct unvisited as [|u us] eqn:Hu; [eauto|].
    rewrite <- Hu in *.
    destruct (min_key (candidates distances unvisited)) as [current|] eqn:Hmin;
      [|eauto].
    cbv zeta. apply min_key_candidate in Hmin. destruct Hmin as [Hin _].
    destruct (visit_inv current previous unvisited vs Hinv Hin) as [vs' Hr].
    destruct (dict_get current g) as [edges|].
    + pose proof (relax_fold_inv current (set_discard current unvisited) vs'
                    edges distances previous Hr) as [H _].
      eapply IH. exact H.
    + destruct Hr as [H _]. eapply IH. exact H.
Qed.

Lemma spf_inv_init nodes : spf_inv [] nodes [].
Proof.
  split; [constructor|]. split; [tauto|]. split; [exact I|].
  intros n p H. discriminate.
Qed.

(** Every visited vertex with a predecessor is at most [length vs] steps
    from a root. *)
Lemma chain_ok_depth previous unvisited vs :
  chain_ok previous unvisited vs ->
  forall v, In v vs ->
  exists d, chain_depth previous v d /\ d <= length vs.
Proof.
  induction vs as [|w t IH]; simpl; [tauto|].
  intros [[p [Hp [_ Hor]]] Ht] v [<-|Hin].
  - destruct Hor as [Hpin|Hnone].
    + destruct (IH Ht p Hpin) as [d [Hd Hle]].
      exists (S d). split; [|lia]. econstructor; eassumption.
    + exists 1. split; [|lia]. econstructor; [eassumption|].
      now constructor.
  - destruct (IH Ht v Hin) as [d [Hd Hle]]. exists d. split; [assumption|lia].
Qed.

Lemma spf_inv_depth previous unvisited vs n p :
  spf_inv previous unvisited vs ->
  dict_get n previous = Some p ->
  exists d, chain_depth previous n d /\ d <= length previous.
Proof.
  intros [Hnd [Hvis [Hchain Hall]]] Hget.
  assert (Hkeys : forall l, NoDup l ->
             (forall v, In v l -> exists q, dict_get v previous = Some q) ->
             length l <= length previous).
  { intros l Hl Hin. rewrite <- (length_map fst previous).
    apply NoDup_incl_length; [assumption|].
    intros v Hv. destruct (Hin v Hv) as [q Hq].
    eapply dict_get_key_In; eassumption. }
  assert (Hvs : forall v, In v vs -> exists q, dict_get v previous = Some q).
  { intros v Hv. eapply chain_ok_has_pred; eassumption. }
  destruct (Hall n p Hget) as [Hin|[Hun [_ Hor]]].
  - destruct (chain_ok_depth _ _ _ Hchain n Hin) as [d [Hd Hle]].
    exists d. split; [assumption|]. specialize (Hkeys vs Hnd Hvs). lia.
  - assert (Hlen : S (length vs) <= length previous).
    { apply (Hkeys (n :: vs)).
      - constructor; [|assumption]. intros Hx. now apply (Hvis n Hx).
      - intros v [<-|Hv]; eauto. }
    destruct Hor as [Hpin|Hnone].
    + destruct (chain_ok_depth _ _ _ Hchain p Hpin) as [d [Hd Hle]].
      exists (S d). split; [|lia]. econstructor; eassumption.
    + exists 1. split; [|lia]. econstructor; [eassumption|].
      now constructor.
Qed.

Lemma walk_back_depth previous n d :
  chain_depth previous n d ->
  forall fuel acc, d < fuel ->
  exists path, walk_back fuel previous n acc = Some path.
Proof.
  induction 1 as [n Hn|n p d Hn Hd IH]; intros fuel acc Hlt;
    (destruct fuel as [|fuel]; [lia|]); simpl; rewrite Hn.
  - eauto.
  - apply IH. lia.
Qed.

Lemma spf_inv_walks_end previous unvisited vs :
  spf_inv previous unvisited vs -> walks_end previous.
Proof.
  intros Hinv n. destruct (dict_get n previous) as [p|] eqn:Hget.
  - destruct (spf_inv_depth _ _ _ _ _ Hinv Hget) as [d [Hd Hle]].
    apply (walk_back_depth _ _ _ Hd). unfold walk_fuel. lia.
  - unfold walk_fuel. simpl. rewrite Hget. eauto.
Qed.

Lemma shortest_paths_walks_end self_id g nodes :
  walks_end (snd (shortest_paths self_id g nodes)).
Proof.
  unfold shortest_paths.
  destruct (dijkstra_inv g (length nodes) [(self_id, Fin 0)] [] nodes []
              (spf_inv_init nodes)) as [u [vs H]].
  eapply spf_inv_walks_end. exact H.
Qed.

Lemma find_next_hop_returns self_id dest previous :
  walks_end previous ->
  exists out, _find_next_hop self_id dest previous = Some out.
Proof.
  intros Hw. unfold _find_next_hop.
  destruct (negb (dict_mem dest previous)); [eauto|].
  destruct (Hw dest) as [path ->].
  destruct (Nat.leb 2 (length (path ++ [self_id]))); eauto.
Qed.

End SPFChains.

Module SPFRooted.
Import SPF SPFLoop.

Lemma dict_mem_set_mono {V : Type} (k k' : string) (v : V) (d : dict V) :
  dict_mem k' d = true -> dict_mem k' (dict_set k v d) = true.
Proof.
  intros H. destruct (String.eqb_spec k k') as [->|Hne].
  - apply dict_mem_set_eq.
  - now rewrite dict_mem_set_neq.
Qed.

Lemma relax_edge_dist_inv self_id current unvisited distances previous e :
  dist_inv self_id distances previous ->
  dict_mem current distances = true ->
  dist_inv self_id
    (fst (relax_edge current unvisited (distances, previous) e))
    (snd (relax_edge current unvisited (distances, previous) e))
  /\ dict_mem current
       (fst (relax_edge current unvisited (distances, previous) e)) = true.
Proof.
  intros [Hd Hp] Hcur. unfold relax_edge. destruct e as [n cost].
  destruct (set_mem n unvisited); [|repeat split; assumption].
  match goal with
  | |- context [if ?c then _ else _] => destruct c
  end; [|repeat split; assumption].
  cbn [fst snd]. split; [split|].
  - intros k Hk. destruct (String.eqb_spec n k) as [<-|Hne].
    + right. apply dict_mem_set_eq.
    + rewrite dict_mem_set_neq in Hk by assumption.
      destruct (Hd k Hk) as [H|H]; [now left|right].
      now apply dict_mem_set_mono.
  - intros m p Hget. apply dict_mem_set_mono.
    destruct (String.eqb_spec n m) as [<-|Hne].
    + rewrite dict_get_set_eq in Hget. now injection Hget as <-.
    + rewrite dict_get_set_neq in Hget by assumption. eapply Hp; eassumption.
  - now apply dict_mem_set_mono.
Qed.

Lemma relax_fold_dist_inv self_id current unvisited edges :
  forall distances previous,
    dist_inv self_id distances previous ->
    dict_mem current distances = true ->
    dist_inv self_id
      (fst (fold_left (relax_edge current unvisited) edges
              (distances, previous)))
      (snd (fold_left (relax_edge current unvisited) edges
              (distances, previous))).
Proof.
  induction edges as [|e t IH]; intros distances previous Hinv Hcur;
    cbn [fold_left].
  - exact Hinv.
  - pose proof (relax_edge_dist_inv self_id current unvisited distances
                  previous e Hinv Hcur) as [H1 H2].
    destruct (relax_edge current unvisited (distances, previous) e)
      as [d' p'].
    now apply IH.
Qed.

Lemma dijkstra_dist_inv self_id g :
  forall fuel distances previous unvisited,
    dist_inv self_id distances previous ->
    dist_inv self_id
      (fst (dijkstra fuel g distances previous unvisited))
      (snd (dijkstra fuel g distances previous unvisited)).
Proof.
  induction fuel as [|fuel IH]; intros distances previous unvisited Hinv.
  - exact Hinv.
  - rewrite dijkstra_unfold. destruct unvisited as [|u us] eqn:Hu;
      [exact Hinv|].
    rewrite <- Hu in *.
    destruct (min_key (candidates distances unvisited)) as [current|] eqn:Hmin;
      [|exact Hinv].
    cbv zeta. apply min_key_candidate in Hmin. destruct Hmin as [_ Hcur].
    apply IH. destruct (dict_get current g) as [edges|]; [|exact Hinv].
    now apply relax_fold_dist_inv.
Qed.

Lemma shortest_paths_dist_inv self_id g nodes :
  dist_inv self_id (fst (shortest_paths self_id g nodes))
    (snd (shortest_paths self_id g nodes)).
Proof.
  unfold shortest_paths. apply dijkstra_dist_inv. split.
  - intros k Hk. left. unfold dict_mem in Hk. simpl in Hk.
    destruct (String.eqb_spec k self_id); [assumption|discriminate].
  - intros n p H. discriminate.
Qed.

(** A walk stops at a vertex whose predecessor has none. *)
Lemma walk_back_last previous : forall fuel n path,
  walk_back fuel previous n [] = Some path ->
  path <> [] ->
  exists q,
    dict_get (last path n) previous = Some q /\ dict_get q previous = None.
Proof.
  induction fuel as [|fuel IH]; intros n path Hw Hne; simpl in Hw.
  - discriminate.
  - destruct (dict_get n previous) as [p|] eqn:Hn.
    + rewrite SPFFacts.walk_back_acc in Hw.
      destruct (walk_back fuel previous p []) as [chain|] eqn:Hc;
        [|discriminate].
      simpl in Hw. injection Hw as <-.
      destruct chain as [|c chain'].
      * exists p. simpl. split; [assumption|].
        destruct fuel as [|fuel']; simpl in Hc; [discriminate|].
        destruct (dict_get p previous) as [p'|]; [|reflexivity].
        rewrite SPFFacts.walk_back_acc in Hc.
        destruct (walk_back fuel' previous p' []); discriminate.
      * destruct (IH p (c :: chain') Hc) as [q [H1 H2]]; [discriminate|].
        exists q. split; [|assumption].
        change (last (n :: c :: chain') n) with (last (c :: chain') n).
        assert (Hl : forall d d', last (c :: chain') d = last (c :: chain') d').
        { clear. revert c. induction chain' as [|x t IH]; intros c d d';
            [reflexivity|]. exact (IH x d d'). }
        rewrite (Hl n p). exact H1.
    + injection Hw as <-. congruence.
Qed.

(** After the shortest-path loop, the predecessor of a resolved next hop
    is the source itself. *)
Lemma next_hop_follows_source self_id dest distances previous hop :
  dist_inv self_id distances previous ->
  _find_next_hop self_id dest previous = Some (Some hop) ->
  dict_get hop previous = Some self_id.
Proof.
  intros [Hd Hp]. unfold _find_next_hop.
  destruct (dict_mem dest previous) eqn:Hmem; cbn [negb]; [|discriminate].
  destruct (walk_back (walk_fuel previous) previous dest []) as [path0|] eqn:Hw;
    [|discriminate].
  destruct (SPFFacts.walk_back_head _ _ _ _ Hmem Hw) as [tail ->].
  destruct (SPFFacts.first_hop_of_path self_id dest tail)
    as [h [rest [_ [H2 [_ H4]]]]].
  destruct (Nat.leb 2 (length ((dest :: tail) ++ [self_id]))); [|discriminate].
  rewrite H2. intros [= <-].
  destruct (walk_back_last _ _ _ _ Hw) as [q [Hq Hroot]]; [discriminate|].
  rewrite H4 in Hq. rewrite Hq. f_equal.
  destruct (Hd q (Hp _ _ Hq)) as [H|H]; [assumption|].
  unfold dict_mem in H. rewrite Hroot in H. discriminate.
Qed.

End SPFRooted.

Module OSPFTotal.
Import OSPF.

Lemma ospf_route_for_returns r previous item :
  walks_end previous -> exists out, route_for r previous item = Some out.
Proof.
  intros Hw. unfold route_for.
  destruct (String.eqb (fst item) (router_id r)); [eauto|].
  unfold _find_next_hop, _get_path.
  destruct (SPFChains.find_next_hop_returns (router_id r) (fst item) previous Hw)
    as [out Hout].
  rewrite Hout. cbn [bind]. destruct out as [nh|]; [|eauto].
  destruct (truthy nh && dict_mem nh (neighbors r)); [|eauto].
  destruct (_get_interface_to_neighbor r nh) as [iface|]; [|eauto].
  destruct (truthy iface); [|eauto].
  destruct (SPFFacts.get_path_returns _ _ _ _ Hout) as [path ->].
  cbn [bind]. eauto.
Qed.

Lemma ospf_route_fold_returns r previous distances :
  walks_end previous ->
  forall table0, exists table,
    fold_left (route_step r previous) distances (Some table0) = Some table.
Proof.
  intros Hw. induction distances as [|item t IH]; intros table0; simpl.
  - eauto.
  - destruct (ospf_route_for_returns r previous item Hw) as [out ->].
    cbn [bind]. destruct out; apply IH.
Qed.

Lemma ospf_build_routing_table_returns r distances previous :
  walks_end previous ->
  exists r', _build_routing_table r distances previous = Some r'.
Proof.
  intros Hw. unfold _build_routing_table.
  destruct (ospf_route_fold_returns r previous distances Hw []) as [table Ht].
  match goal with
  | |- exists r', bind ?c _ = _ =>
      assert (Hc : c = Some table) by exact Ht; rewrite Hc
  end.
  cbn [bind]. eauto.
Qed.

(** [calculate_spf] returns for every router. *)
Lemma ospf_calculate_spf_returns r :
  exists r', calculate_spf r = Some r'.
Proof.
  unfold calculate_spf. destruct (Nat.ltb (length (lsdb r)) 2); [eauto|].
  cbv zeta. apply ospf_build_routing_table_returns.
  apply SPFChains.shortest_paths_walks_end.
Qed.

(** [calculate_spf] touches the Routing Table only. *)
Lemma ospf_calculate_spf_frame r r' :
  calculate_spf r = Some r' ->
  router_id r' = router_id r /\ neighbors r' = neighbors r
  /\ lsdb r' = lsdb r /\ interfaces r' = interfaces r.
Proof.
  unfold calculate_spf. destruct (Nat.ltb (length (lsdb r)) 2).
  - intros [= <-]. auto.
  - cbv zeta. apply OSPFRoutes.ospf_build_routing_table_frame.
Qed.

End OSPFTotal.

Module ISISTotal.
Import ISIS.

Lemma isis_route_for_returns r previous item :
  walks_end previous -> exists out, route_for r previous item = Some out.
Proof.
  intros Hw. unfold route_for.
  destruct (String.eqb (fst item) (system_id r)); [eauto|].
  unfold _find_next_hop.
  destruct (SPFChains.find_next_hop_returns (system_id r) (fst item) previous Hw)
    as [out ->].
  cbn [bind]. destruct out as [nh|]; [|eauto].
  destruct (truthy nh && dict_mem nh (neighbors r)); [|eauto].
  destruct (_get_interface_to_neighbor r nh) as [iface|]; [|eauto].
  destruct (truthy iface); eauto.
Qed.

Lemma isis_route_fold_returns r previous distances :
  walks_end previous ->
  forall table0, exists table,
    fold_left (route_step r previous) distances (Some table0) = Some table.
Proof.
  intros Hw. induction distances as [|item t IH]; intros table0; simpl.
  - eauto.
  - destruct (isis_route_for_returns r previous item Hw) as [out ->].
    cbn [bind]. destruct out; apply IH.
Qed.

Lemma isis_build_routing_table_returns r distances previous :
  walks_end previous ->
  exists r', _build_routing_table r distances previous = Some r'.
Proof.
  intros Hw. unfold _build_routing_table.
  destruct (isis_route_fold_returns r previous distances Hw []) as [table Ht].
  match goal with
  | |- exists r', bind ?c _ = _ =>
      assert (Hc : c = Some table) by exact Ht; rewrite Hc
  end.
  cbn [bind]. eauto.
Qed.

Lemma isis_calculate_spf_returns r :
  exists r', calculate_spf r = Some r'.
Proof.
  unfold calculate_spf. destruct (Nat.ltb (length (lsdb r)) 2); [eauto|].
  cbv zeta. apply isis_build_routing_table_returns.
  apply SPFChains.shortest_paths_walks_end.
Qed.

End ISISTotal.

(** C6. Every route of a table built by [_build_routing_table] belongs to
    a destination other than the router itself; its next hop is the vertex
    that follows the router on the path [_get_path] reconstructs from the
    predecessor map (which leads on to the destination), is a key of the
    Neighbor Table, and the route's interface is the one
    [_get_interface_to_neighbor] resolves for it from the neighbor sets of
    the interfaces.  A destination for which no such next hop and interface
    exist has no entry.  The computation raises nothing: [calculate_spf]
    returns for every router, and in the table it builds the predecessor
    of every next hop is the router itself. *)
Theorem routes_use_first_hop :
  (forall (r r' : OSPF.OSPFRouter) (distances : dict SPF.distance)
          (previous : dict string),
      OSPF._build_routing_table r distances previous = Some r' ->
      (forall prefix route,
          dict_get prefix (OSPF.routing_table r') = Some route ->
          exists dest rest,
            prefix = OSPF.prefix_of dest
            /\ OSPF.rt_prefix route = prefix
            /\ In (dest, OSPF.rt_cost route) distances
            /\ dest <> OSPF.router_id r
            /\ OSPF._get_path r dest previous
               = Some (OSPF.router_id r :: OSPF.rt_next_hop route :: rest)
            /\ last (OSPF.rt_next_hop route :: rest) (OSPF.rt_next_hop route)
               = dest
            /\ dict_mem (OSPF.rt_next_hop route) (OSPF.neighbors r) = true
            /\ OSPF._get_interface_to_neighbor r (OSPF.rt_next_hop route)
               = Some (OSPF.rt_interface route)
            /\ exists info,
                In (OSPF.rt_interface route, info) (OSPF.interfaces r)
                /\ set_mem (OSPF.rt_next_hop route) (if_neighbors info) = true)
      /\ (forall dest,
             ~ (exists hop rest interface,
                   OSPF._get_path r dest previous
                   = Some (OSPF.router_id r :: hop :: rest)
                   /\ dict_mem hop (OSPF.neighbors r) = true
                   /\ OSPF._get_interface_to_neighbor r hop = Some interface) ->
             dict_get (OSPF.prefix_of dest) (OSPF.routing_table r') = None))
  /\ (forall r : OSPF.OSPFRouter,
         exists r',
           OSPF.calculate_spf r = Some r'
           /\ (2 <= length (OSPF.lsdb r) ->
               forall prefix route,
                 dict_get prefix (OSPF.routing_table r') = Some route ->
                 dict_get (OSPF.rt_next_hop route)
                   (snd (SPF.shortest_paths (OSPF.router_id r)
                           (OSPF.build_graph (OSPF.lsdb r))
                           (dict_keys (OSPF.lsdb r))))
                 = Some (OSPF.router_id r))).
Proof.
  split.
  - intros r r' distances previous Hbuild.
    pose proof (OSPFRoutes.ospf_built_routes _ _ _ _ Hbuild) as Hroutes.
    split.
    + intros prefix route Hget.
      destruct (Hroutes _ _ Hget) as [dest [Hin [Hp Hrf]]].
      destruct (OSPFRoutes.ospf_route_for_emits _ _ _ _ _ Hrf)
        as [Hne [Hr [Hnh [Hmem Hif]]]].
      destruct (SPFFacts.next_hop_on_path _ _ _ _ Hnh) as [rest [Hpath Hlast]].
      destruct (SPFFacts.interface_found_serves _ _ _ Hif) as [info Hinfo].
      exists dest, rest. split; [assumption|]. split.
      { rewrite Hr, Hp. reflexivity. }
      repeat split; try assumption.
      exists info. exact Hinfo.
    + intros dest Hnone.
      destruct (dict_get (OSPF.prefix_of dest) (OSPF.routing_table r'))
        as [route|] eqn:Hget; [|reflexivity].
      exfalso. apply Hnone.
      destruct (Hroutes _ _ Hget) as [dest' [Hin [Hp Hrf]]].
      apply OSPFRoutes.ospf_prefix_of_inj in Hp. subst dest'.
      destruct (OSPFRoutes.ospf_route_for_emits _ _ _ _ _ Hrf)
        as [Hne [Hr [Hnh [Hmem Hif]]]].
      destruct (SPFFacts.next_hop_on_path _ _ _ _ Hnh) as [rest [Hpath _]].
      exists (OSPF.rt_next_hop route), rest, (OSPF.rt_interface route). auto.
  - intros r. destruct (OSPFTotal.ospf_calculate_spf_returns r) as [r' Hspf].
    exists r'. split; [exact Hspf|].
    intros Hlen prefix route Hget.
    unfold OSPF.calculate_spf in Hspf.
    destruct (Nat.ltb_spec (length (OSPF.lsdb r)) 2) as [Hlt|_]; [lia|].
    cbv zeta in Hspf.
    destruct (OSPFRoutes.ospf_built_routes _ _ _ _ Hspf _ _ Hget)
      as [dest [_ [_ Hrf]]].
    destruct (OSPFRoutes.ospf_route_for_emits _ _ _ _ _ Hrf)
      as [_ [_ [Hnh _]]].
    eapply SPFRooted.next_hop_follows_source; [|exact Hnh].
    apply SPFRooted.shortest_paths_dist_inv.
Qed.

(** Router A of the connected pair and a predecessor map for the line
    A-B-C-D: the route to D goes to B, the first hop, while the
    predecessor of D is C. *)
Lemma routes_use_first_hop_witness :
  let distances :=
    [("A", SPF.Fin 0); ("B", SPF.Fin 10); ("C", SPF.Fin 20);
     ("D", SPF.Fin 30)] in
  let previous := [("B", "A"); ("C", "B"); ("D", "C")] in
  exists r' route rest,
    OSPF._build_routing_table pair_router_A distances previous = Some r'
    /\ dict_get "D/32" (OSPF.routing_table r') = Some route
    /\ OSPF._get_path pair_router_A "D" previous
       = Some ("A" :: OSPF.rt_next_hop route :: rest)
    /\ OSPF.rt_next_hop route = "B"
    /\ dict_get "D" previous = Some "C"
    /\ dict_get "Z/32" (OSPF.routing_table r') = None.
Proof.
  intros distances previous.
  destruct (OSPF._build_routing_table pair_router_A distances previous)
    as [r'|] eqn:Hb; [|vm_compute in Hb; discriminate].
  destruct (proj1 routes_use_first_hop _ _ _ _ Hb) as [Hroutes Homit].
  assert (Hr' : Some r' = OSPF._build_routing_table pair_router_A distances
                            previous) by (symmetry; exact Hb).
  vm_compute in Hr'. injection Hr' as Hr'.
  assert (Hget : exists route,
             dict_get "D/32" (OSPF.routing_table r') = Some route
             /\ OSPF.rt_next_hop route = "B").
  { rewrite Hr'. eexists. split; reflexivity. }
  destruct Hget as [route [Hget Hnh]].
  destruct (Hroutes _ _ Hget)
    as [dest [rest [Hp [_ [_ [_ [Hpath _]]]]]]].
  change "D/32" with (OSPF.prefix_of "D") in Hp.
  apply OSPFRoutes.ospf_prefix_of_inj in Hp. subst dest.
  exists r', route, rest.
  split; [reflexivity|]. split; [exact Hget|]. split; [exact Hpath|].
  split; [exact Hnh|]. split; [reflexivity|].
  apply (Homit "Z"). intros [hop [rest' [iface [Hpath' _]]]].
  vm_compute in Hpath'. discriminate.
Defined.

(* ------------------------------------------------------------------ *)
(** ** Convergence on the line A-B-C *)

(** After two passes of the exchange loop every LSDB of the line is
    complete: one more pass returns the same network. *)
Lemma exchange_twice_is_complete :
  (do n <- line_AB_then_BC_exchanged; OSPFNet.exchange_pass n)
  = line_AB_then_BC_exchanged
  /\ (do n <- line_BC_then_AB_exchanged; OSPFNet.exchange_pass n)
     = line_BC_then_AB_exchanged
  /\ line_BC_then_AB_exchanged <> None.
Proof.
  split; [vm_compute; reflexivity|].
  split; [vm_compute; reflexivity|].
  vm_compute. discriminate.
Qed.

(** With link A-B connected first, then B-C, and the records exchanged,
    A routes to C through B at cost 20. *)
Lemma line_AB_then_BC_converges :
  route_of "A" "C/32" line_AB_then_BC
  = Some (OSPF.mkRoute "C/32" "B" (SPF.Fin 20) "eth0")
  /\ origins_of "A" line_AB_then_BC = Some ["A"; "B"; "C"].
Proof. split; vm_compute; reflexivity. Qed.

(** C4. The same line with link B-C connected first: all adjacencies are
    FULL, A holds the records of A, B and C, its copy of B's record is the
    one B holds itself, and yet A has no route to C.  The second
    [add_interface] of B rebuilt B's record without the neighbor
    identifier of its first link, so the edge from B to C is missing from
    A's graph. *)
Theorem line_BC_then_AB_has_no_route :
  exists net a b,
    line_BC_then_AB = Some net
    /\ dict_get "A" (OSPFNet.routers net) = Some a
    /\ dict_get "B" (OSPFNet.routers net) = Some b
    /\ neighbor_states_of "A" (Some net) = Some [("B", OSPF.FULL)]
    /\ neighbor_states_of "B" (Some net)
       = Some [("C", OSPF.FULL); ("A", OSPF.FULL)]
    /\ neighbor_states_of "C" (Some net) = Some [("B", OSPF.FULL)]
    /\ dict_keys (OSPF.lsdb a) = ["A"; "B"; "C"]
    /\ dict_get "B" (OSPF.lsdb a) = dict_get "B" (OSPF.lsdb b)
    /\ OSPF.lsa_edges (OSPF.lsdb a)
         (match dict_get "B" (OSPF.lsdb a) with
          | Some lsa => lsa
          | None => record_X
          end)
       = [("A", 10%Z)]
    /\ dict_keys (OSPF.routing_table a) = ["B/32"]
    /\ dict_get "C/32" (OSPF.routing_table a) = None.
Proof.
  do 3 eexists.
  split; [vm_compute; reflexivity|].
  split; [vm_compute; reflexivity|].
  split; [vm_compute; reflexivity|].
  repeat split.
Qed.

(* ------------------------------------------------------------------ *)
(** * Further properties of the code *)

(** ** [_get_prefix_for_router] *)

Module PrefixFacts.
Import OSPF.

Lemma split_on_nonempty sep s : split_on sep s <> [].
Proof.
  destruct s as [|c rest]; simpl; [discriminate|].
  destruct (Ascii.eqb c sep); [discriminate|].
  destruct (split_on sep rest); discriminate.
Qed.

(** Joining the parts with the separator gives the string back. *)
Lemma split_on_join sep s :
  String.concat (String sep EmptyString) (split_on sep s) = s.
Proof.
  induction s as [|c rest IH]; simpl; [reflexivity|].
  destruct (Ascii.eqb_spec c sep) as [->|Hne].
  - pose proof (split_on_nonempty sep rest) as Hn.
    destruct (split_on sep rest) as [|h t] eqn:Hs; [congruence|].
    simpl in *. now rewrite IH.
  - pose proof (split_on_nonempty sep rest) as Hn.
    destruct (split_on sep rest) as [|h t] eqn:Hs; [congruence|].
    simpl in *. destruct t; simpl in *; now rewrite <- IH.
Qed.

Lemma split_on_no_dot s : Forall no_dot (split_on "."%char s).
Proof.
  induction s as [|c rest IH]; simpl.
  - constructor; [|constructor]. intros [].
  - destruct (Ascii.eqb_spec c "."%char) as [->|Hne].
    + constructor; [intros []|assumption].
    + pose proof (split_on_nonempty "."%char rest) as Hn.
      destruct (split_on "."%char rest) as [|h t]; [congruence|].
      inversion IH; subst. constructor; [|assumption].
      unfold no_dot in *. simpl. intros [H|H]; [congruence|tauto].
Qed.

Lemma split_on_part a rest :
  no_dot a ->
  split_on "."%char (a ++ String "."%char rest)
  = a :: split_on "."%char rest.
Proof.
  induction a as [|c a IH]; intros Hnd; simpl.
  - reflexivity.
  - unfold no_dot in *. simpl in Hnd.
    destruct (Ascii.eqb_spec c "."%char) as [->|Hne]; [tauto|].
    rewrite IH by tauto. reflexivity.
Qed.

Lemma split_on_last a : no_dot a -> split_on "."%char a = [a].
Proof.
  induction a as [|c a IH]; intros Hnd; simpl.
  - reflexivity.
  - unfold no_dot in *. simpl in Hnd.
    destruct (Ascii.eqb_spec c "."%char) as [->|Hne]; [tauto|].
    rewrite IH by tauto. reflexivity.
Qed.

End PrefixFacts.

(** X1. [_get_prefix_for_router] answers exactly for ids made of four
    dot-free parts (empty parts included): for [a.b.c.d] it returns
    [a.b.c.0/24], and for every other string, with fewer or more dots, it
    returns [None]. *)
Theorem get_prefix_for_router_dotted_quad :
  forall rid prefix : string,
    OSPF._get_prefix_for_router rid = Some prefix
    <-> exists a b c d : string,
        no_dot a /\ no_dot b /\ no_dot c /\ no_dot d
        /\ rid = (a ++ "." ++ b ++ "." ++ c ++ "." ++ d)%string
        /\ prefix = (a ++ "." ++ b ++ "." ++ c ++ ".0/24")%string.
Proof.
  intros rid prefix. unfold OSPF._get_prefix_for_router. split.
  - pose proof (PrefixFacts.split_on_join "."%char rid) as Hj.
    pose proof (PrefixFacts.split_on_no_dot rid) as Hnd.
    destruct (OSPF.split_on "."%char rid) as [|a [|b [|c [|d [|e t]]]]];
      try discriminate.
    intros [= <-]. exists a, b, c, d.
    inversion Hnd as [|? ? Ha Hnd1]; subst.
    inversion Hnd1 as [|? ? Hb Hnd2]; subst.
    inversion Hnd2 as [|? ? Hc Hnd3]; subst.
    inversion Hnd3 as [|? ? Hd _]; subst.
    repeat split; auto.
  - intros [a [b [c [d [Ha [Hb [Hc [Hd [-> ->]]]]]]]]].
    change (a ++ "." ++ b ++ "." ++ c ++ "." ++ d)%string
      with (a ++ String "."%char (b ++ String "."%char
              (c ++ String "."%char d)))%string.
    rewrite !PrefixFacts.split_on_part by assumption.
    rewrite PrefixFacts.split_on_last by assumption. reflexivity.
Qed.

(** "1.1.1.1" has four dot-free parts. *)
Lemma get_prefix_for_router_dotted_quad_witness :
  OSPF._get_prefix_for_router "1.1.1.1" = Some "1.1.1.0/24"
  /\ OSPF._get_prefix_for_router "0000.0000.0001" = None.
Proof.
  split.
  - apply (proj2 (get_prefix_for_router_dotted_quad "1.1.1.1" "1.1.1.0/24")).
    exists "1", "1", "1", "1".
    repeat split; try reflexivity; intros [H|[]]; discriminate.
  - reflexivity.
Defined.

(* ------------------------------------------------------------------ *)
(** ** Interface lookup *)

(** X2. [_get_interface_to_neighbor] scans the Interface Table in
    insertion order: it returns the first interface whose neighbor set
    holds the neighbor, and [None] exactly when no interface does. *)
Theorem interface_lookup_first_match :
  forall (interfaces : dict InterfaceInfo) (neighbor_id : string),
    (SPF._get_interface_to_neighbor interfaces neighbor_id = None
     <-> forall iface info,
         In (iface, info) interfaces ->
         set_mem neighbor_id (if_neighbors info) = false)
    /\ (forall iface,
           SPF._get_interface_to_neighbor interfaces neighbor_id = Some iface
           <-> exists before info after,
               interfaces = before ++ (iface, info) :: after
               /\ set_mem neighbor_id (if_neighbors info) = true
               /\ forall item,
                   In item before ->
                   set_mem neighbor_id (if_neighbors (snd item)) = false).
Proof.
  intros interfaces neighbor_id.
  induction interfaces as [|[name info] t [IHn IHs]]; simpl.
  - split.
    + split; [intros _ ? ? []|reflexivity].
    + intros iface. split; [discriminate|].
      intros [[|? ?] [? [? [H _]]]]; discriminate.
  - destruct (set_mem neighbor_id (if_neighbors info)) eqn:E.
    + split.
      * split; [discriminate|]. intros H.
        specialize (H name info (or_introl eq_refl)). congruence.
      * intros iface. split.
        -- intros [= <-]. exists [], info, t. repeat split; auto.
           intros ? [].
        -- intros [[|[n0 i0] before] [info' [after [Heq [Hm Hb]]]]].
           ++ simpl in Heq. now injection Heq as -> _ _.
           ++ simpl in Heq. injection Heq as <- <- _.
              specialize (Hb (name, info) (or_introl eq_refl)).
              simpl in Hb. congruence.
    + split.
      * rewrite IHn. split.
        -- intros H iface i [Heq|Hin]; [now injection Heq as _ <-|eauto].
        -- intros H iface i Hin. apply (H iface i). now right.
      * intros iface. rewrite IHs. split.
        -- intros [before [info' [after [-> [Hm Hb]]]]].
           exists ((name, info) :: before), info', after.
           repeat split; auto. intros item [<-|Hin]; auto.
        -- intros [[|[n0 i0] before] [info' [after [Heq [Hm Hb]]]]].
           ++ simpl in Heq. injection Heq as _ <- _. congruence.
           ++ simpl in Heq. injection Heq as _ _ ->.
              exists before, info', after. repeat split; auto.
              intros item Hin. apply Hb. now right.
Qed.

(* ------------------------------------------------------------------ *)
(** ** Kernel routes *)

Module LinuxFacts.
Import Linux.

Lemma install_all_appends lr table :
  OSPFLinux.install_all lr table
  = mkLinuxRouter (lr_router_id lr) (lr_interfaces lr)
      (routes_installed lr
       ++ map (fun item =>
                 mkEntry (fst item) (OSPF.rt_next_hop (snd item))
                   (OSPF.rt_interface (snd item)))
            table).
Proof.
  unfold OSPFLinux.install_all. revert lr.
  induction table as [|item t IH]; intros lr; simpl.
  - rewrite app_nil_r. now destruct lr.
  - rewrite IH. unfold install_route. simpl.
    now rewrite <- app_assoc.
Qed.

Lemma filter_keeps_all {A : Type} (f : A -> bool) (l : list A) :
  (forall x, In x l -> f x = true) -> filter f l = l.
Proof.
  induction l as [|x t IH]; intros H; simpl; [reflexivity|].
  rewrite (H x (or_introl eq_refl)). f_equal. apply IH.
  intros y Hy. apply H. now right.
Qed.

End LinuxFacts.

(** X3. [calculate_spf] of the router with kernel integration always
    returns; the protocol state it leaves is the one of the plain router,
    and the kernel route list is the old list followed by one entry per
    route of the new table, in table order.  Nothing is ever removed from
    the kernel list, so routes of earlier computations stay installed,
    repeated if they are still in the table. *)
Theorem kernel_routes_accumulate :
  forall r : OSPFLinux.OSPFRouterLinux,
  exists r',
    OSPFLinux.calculate_spf r = Some r'
    /\ OSPF.calculate_spf (OSPFLinux.base r) = Some (OSPFLinux.base r')
    /\ Linux.lr_interfaces (OSPFLinux.linux_router r')
       = Linux.lr_interfaces (OSPFLinux.linux_router r)
    /\ OSPFLinux.get_kernel_routes r'
       = OSPFLinux.get_kernel_routes r
         ++ (if Nat.ltb (length (OSPF.lsdb (OSPFLinux.base r))) 2 then []
             else
               map (fun item =>
                      Linux.mkEntry (fst item) (OSPF.rt_next_hop (snd item))
                        (OSPF.rt_interface (snd item)))
                 (OSPF.routing_table (OSPFLinux.base r'))).
Proof.
  intros r. destruct (OSPFTotal.ospf_calculate_spf_returns (OSPFLinux.base r))
    as [b Hb].
  unfold OSPFLinux.calculate_spf. unfold OSPF.calculate_spf in Hb.
  destruct (Nat.ltb (length (OSPF.lsdb (OSPFLinux.base r))) 2) eqn:Hlen.
  - exists r. injection Hb as <-.
    unfold OSPF.calculate_spf. rewrite Hlen, app_nil_r. auto.
  - cbv zeta in *. unfold OSPFLinux._build_routing_table. rewrite Hb.
    cbn [bind]. eexists. split; [reflexivity|].
    unfold OSPF.calculate_spf. rewrite Hlen. cbv zeta. simpl.
    split; [exact Hb|]. rewrite LinuxFacts.install_all_appends. simpl. auto.
Qed.

(** X4. [delete_route] removes every entry of the prefix, however often it
    was installed, and keeps the other entries in order; deleting a route
    right after installing it undoes the installation when the prefix was
    not installed before. *)
Theorem delete_route_removes_prefix :
  forall (lr : Linux.LinuxRouter) (prefix next_hop interface : string),
    (forall e,
        In e (Linux.get_routes (Linux.delete_route lr prefix))
        <-> In e (Linux.get_routes lr) /\ Linux.re_prefix e <> prefix)
    /\ Linux.delete_route
         (Linux.install_route lr prefix next_hop interface) prefix
       = Linux.delete_route lr prefix
    /\ ((forall e, In e (Linux.get_routes lr) -> Linux.re_prefix e <> prefix)
        -> Linux.delete_route
             (Linux.install_route lr prefix next_hop interface) prefix
           = lr).
Proof.
  intros lr prefix next_hop interface.
  assert (Hdel : Linux.delete_route
                   (Linux.install_route lr prefix next_hop interface) prefix
                 = Linux.delete_route lr prefix).
  { unfold Linux.delete_route, Linux.install_route. simpl.
    rewrite filter_app. simpl. rewrite String.eqb_refl. simpl.
    now rewrite app_nil_r. }
  split; [|split].
  - intros e. unfold Linux.get_routes, Linux.delete_route. simpl.
    rewrite filter_In, negb_true_iff, String.eqb_neq. tauto.
  - exact Hdel.
  - intros Hfree. rewrite Hdel. unfold Linux.delete_route.
    destruct lr as [rid ifs routes]. simpl in *. f_equal.
    apply LinuxFacts.filter_keeps_all. intros e Hin.
    apply negb_true_iff, String.eqb_neq. now apply Hfree.
Qed.

(** A kernel with one route of another prefix. *)
Lemma delete_route_removes_prefix_witness :
  let lr := Linux.install_route (Linux.new_linux_router "1.1.1.1")
              "2.2.2.2/32" "2.2.2.2" "eth0" in
  Linux.delete_route (Linux.install_route lr "3.3.3.3/32" "2.2.2.2" "eth0")
    "3.3.3.3/32"
  = lr.
Proof.
  intros lr.
  apply (proj2 (proj2 (delete_route_removes_prefix lr "3.3.3.3/32" "2.2.2.2"
                         "eth0"))).
  intros e [<-|[]]. discriminate.
Defined.

(* ------------------------------------------------------------------ *)
(** ** Reachable router states *)

Module OSPFReach.
Import OSPF.

Lemma ospf_receive_keeps_origins r lsa from_router origin :
  dict_mem origin (lsdb r) = true ->
  dict_mem origin (lsdb (fst (receive_lsa r lsa from_router))) = true.
Proof.
  intros H. unfold receive_lsa, _receive_lsa.
  destruct (dict_get (lsa_router_id lsa) (lsdb r)) as [stored|].
  - destruct (Z.gtb _ _); simpl; [|assumption].
    now apply SPFRooted.dict_mem_set_mono.
  - simpl. now apply SPFRooted.dict_mem_set_mono.
Qed.

Lemma ospf_hello_entry_full r neighbor_id interface now :
  Forall (fun kv => nb_state (snd kv) = FULL) (neighbors r) ->
  nb_state (ospf_hello_entry r neighbor_id interface now) = FULL.
Proof.
  intros Hall. unfold ospf_hello_entry.
  destruct (dict_get neighbor_id (neighbors r)) as [info|] eqn:Hget;
    [|reflexivity].
  simpl. destruct (state_eqb (nb_state info) INIT); [reflexivity|].
  apply dict_get_In in Hget. rewrite Forall_forall in Hall.
  apply (Hall _ Hget).
Qed.

(** One call on a sound router returns a sound router of the same id that
    knows at least the origins it knew. *)
Lemma ospf_step_sound r i :
  ospf_sound r ->
  exists r',
    ospf_step r i = Some r'
    /\ ospf_sound r'
    /\ router_id r' = router_id r
    /\ forall origin,
        dict_mem origin (lsdb r) = true -> dict_mem origin (lsdb r') = true.
Proof.
  intros [Hk [Hself [Hn [Hi Hfull]]]].
  destruct i as [interface ip mask cost|neighbor_id interface now
                |lsa from_router|]; simpl.
  - eexists. split; [reflexivity|]. split; [|split].
    + split; [now apply OSPFKeyed.ospf_keyed_add_interface|].
      split; [unfold add_interface, _create_self_lsa; simpl;
              apply dict_mem_set_eq|].
      split; [exact Hn|]. split; [|exact Hfull].
      unfold add_interface, _create_self_lsa. simpl. now apply dict_set_wf.
    + reflexivity.
    + intros origin Ho. unfold add_interface, _create_self_lsa. simpl.
      now apply SPFRooted.dict_mem_set_mono.
  - rewrite OSPFKeyed.ospf_receive_hello_result by exact Hk. cbn [bind fst].
    eexists. split; [reflexivity|]. split; [|split; [reflexivity|auto]].
    split; [exact Hk|]. split; [exact Hself|]. simpl.
    split; [now apply dict_set_wf|]. split; [exact Hi|].
    apply dict_set_Forall; [exact Hfull|]. simpl.
    now apply ospf_hello_entry_full.
  - destruct (OSPFAcceptance.ospf_receive_frame r lsa from_router)
      as [Hid [Hnb [Hif _]]].
    eexists. split; [reflexivity|]. split; [|split; [exact Hid|]].
    + split; [now apply OSPFKeyed.ospf_keyed_receive|].
      split; [rewrite Hid; now apply ospf_receive_keeps_origins|].
      rewrite Hnb, Hif. auto.
    + intros origin. apply ospf_receive_keeps_origins.
  - destruct (OSPFTotal.ospf_calculate_spf_returns r) as [r' Hr'].
    destruct (OSPFTotal.ospf_calculate_spf_frame r r' Hr')
      as [Hid [Hnb [Hdb Hif]]].
    exists r'. split; [exact Hr'|]. split; [|split; [exact Hid|]].
    + unfold ospf_sound. rewrite Hid, Hnb, Hdb, Hif. auto.
    + intros origin. now rewrite Hdb.
Qed.

Lemma ospf_new_router_sound rid area : ospf_sound (new_router rid area).
Proof.
  split; [apply OSPFKeyed.ospf_keyed_new_router|].
  split; [exact (dict_mem_set_eq rid (mkLSA rid 0 [] 0) [])|].
  simpl. repeat split; constructor.
Qed.

Lemma ospf_run_sound inputs : forall r,
  ospf_sound r ->
  exists r',
    ospf_run inputs r = Some r'
    /\ ospf_sound r'
    /\ router_id r' = router_id r
    /\ forall origin,
        dict_mem origin (lsdb r) = true -> dict_mem origin (lsdb r') = true.
Proof.
  induction inputs as [|i rest IH]; intros r Hs; simpl.
  - exists r. auto.
  - destruct (ospf_step_sound r i Hs) as [r1 [-> [Hs1 [Hid1 Hkeep1]]]].
    cbn [bind]. destruct (IH r1 Hs1) as [r' [Hrun [Hs' [Hid' Hkeep']]]].
    exists r'. split; [exact Hrun|]. split; [exact Hs'|].
    split; [congruence|auto].
Qed.

End OSPFReach.

(** X5. From a new router, every sequence of [add_interface],
    [receive_hello], [receive_lsa] and [calculate_spf] calls returns
    without an exception.  In the state it reaches the LSDB binds no origin
    twice, stores every record under the record's own origin and holds the
    router's own record; Neighbor and Interface Table have distinct keys;
    and every neighbor is FULL: the states between INIT and FULL are never
    left behind by a call. *)
Theorem ospf_calls_never_raise :
  forall (rid area : string) (inputs : list ospf_input),
  exists r,
    ospf_run inputs (OSPF.new_router rid area) = Some r
    /\ OSPF.router_id r = rid
    /\ ospf_lsdb_keyed (OSPF.lsdb r)
    /\ dict_mem rid (OSPF.lsdb r) = true
    /\ dict_wf (OSPF.neighbors r)
    /\ dict_wf (OSPF.interfaces r)
    /\ forall neighbor_id,
        ospf_neighbor_state neighbor_id r = None
        \/ ospf_neighbor_state neighbor_id r = Some OSPF.FULL.
Proof.
  intros rid area inputs.
  destruct (OSPFReach.ospf_run_sound inputs (OSPF.new_router rid area)
              (OSPFReach.ospf_new_router_sound rid area))
    as [r [Hrun [[Hk [Hself [Hn [Hi Hfull]]]] [Hid _]]]].
  exists r. simpl in Hid. rewrite Hid in Hself.
  repeat split; try assumption; try apply Hk.
  intros neighbor_id. unfold ospf_neighbor_state.
  destruct (dict_get neighbor_id (OSPF.neighbors r)) as [info|] eqn:Hget;
    [right|now left].
  apply dict_get_In in Hget. rewrite Forall_forall in Hfull.
  simpl. f_equal. apply (Hfull _ Hget).
Qed.

(** X6. The LSDB never loses an origin: whatever calls a router receives,
    an origin that is in its LSDB stays there (no operation of the router
    removes or ages out a record). *)
Theorem ospf_lsdb_never_shrinks :
  forall (r : OSPF.OSPFRouter) (inputs : list ospf_input),
    ospf_sound r ->
    exists r',
      ospf_run inputs r = Some r'
      /\ forall origin,
          dict_mem origin (OSPF.lsdb r) = true ->
          dict_mem origin (OSPF.lsdb r') = true.
Proof.
  intros r inputs Hs.
  destruct (OSPFReach.ospf_run_sound inputs r Hs) as [r' [Hrun [_ [_ Hkeep]]]].
  exists r'. auto.
Qed.

(** Router A of the connected pair, after a record of B, a hello, a new
    interface and a recomputation, still knows A and B. *)
Lemma ospf_lsdb_never_shrinks_witness :
  let r := fst (OSPF.receive_lsa pair_router_A (OSPF.mkLSA "B" 0 [] 0) "B") in
  let inputs :=
    [OHello "C" "eth1" 5%Z; OAddInterface "eth1" "10.1.13.1" "255.255.255.0" 10%Z;
     ODeliver (OSPF.mkLSA "C" 2 [] 0) "C"; OCalculateSpf] in
  exists r',
    ospf_run inputs r = Some r'
    /\ dict_mem "A" (OSPF.lsdb r') = true
    /\ dict_mem "B" (OSPF.lsdb r') = true.
Proof.
  intros r inputs.
  assert (Hs : ospf_sound r).
  { split; [split|].
    - repeat constructor; simpl; intuition discriminate.
    - repeat constructor.
    - split; [reflexivity|]. repeat split; repeat constructor; simpl; tauto. }
  destruct (ospf_lsdb_never_shrinks r inputs Hs) as [r' [Hrun Hkeep]].
  exists r'. split; [exact Hrun|]. split; apply Hkeep; reflexivity.
Defined.

(* ------------------------------------------------------------------ *)
(** ** Link failure *)

Section DictDelete.
Context {V : Type}.
Implicit Types (d : dict V) (k : string).

Lemma dict_get_del_neq k k' d :
  k <> k' -> dict_get k' (dict_del k d) = dict_get k' d.
Proof.
  intros Hne. induction d as [|[k0 v0] t IH]; simpl; [reflexivity|].
  destruct (String.eqb_spec k k0) as [<-|Hk].
  - destruct (String.eqb_spec k' k); [congruence|reflexivity].
  - simpl. now rewrite IH.
Qed.

Lemma dict_get_del_eq k d : dict_wf d -> dict_get k (dict_del k d) = None.
Proof.
  unfold dict_wf. induction d as [|[k0 v0] t IH]; simpl; [reflexivity|].
  intros Hnd. inversion Hnd as [|? ? Hnot Hnd']; subst.
  destruct (String.eqb_spec k k0) as [<-|Hk].
  - destruct (dict_get k t) eqn:E; [|reflexivity].
    apply dict_get_key_In in E. contradiction.
  - simpl. destruct (String.eqb_spec k k0); [congruence|]. now apply IH.
Qed.

Lemma dict_del_absent k d : dict_mem k d = false -> dict_del k d = d.
Proof.
  unfold dict_mem. induction d as [|[k0 v0] t IH]; simpl; [reflexivity|].
  destruct (String.eqb k k0); [discriminate|].
  intros H. now rewrite IH.
Qed.

End DictDelete.

Lemma set_mem_discard_eq x s : set_mem x (set_discard x s) = false.
Proof.
  destruct (set_mem x (set_discard x s)) eqn:E; [|reflexivity].
  apply set_mem_In, set_discard_In in E. tauto.
Qed.

Lemma set_mem_discard_neq x y s :
  x <> y -> set_mem y (set_discard x s) = set_mem y s.
Proof.
  intros Hne. destruct (set_mem y s) eqn:E.
  - apply set_mem_In. apply set_discard_In. split; [|assumption].
    now apply set_mem_In.
  - destruct (set_mem y (set_discard x s)) eqn:E'; [|reflexivity].
    apply set_mem_In, set_discard_In in E'. destruct E' as [Hin _].
    apply set_mem_In in Hin. congruence.
Qed.

Module NetTrack.
Import OSPF OSPFNet.

(** A call that succeeds on the router under [rid] replaces that router
    and nothing else. *)
Lemma on_router_track rid f net r r' :
  dict_get rid (routers net) = Some r ->
  f r = Some r' ->
  exists net',
    on_router rid f net = Some net'
    /\ dict_get rid (routers net') = Some r'
    /\ (forall other, other <> rid ->
          dict_get other (routers net') = dict_get other (routers net))
    /\ links net' = links net
    /\ dict_keys (routers net') = dict_keys (routers net).
Proof.
  intros Hget Hf. unfold on_router. rewrite Hget. cbn [bind]. rewrite Hf.
  cbn [bind]. eexists. split; [reflexivity|]. simpl.
  split; [apply dict_get_set_eq|]. split; [|split; [reflexivity|]].
  - intros other Hne. apply dict_get_set_neq. congruence.
  - apply dict_set_keys_present. unfold dict_mem. now rewrite Hget.
Qed.

Lemma drop_neighbor_result peer r :
  drop_neighbor peer r
  = Some (with_neighbors r (dict_del peer (neighbors r))).
Proof.
  unfold drop_neighbor. destruct (dict_mem peer (neighbors r)) eqn:E;
    [reflexivity|].
  rewrite dict_del_absent by assumption. now destruct r.
Qed.

Lemma detached_lookup peer (ifs : dict InterfaceInfo) :
  SPF._get_interface_to_neighbor
    (map (fun item =>
            (fst item,
             mkInterfaceInfo (if_ip (snd item)) (if_mask (snd item))
               (if_cost (snd item))
               (set_discard peer (if_neighbors (snd item)))))
       ifs) peer
  = None.
Proof.
  induction ifs as [|[name info] t IH]; simpl; [reflexivity|].
  now rewrite set_mem_discard_eq.
Qed.

End NetTrack.

(** X7. [simulate_link_failure] between two known, distinct routers takes
    each out of the other's Neighbor Table and out of the neighbor sets of
    all the other's interfaces, so no interface resolves for the lost peer.
    It floods no withdrawal: the LSDBs and Routing Tables of both routers,
    all other routers and the list of links stay as they were.  When one of
    the ids is unknown the network is returned unchanged, without error. *)
Theorem link_failure_effect :
  forall (net : OSPFNet.OSPFNetwork) (router1_id router2_id : string),
    (dict_mem router1_id (OSPFNet.routers net) = false
     \/ dict_mem router2_id (OSPFNet.routers net) = false ->
     OSPFNet.simulate_link_failure net router1_id router2_id = Some net)
    /\ (forall a b,
           router1_id <> router2_id ->
           dict_get router1_id (OSPFNet.routers net) = Some a ->
           dict_get router2_id (OSPFNet.routers net) = Some b ->
           dict_wf (OSPF.neighbors a) ->
           dict_wf (OSPF.neighbors b) ->
           exists net',
             OSPFNet.simulate_link_failure net router1_id router2_id
             = Some net'
             /\ dict_get router1_id (OSPFNet.routers net')
                = Some (ospf_after_failure router2_id a)
             /\ dict_get router2_id (OSPFNet.routers net')
                = Some (ospf_after_failure router1_id b)
             /\ ospf_neighbor_state router2_id
                  (ospf_after_failure router2_id a) = None
             /\ ospf_neighbor_state router1_id
                  (ospf_after_failure router1_id b) = None
             /\ OSPF._get_interface_to_neighbor
                  (ospf_after_failure router2_id a) router2_id = None
             /\ OSPF._get_interface_to_neighbor
                  (ospf_after_failure router1_id b) router1_id = None
             /\ OSPF.lsdb (ospf_after_failure router2_id a) = OSPF.lsdb a
             /\ OSPF.routing_table (ospf_after_failure router2_id a)
                = OSPF.routing_table a
             /\ (forall other,
                    other <> router2_id ->
                    ospf_neighbor_state other (ospf_after_failure router2_id a)
                    = ospf_neighbor_state other a)
             /\ (forall other,
                    other <> router1_id -> other <> router2_id ->
                    dict_get other (OSPFNet.routers net')
                    = dict_get other (OSPFNet.routers net))
             /\ OSPFNet.links net' = OSPFNet.links net).
Proof.
  intros net r1 r2. split.
  - intros H. unfold OSPFNet.simulate_link_failure.
    destruct H as [H|H]; rewrite H; [reflexivity|].
    now rewrite andb_false_r.
  - intros a b Hne Ha Hb Hwa Hwb. unfold OSPFNet.simulate_link_failure.
    unfold dict_mem. rewrite Ha, Hb. cbn [andb].
    destruct (NetTrack.on_router_track r1 (OSPFNet.drop_neighbor r2) net a _
                Ha (NetTrack.drop_neighbor_result r2 a))
      as [n1 [-> [Ha1 [Ho1 [Hl1 _]]]]].
    cbn [bind].
    assert (Hb1 : dict_get r2 (OSPFNet.routers n1) = Some b).
    { rewrite Ho1 by congruence. exact Hb. }
    destruct (NetTrack.on_router_track r2 (OSPFNet.drop_neighbor r1) n1 b _
                Hb1 (NetTrack.drop_neighbor_result r1 b))
      as [n2 [-> [Hb2 [Ho2 [Hl2 _]]]]].
    cbn [bind].
    assert (Ha2 : dict_get r1 (OSPFNet.routers n2)
                  = Some (OSPF.with_neighbors a
                            (dict_del r2 (OSPF.neighbors a)))).
    { rewrite Ho2 by congruence. exact Ha1. }
    destruct (NetTrack.on_router_track r1 (OSPFNet.detach_neighbor r2) n2 _ _
                Ha2 eq_refl)
      as [n3 [-> [Ha3 [Ho3 [Hl3 _]]]]].
    cbn [bind].
    assert (Hb3 : dict_get r2 (OSPFNet.routers n3)
                  = Some (OSPF.with_neighbors b
                            (dict_del r1 (OSPF.neighbors b)))).
    { rewrite Ho3 by congruence. exact Hb2. }
    destruct (NetTrack.on_router_track r2 (OSPFNet.detach_neighbor r1) n3 _ _
                Hb3 eq_refl)
      as [n4 [-> [Hb4 [Ho4 [Hl4 _]]]]].
    exists n4. split; [reflexivity|].
    split; [rewrite Ho4 by congruence; exact Ha3|].
    split; [exact Hb4|].
    split; [unfold ospf_neighbor_state, ospf_after_failure; simpl;
            now rewrite dict_get_del_eq|].
    split; [unfold ospf_neighbor_state, ospf_after_failure; simpl;
            now rewrite dict_get_del_eq|].
    split; [apply NetTrack.detached_lookup|].
    split; [apply NetTrack.detached_lookup|].
    split; [reflexivity|]. split; [reflexivity|].
    split.
    + intros other Ho. unfold ospf_neighbor_state, ospf_after_failure. simpl.
      rewrite dict_get_del_neq by congruence. reflexivity.
    + split; [|congruence].
      intros other H1 H2.
      rewrite Ho4, Ho3, Ho2, Ho1 by assumption. reflexivity.
Qed.

(** The connected pair A, B loses its link. *)
Lemma link_failure_effect_witness :
  exists net net',
    pair_A_B = Some net
    /\ OSPFNet.simulate_link_failure net "A" "B" = Some net'
    /\ neighbor_states_of "A" (Some net) = Some [("B", OSPF.FULL)]
    /\ neighbor_states_of "A" (Some net') = Some []
    /\ origins_of "A" (Some net') = origins_of "A" (Some net).
Proof.
  destruct pair_A_B as [net|] eqn:Hnet; [|vm_compute in Hnet; discriminate].
  assert (Hnet' : Some net = pair_A_B) by (symmetry; exact Hnet).
  vm_compute in Hnet'. injection Hnet' as Hnet'.
  destruct (dict_get "A" (OSPFNet.routers net)) as [a|] eqn:Ha;
    [|rewrite Hnet' in Ha; discriminate].
  destruct (dict_get "B" (OSPFNet.routers net)) as [b|] eqn:Hb;
    [|rewrite Hnet' in Hb; discriminate].
  destruct (proj2 (link_failure_effect net "A" "B") a b) as [net' [H1 [H2 _]]];
    try assumption; try discriminate.
  - rewrite Hnet' in Ha. injection Ha as <-.
    repeat constructor; simpl; tauto.
  - rewrite Hnet' in Hb. injection Hb as <-.
    repeat constructor; simpl; tauto.
  - exists net, net'. split; [reflexivity|]. split; [exact H1|].
    unfold neighbor_states_of, origins_of. cbn [bind]. rewrite Ha, H2.
    cbn [bind]. rewrite Hnet' in Ha. injection Ha as <-.
    repeat split.
Defined.

(** X8. After a link failure, the next [calculate_spf] of a router that
    knows at least two origins builds a table in which no route has the
    lost peer as next hop, although the LSDB it computes from is the one
    from before the failure. *)
Theorem no_route_via_lost_neighbor :
  forall (a : OSPF.OSPFRouter) (peer : string),
    dict_wf (OSPF.neighbors a) ->
    2 <= length (OSPF.lsdb a) ->
    exists a',
      OSPF.calculate_spf (ospf_after_failure peer a) = Some a'
      /\ OSPF.lsdb a' = OSPF.lsdb a
      /\ forall prefix route,
          dict_get prefix (OSPF.routing_table a') = Some route ->
          OSPF.rt_next_hop route <> peer.
Proof.
  intros a peer Hwf Hlen.
  destruct (OSPFTotal.ospf_calculate_spf_returns (ospf_after_failure peer a))
    as [a' Ha'].
  exists a'. split; [exact Ha'|].
  destruct (OSPFTotal.ospf_calculate_spf_frame _ _ Ha') as [_ [_ [Hdb _]]].
  split; [exact Hdb|].
  intros prefix route Hget Hnh.
  unfold OSPF.calculate_spf in Ha'.
  change (OSPF.lsdb (ospf_after_failure peer a)) with (OSPF.lsdb a) in Ha'.
  destruct (Nat.ltb_spec (length (OSPF.lsdb a)) 2) as [Hlt|_]; [lia|].
  cbv zeta in Ha'.
  destruct (OSPFRoutes.ospf_built_routes _ _ _ _ Ha' _ _ Hget)
    as [dest [_ [_ Hrf]]].
  destruct (OSPFRoutes.ospf_route_for_emits _ _ _ _ _ Hrf)
    as [_ [_ [_ [Hmem _]]]].
  rewrite Hnh in Hmem. unfold dict_mem, ospf_after_failure in Hmem.
  simpl in Hmem. rewrite dict_get_del_eq in Hmem by assumption.
  discriminate.
Qed.

(** Router A of the line, its records exchanged, loses B: the table it
    computes next has no route through B. *)
Lemma no_route_via_lost_neighbor_witness :
  let a := match do n <- line_AB_then_BC_exchanged;
                 dict_get "A" (OSPFNet.routers n) with
           | Some a => a
           | None => OSPF.new_router "A" OSPFNet.default_area
           end in
  length (OSPF.lsdb a) = 3
  /\ exists a',
      OSPF.calculate_spf (ospf_after_failure "B" a) = Some a'
      /\ forall prefix route,
          dict_get prefix (OSPF.routing_table a') = Some route ->
          OSPF.rt_next_hop route <> "B".
Proof.
  intros a. split; [reflexivity|].
  destruct (no_route_via_lost_neighbor a "B") as [a' [H1 [_ H2]]].
  - repeat constructor; simpl; tauto.
  - vm_compute. lia.
  - exists a'. auto.
Defined.

(* ------------------------------------------------------------------ *)
(** ** The exchange loop of the demos *)

Module ExchangeFacts.
Import OSPF OSPFNet.

Lemma dict_set_same {V : Type} (k : string) (v : V) (d : dict V) :
  dict_get k d = Some v -> dict_set k v d = d.
Proof.
  induction d as [|[k0 v0] t IH]; simpl; [discriminate|].
  destruct (String.eqb_spec k k0) as [->|Hne].
  - now intros [= ->].
  - intros H. now rewrite IH.
Qed.

Lemma pull_fold_is_receive_all from_router items : forall r,
  fold_left (fun acc item => fst (receive_lsa acc (snd item) from_router))
    items r
  = ospf_receive_all (map (fun item : string * LSA => (snd item, from_router))
                        items) r.
Proof.
  unfold ospf_receive_all.
  induction items as [|item t IH]; intros r; simpl; [reflexivity|apply IH].
Qed.

(** After a run of deliveries the LSDB holds, for every delivered record,
    a record of that origin with at least its sequence. *)
Lemma ospf_receive_all_bound records : forall r lsa from_router,
  In (lsa, from_router) records ->
  exists s,
    ospf_stored_sequence (lsa_router_id lsa) (ospf_receive_all records r)
    = Some s
    /\ (lsa_sequence lsa <= s)%Z.
Proof.
  induction records as [|[l f] t IH]; intros r lsa from_router Hin;
    [destruct Hin|].
  destruct Hin as [Heq|Hin].
  - injection Heq as -> ->.
    destruct (OSPFAcceptance.ospf_receive_bound r lsa from_router)
      as [stored [Hget Hle]].
    destruct (OSPFSequence.ospf_stored_monotone t
                (fst (receive_lsa r lsa from_router)) (lsa_router_id lsa)
                (lsa_sequence stored))
      as [s [Hs Hle']].
    { unfold ospf_stored_sequence. now rewrite Hget. }
    exists s. split; [exact Hs|lia].
  - apply (IH (fst (receive_lsa r l f)) lsa from_router Hin).
Qed.

(** Records the LSDB already dominates change nothing. *)
Lemma ospf_receive_all_noop records : forall r,
  (forall lsa from_router,
      In (lsa, from_router) records ->
      exists s, ospf_stored_sequence (lsa_router_id lsa) r = Some s
                /\ (lsa_sequence lsa <= s)%Z) ->
  ospf_receive_all records r = r.
Proof.
  unfold ospf_receive_all.
  induction records as [|[l f] t IH]; intros r H; simpl; [reflexivity|].
  destruct (H l f (or_introl eq_refl)) as [s [Hs Hle]].
  unfold ospf_stored_sequence in Hs.
  destruct (dict_get (lsa_router_id l) (lsdb r)) as [stored|] eqn:Hget;
    [|discriminate].
  simpl in Hs. injection Hs as <-.
  rewrite (OSPFAcceptance.ospf_receive_discards r l f stored Hget Hle).
  simpl. apply IH. intros lsa from_router Hin. apply (H lsa from_router).
  now right.
Qed.

End ExchangeFacts.

(** X9. One step of the exchange loop of the demos: a router receives all
    records of a neighbor's LSDB.  Afterwards its LSDB holds, for each of
    those records, a record of the same origin with a sequence at least as
    high, and none of its own sequences went down; the neighbor's router is
    untouched, and repeating the step changes nothing. *)
Theorem exchange_pull_dominates :
  forall (net : OSPFNet.OSPFNetwork) (rid neighbor_id : string)
         (dst src : OSPF.OSPFRouter),
    rid <> neighbor_id ->
    dict_get rid (OSPFNet.routers net) = Some dst ->
    dict_get neighbor_id (OSPFNet.routers net) = Some src ->
    exists net' dst',
      OSPFNet.pull_from rid neighbor_id net = Some net'
      /\ dict_get rid (OSPFNet.routers net') = Some dst'
      /\ dict_get neighbor_id (OSPFNet.routers net') = Some src
      /\ (forall key lsa,
             In (key, lsa) (OSPF.lsdb src) ->
             exists s,
               ospf_stored_sequence (OSPF.lsa_router_id lsa) dst' = Some s
               /\ (OSPF.lsa_sequence lsa <= s)%Z)
      /\ (forall origin s,
             ospf_stored_sequence origin dst = Some s ->
             exists s',
               ospf_stored_sequence origin dst' = Some s' /\ (s <= s')%Z)
      /\ OSPFNet.pull_from rid neighbor_id net' = Some net'.
Proof.
  intros net rid nid dst src Hne Hdst Hsrc.
  set (records := map (fun item : string * OSPF.LSA => (snd item, nid))
                    (OSPF.lsdb src)).
  set (dst' := ospf_receive_all records dst).
  assert (Hpull : forall n d,
             dict_get rid (OSPFNet.routers n) = Some d ->
             dict_get nid (OSPFNet.routers n) = Some src ->
             OSPFNet.pull_from rid nid n
             = Some (OSPFNet.mkNetwork
                       (dict_set rid (ospf_receive_all records d)
                          (OSPFNet.routers n))
                       (OSPFNet.links n))).
  { intros n d Hd Hs. unfold OSPFNet.pull_from.
    destruct (String.eqb_spec rid nid); [congruence|].
    rewrite Hs. cbn [bind]. unfold OSPFNet.on_router. rewrite Hd.
    cbn [bind]. now rewrite ExchangeFacts.pull_fold_is_receive_all. }
  assert (Hdom : forall key lsa,
             In (key, lsa) (OSPF.lsdb src) ->
             exists s,
               ospf_stored_sequence (OSPF.lsa_router_id lsa) dst' = Some s
               /\ (OSPF.lsa_sequence lsa <= s)%Z).
  { intros key lsa Hin.
    apply (ExchangeFacts.ospf_receive_all_bound records dst lsa nid).
    unfold records. apply in_map_iff. exists (key, lsa). auto. }
  eexists. exists dst'. split; [apply (Hpull net dst Hdst Hsrc)|]. simpl.
  split; [apply dict_get_set_eq|].
  split; [rewrite dict_get_set_neq by assumption; exact Hsrc|].
  split; [exact Hdom|]. split.
  - intros origin s Hs.
    now apply OSPFSequence.ospf_stored_monotone.
  - rewrite (Hpull _ dst'); simpl.
    + rewrite dict_set_set. f_equal. f_equal. f_equal.
      apply ExchangeFacts.ospf_receive_all_noop.
      intros lsa f Hin. unfold records in Hin. apply in_map_iff in Hin.
      destruct Hin as [[key l] [Heq Hin]]. injection Heq as <- _.
      now apply (Hdom key).
    + apply dict_get_set_eq.
    + rewrite dict_get_set_neq by assumption. exact Hsrc.
Qed.

(** In the connected pair, A pulls the one record B holds. *)
Lemma exchange_pull_dominates_witness :
  exists net net' a',
    pair_A_B = Some net
    /\ OSPFNet.pull_from "A" "B" net = Some net'
    /\ dict_get "A" (OSPFNet.routers net') = Some a'
    /\ dict_keys (OSPF.lsdb a') = ["A"; "B"]
    /\ OSPFNet.pull_from "A" "B" net' = Some net'.
Proof.
  destruct pair_A_B as [net|] eqn:Hnet; [|vm_compute in Hnet; discriminate].
  assert (Hnet' : Some net = pair_A_B) by (symmetry; exact Hnet).
  vm_compute in Hnet'. injection Hnet' as Hnet'.
  destruct (dict_get "A" (OSPFNet.routers net)) as [a|] eqn:Ha;
    [|rewrite Hnet' in Ha; discriminate].
  destruct (dict_get "B" (OSPFNet.routers net)) as [b|] eqn:Hb;
    [|rewrite Hnet' in Hb; discriminate].
  destruct (exchange_pull_dominates net "A" "B" a b)
    as [net' [a' [H1 [H2 [_ [_ [_ H6]]]]]]]; try assumption; try discriminate.
  exists net, net', a'. split; [reflexivity|]. split; [exact H1|].
  split; [exact H2|]. split; [|exact H6].
  rewrite Hnet' in H1. vm_compute in H1. injection H1 as <-.
  vm_compute in H2. injection H2 as <-. reflexivity.
Defined.

(* ------------------------------------------------------------------ *)
(** ** [connect_routers] *)

Module ConnectFacts.
Import OSPF OSPFNet.

(** The calls of [connect_routers] on one router, composed. *)
Lemma ospf_connect_side_result r interface ip cost peer now :
  ospf_lsdb_keyed (lsdb r) ->
  ospf_connect_side r interface ip cost peer now
  = Some (ospf_connected r interface ip cost peer now).
Proof.
  intros Hk. unfold ospf_connect_side, append_self_link.
  unfold add_interface, _create_self_lsa.
  cbn [router_id lsdb with_lsdb with_interfaces interfaces].
  rewrite dict_get_set_eq. cbn [bind lsa_router_id lsa_sequence lsa_links
                                  lsa_age].
  rewrite dict_set_set. unfold put_neighbor. cbn [bind].
  unfold attach_neighbor.
  cbn [interfaces with_neighbors with_lsdb with_interfaces].
  rewrite dict_get_set_eq.
  cbn [bind if_ip if_mask if_cost if_neighbors]. rewrite dict_set_set.
  rewrite OSPFKeyed.ospf_receive_hello_result.
  - cbn [bind fst]. unfold ospf_hello_entry.
    cbn [neighbors with_neighbors with_interfaces with_lsdb].
    rewrite dict_get_set_eq. cbn [nb_state state_eqb nb_interface].
    rewrite dict_set_set. reflexivity.
  - cbn [lsdb with_neighbors with_interfaces with_lsdb].
    apply (OSPFKeyed.ospf_keyed_set (lsdb r)
             (mkLSA (router_id r) 0
                (map self_link
                   (dict_set interface
                      (mkInterfaceInfo ip default_mask cost [])
                      (interfaces r))
                 ++ [mkLink interface ip (Some cost) (Some peer)]) 0) Hk).
Qed.

(** The same, with the intermediate routers. *)
Lemma ospf_connect_side_steps r interface ip cost peer now :
  ospf_lsdb_keyed (lsdb r) ->
  exists r2 r3 r4,
    append_self_link (mkLink interface ip (Some cost) (Some peer))
      (add_interface r interface ip default_mask cost) = Some r2
    /\ put_neighbor peer interface now r2 = Some r3
    /\ attach_neighbor interface peer r3 = Some r4
    /\ (do res <- receive_hello r4 peer interface now; Some (fst res))
       = Some (ospf_connected r interface ip cost peer now).
Proof.
  intros Hk.
  pose proof (ospf_connect_side_result r interface ip cost peer now Hk) as H.
  unfold ospf_connect_side in H.
  destruct (append_self_link _ _) as [r2|] eqn:E2; cbn [bind] in H;
    [|discriminate].
  destruct (put_neighbor peer interface now r2) as [r3|] eqn:E3;
    cbn [bind] in H; [|discriminate].
  destruct (attach_neighbor interface peer r3) as [r4|] eqn:E4;
    cbn [bind] in H; [|discriminate].
  exists r2, r3, r4. auto.
Qed.

End ConnectFacts.

(** X10. [connect_routers] raises (here: [None]) when one of the two ids
    is not in the network.  For two distinct known routers it succeeds and
    leaves, on each side, the interface created afresh with the other
    router as its only neighbor, the other router as a FULL neighbor on
    that interface, and a self record rebuilt from the interfaces with one
    last link that names the other router; it appends the link to the
    network's list and touches no other router. *)
Theorem connect_routers_effect :
  forall (net : OSPFNet.OSPFNetwork) (router1_id router2_id : string)
         (interface1 interface2 ip1 ip2 : string) (cost : Z)
         (now : timestamp),
    (dict_mem router1_id (OSPFNet.routers net) = false
     \/ dict_mem router2_id (OSPFNet.routers net) = false ->
     OSPFNet.connect_routers net router1_id router2_id interface1 interface2
       ip1 ip2 cost now = None)
    /\ (forall a b,
           router1_id <> router2_id ->
           dict_get router1_id (OSPFNet.routers net) = Some a ->
           dict_get router2_id (OSPFNet.routers net) = Some b ->
           ospf_lsdb_keyed (OSPF.lsdb a) ->
           ospf_lsdb_keyed (OSPF.lsdb b) ->
           exists net',
             OSPFNet.connect_routers net router1_id router2_id interface1
               interface2 ip1 ip2 cost now = Some net'
             /\ dict_get router1_id (OSPFNet.routers net')
                = Some (ospf_connected a interface1 ip1 cost router2_id now)
             /\ dict_get router2_id (OSPFNet.routers net')
                = Some (ospf_connected b interface2 ip2 cost router1_id now)
             /\ (forall other,
                    other <> router1_id -> other <> router2_id ->
                    dict_get other (OSPFNet.routers net')
                    = dict_get other (OSPFNet.routers net))
             /\ dict_keys (OSPFNet.routers net')
                = dict_keys (OSPFNet.routers net)
             /\ OSPFNet.links net'
                = OSPFNet.links net
                  ++ [(router1_id, router2_id, interface1, interface2)]).
Proof.
  intros net r1 r2 if1 if2 ip1 ip2 cost now. split.
  - intros H. unfold OSPFNet.connect_routers.
    destruct H as [H|H]; rewrite H; [reflexivity|].
    now rewrite orb_true_r.
  - intros a b Hne Ha Hb Hka Hkb. unfold OSPFNet.connect_routers.
    unfold dict_mem. rewrite Ha, Hb. cbn [negb orb].
    destruct (ConnectFacts.ospf_connect_side_steps a if1 ip1 cost r2 now Hka)
      as [a2 [a3 [a4 [Ea2 [Ea3 [Ea4 Ea5]]]]]].
    destruct (ConnectFacts.ospf_connect_side_steps b if2 ip2 cost r1 now Hkb)
      as [b2 [b3 [b4 [Eb2 [Eb3 [Eb4 Eb5]]]]]].
    (* add_interface on both *)
    destruct (NetTrack.on_router_track r1
                (fun r => Some (OSPF.add_interface r if1 ip1
                                  OSPF.default_mask cost))
                net a (OSPF.add_interface a if1 ip1 OSPF.default_mask cost)
                Ha eq_refl)
      as [n1 [-> [Ha1 [Ho1 [Hl1 Hk1]]]]].
    cbn [bind].
    assert (Hb1 : dict_get r2 (OSPFNet.routers n1) = Some b)
      by (rewrite Ho1 by congruence; exact Hb).
    destruct (NetTrack.on_router_track r2
                (fun r => Some (OSPF.add_interface r if2 ip2
                                  OSPF.default_mask cost))
                n1 b (OSPF.add_interface b if2 ip2 OSPF.default_mask cost)
                Hb1 eq_refl)
      as [n2 [-> [Hb2 [Ho2 [Hl2 Hk2]]]]].
    cbn [bind].
    set (n2' := OSPFNet.mkNetwork (OSPFNet.routers n2)
                  (OSPFNet.links n2 ++ [(r1, r2, if1, if2)])).
    assert (Ha2 : dict_get r1 (OSPFNet.routers n2')
                  = Some (OSPF.add_interface a if1 ip1 OSPF.default_mask cost))
      by (simpl; rewrite Ho2 by congruence; exact Ha1).
    (* append_self_link on both *)
    destruct (NetTrack.on_router_track r1
                (OSPFNet.append_self_link
                   (OSPF.mkLink if1 ip1 (Some cost) (Some r2)))
                n2' _ a2 Ha2 Ea2)
      as [n3 [-> [Ha3 [Ho3 [Hl3 Hk3]]]]].
    cbn [bind].
    assert (Hb3 : dict_get r2 (OSPFNet.routers n3)
                  = Some (OSPF.add_interface b if2 ip2 OSPF.default_mask cost))
      by (rewrite Ho3 by congruence; exact Hb2).
    destruct (NetTrack.on_router_track r2
                (OSPFNet.append_self_link
                   (OSPF.mkLink if2 ip2 (Some cost) (Some r1)))
                n3 _ b2 Hb3 Eb2)
      as [n4 [-> [Hb4 [Ho4 [Hl4 Hk4]]]]].
    cbn [bind].
    (* neighbor entry and interface set of router1 *)
    assert (Ha4 : dict_get r1 (OSPFNet.routers n4) = Some a2)
      by (rewrite Ho4 by congruence; exact Ha3).
    destruct (NetTrack.on_router_track r1 (OSPFNet.put_neighbor r2 if1 now)
                n4 a2 a3 Ha4 Ea3)
      as [n5 [-> [Ha5 [Ho5 [Hl5 Hk5]]]]].
    cbn [bind].
    destruct (NetTrack.on_router_track r1 (OSPFNet.attach_neighbor if1 r2)
                n5 a3 a4 Ha5 Ea4)
      as [n6 [-> [Ha6 [Ho6 [Hl6 Hk6]]]]].
    cbn [bind].
    (* the same for router2 *)
    assert (Hb6 : dict_get r2 (OSPFNet.routers n6) = Some b2)
      by (rewrite Ho6, Ho5 by congruence; exact Hb4).
    destruct (NetTrack.on_router_track r2 (OSPFNet.put_neighbor r1 if2 now)
                n6 b2 b3 Hb6 Eb3)
      as [n7 [-> [Hb7 [Ho7 [Hl7 Hk7]]]]].
    cbn [bind].
    destruct (NetTrack.on_router_track r2 (OSPFNet.attach_neighbor if2 r1)
                n7 b3 b4 Hb7 Eb4)
      as [n8 [-> [Hb8 [Ho8 [Hl8 Hk8]]]]].
    cbn [bind].
    (* the two hellos *)
    assert (Ha8 : dict_get r1 (OSPFNet.routers n8) = Some a4)
      by (rewrite Ho8, Ho7 by congruence; exact Ha6).
    destruct (NetTrack.on_router_track r1
                (fun r => do res <- OSPF.receive_hello r r2 if1 now;
                          Some (fst res))
                n8 a4 _ Ha8 Ea5)
      as [n9 [-> [Ha9 [Ho9 [Hl9 Hk9]]]]].
    cbn [bind].
    assert (Hb9 : dict_get r2 (OSPFNet.routers n9) = Some b4)
      by (rewrite Ho9 by congruence; exact Hb8).
    destruct (NetTrack.on_router_track r2
                (fun r => do res <- OSPF.receive_hello r r1 if2 now;
                          Some (fst res))
                n9 b4 _ Hb9 Eb5)
      as [n10 [-> [Hb10 [Ho10 [Hl10 Hk10]]]]].
    exists n10. split; [reflexivity|].
    split; [rewrite Ho10 by congruence; exact Ha9|].
    split; [exact Hb10|]. split; [|split].
    + intros other H1 H2.
      rewrite Ho10, Ho9, Ho8, Ho7, Ho6, Ho5, Ho4, Ho3 by assumption.
      simpl. rewrite Ho2, Ho1 by assumption. reflexivity.
    + rewrite Hk10, Hk9, Hk8, Hk7, Hk6, Hk5, Hk4, Hk3. simpl.
      now rewrite Hk2, Hk1.
    + rewrite Hl10, Hl9, Hl8, Hl7, Hl6, Hl5, Hl4, Hl3. simpl.
      now rewrite Hl2, Hl1.
Qed.

(** A and B, fresh, are connected. *)
Lemma connect_routers_effect_witness :
  exists net',
    pair_A_B = Some net'
    /\ dict_get "A" (OSPFNet.routers net')
       = Some (ospf_connected (OSPF.new_router "A" OSPFNet.default_area)
                 "eth0" "10.1.12.1" 10%Z "B" 0%Z)
    /\ OSPFNet.links net' = [("A", "B", "eth0", "eth0")].
Proof.
  destruct (proj2 (connect_routers_effect two_routers "A" "B" "eth0" "eth0"
                     "10.1.12.1" "10.1.12.2" 10%Z 0%Z)
              (OSPF.new_router "A" OSPFNet.default_area)
              (OSPF.new_router "B" OSPFNet.default_area))
    as [net' [H1 [H2 [_ [_ [_ H3]]]]]].
  - discriminate.
  - reflexivity.
  - reflexivity.
  - apply OSPFKeyed.ospf_keyed_new_router.
  - apply OSPFKeyed.ospf_keyed_new_router.
  - exists net'. split; [exact H1|]. split; [exact H2|exact H3].
Defined.

(* ------------------------------------------------------------------ *)
(** ** The distances of the shortest-path loop are path costs *)

Module SPFPaths.
Import SPF SPFLoop.

(** One relaxation keeps the invariant; [current] is visited and has the
    distance [wc]. *)
Lemma relax_edge_path_inv self_id g nodes current wc unvisited
      distances previous e :
  path_inv self_id g nodes distances previous unvisited ->
  ~ In current unvisited ->
  dict_get current distances = Some (Fin wc) ->
  edge g current (fst e) (snd e) ->
  path_inv self_id g nodes
    (fst (relax_edge current unvisited (distances, previous) e))
    (snd (relax_edge current unvisited (distances, previous) e)) unvisited
  /\ dict_get current
       (fst (relax_edge current unvisited (distances, previous) e))
     = Some (Fin wc).
Proof.
  intros Hinv Hcur Hwc Hedge. unfold relax_edge. destruct e as [n c].
  simpl in Hedge.
  destruct (set_mem n unvisited) eqn:Hmem; [|split; assumption].
  match goal with
  | |- context [if ?b then _ else _] => destruct b
  end; [|split; assumption].
  cbn [fst snd]. rewrite Hwc. cbn [dist_add].
  apply set_mem_In in Hmem.
  assert (Hne : n <> current) by (intros ->; tauto).
  destruct Hinv as [H1 [H2 [H3 [H4 [H5 H6]]]]].
  assert (Hself : n <> self_id).
  { intros ->. specialize (H6 Hmem). rewrite H6 in Hwc. simpl in Hwc.
    destruct (String.eqb_spec current self_id) as [->|]; [tauto|discriminate]. }
  split; [|now rewrite dict_get_set_neq].
  split; [|split; [|split; [|split; [|split]]]].
  - intros m d Hget. destruct (String.eqb_spec n m) as [<-|Hnm].
    + rewrite dict_get_set_eq in Hget. injection Hget as <-.
      exists (wc + c)%Z. split; [reflexivity|].
      destruct (H1 _ _ Hwc) as [w [Hw Hr]]. injection Hw as <-.
      econstructor; eassumption.
    + rewrite dict_get_set_neq in Hget by assumption. eauto.
  - intros m p Hget. destruct (String.eqb_spec n m) as [<-|Hnm].
    + rewrite dict_get_set_eq in Hget. injection Hget as <-.
      split; [assumption|]. exists wc, c.
      rewrite dict_get_set_neq by assumption.
      rewrite dict_get_set_eq. auto.
    + rewrite dict_get_set_neq in Hget by assumption.
      destruct (H2 _ _ Hget) as [Hp [wp [c' [Hd1 [Hd2 He]]]]].
      split; [assumption|]. exists wp, c'.
      rewrite !dict_get_set_neq; auto. intros ->. tauto.
  - intros k Hk. destruct (String.eqb_spec n k) as [<-|Hnk].
    + right. auto.
    + rewrite dict_mem_set_neq in Hk by assumption. auto.
  - assumption.
  - now rewrite dict_get_set_neq.
  - intros Hin. specialize (H6 Hin). rewrite H6 in Hwc. simpl in Hwc.
    destruct (String.eqb_spec current self_id) as [->|]; [tauto|discriminate].
Qed.

Lemma relax_fold_path_inv self_id g nodes current wc unvisited es :
  forall distances previous,
    path_inv self_id g nodes distances previous unvisited ->
    ~ In current unvisited ->
    dict_get current distances = Some (Fin wc) ->
    (forall e, In e es -> edge g current (fst e) (snd e)) ->
    path_inv self_id g nodes
      (fst (fold_left (relax_edge current unvisited) es
              (distances, previous)))
      (snd (fold_left (relax_edge current unvisited) es
              (distances, previous))) unvisited.
Proof.
  induction es as [|e t IH]; intros distances previous Hinv Hcur Hwc Hes;
    cbn [fold_left].
  - exact Hinv.
  - destruct (relax_edge_path_inv self_id g nodes current wc unvisited
                distances previous e Hinv Hcur Hwc (Hes e (or_introl eq_refl)))
      as [Hinv' Hwc'].
    destruct (relax_edge current unvisited (distances, previous) e)
      as [d' p'].
    apply IH; auto. intros e' He'. apply Hes. now right.
Qed.

(** Removing the selected vertex from [unvisited] keeps the invariant. *)
Lemma visit_path_inv self_id g nodes current distances previous unvisited :
  path_inv self_id g nodes distances previous unvisited ->
  path_inv self_id g nodes distances previous (set_discard current unvisited).
Proof.
  intros [H1 [H2 [H3 [H4 [H5 H6]]]]].
  assert (Hsub : forall x, In x (set_discard current unvisited) ->
                           In x unvisited).
  { intros x Hx. now apply set_discard_In in Hx. }
  split; [assumption|]. split; [|split; [assumption|split; [|split]]].
  - intros n p Hget. destruct (H2 _ _ Hget) as [Hp Hrest]. split; auto.
  - auto.
  - assumption.
  - auto.
Qed.

Lemma dijkstra_path_inv self_id g nodes :
  forall fuel distances previous unvisited,
    path_inv self_id g nodes distances previous unvisited ->
    exists unvisited',
      path_inv self_id g nodes
        (fst (dijkstra fuel g distances previous unvisited))
        (snd (dijkstra fuel g distances previous unvisited)) unvisited'.
Proof.
  induction fuel as [|fuel IH]; intros distances previous unvisited Hinv.
  - simpl. eauto.
  - rewrite dijkstra_unfold. destruct unvisited as [|u us] eqn:Hu; [eauto|].
    rewrite <- Hu in *.
    destruct (min_key (candidates distances unvisited)) as [current|] eqn:Hmin;
      [|eauto].
    cbv zeta. apply min_key_candidate in Hmin. destruct Hmin as [Hin Hmem].
    assert (Hgone : ~ In current (set_discard current unvisited)).
    { intros Hx. apply set_discard_In in Hx. tauto. }
    pose proof (visit_path_inv self_id g nodes current _ _ _ Hinv) as Hv.
    destruct (dict_get current g) as [edges|] eqn:Hg; [|eapply IH; exact Hv].
    unfold dict_mem in Hmem.
    destruct (dict_get current distances) as [d|] eqn:Hd; [|discriminate].
    destruct Hinv as [H1 _]. destruct (H1 _ _ Hd) as [wc [-> _]].
    eapply IH.
    apply (relax_fold_path_inv self_id g nodes current wc _ edges _ _ Hv
             Hgone Hd).
    intros e He. exists edges. split; [assumption|]. now destruct e.
Qed.

Lemma path_inv_init self_id g nodes :
  path_inv self_id g nodes [(self_id, Fin 0)] [] nodes.
Proof.
  split; [|split; [|split; [|split; [|split]]]].
  - intros n d H. simpl in H.
    destruct (String.eqb_spec n self_id) as [->|]; [|discriminate].
    injection H as <-. exists 0%Z. split; [reflexivity|constructor].
  - intros n p H. discriminate.
  - intros k H. unfold dict_mem in H. simpl in H.
    destruct (String.eqb_spec k self_id); [now left|discriminate].
  - auto.
  - simpl. now rewrite String.eqb_refl.
  - reflexivity.
Qed.

End SPFPaths.

(** X11. Whatever the graph and the costs, every distance the
    shortest-path loop returns is an integer that is the total cost of a
    path of graph edges from the source; the source has distance 0; a
    vertex with a distance is the source or one of the given vertices; and
    every predecessor pointer follows an edge: the distance of a vertex is
    the distance of its predecessor plus the cost of an edge from the
    predecessor to it. *)
Theorem distances_are_path_costs :
  forall (self_id : string) (g : SPF.graph) (nodes : list string),
    let sp := SPF.shortest_paths self_id g nodes in
    dict_get self_id (fst sp) = Some (SPF.Fin 0)
    /\ (forall n d,
           dict_get n (fst sp) = Some d ->
           exists w, d = SPF.Fin w /\ reaches g self_id n w)
    /\ (forall n p,
           dict_get n (snd sp) = Some p ->
           exists wp c,
             dict_get p (fst sp) = Some (SPF.Fin wp)
             /\ dict_get n (fst sp) = Some (SPF.Fin (wp + c))
             /\ edge g p n c)
    /\ (forall n,
           dict_mem n (fst sp) = true -> n = self_id \/ In n nodes).
Proof.
  intros self_id g nodes sp. subst sp. unfold SPF.shortest_paths.
  destruct (SPFPaths.dijkstra_path_inv self_id g nodes (length nodes)
              [(self_id, SPF.Fin 0)] [] nodes
              (SPFPaths.path_inv_init self_id g nodes))
    as [u [H1 [H2 [H3 [_ [H5 _]]]]]].
  split; [exact H5|]. split; [exact H1|]. split; [|exact H3].
  intros n p Hget. destruct (H2 _ _ Hget) as [_ H]. exact H.
Qed.

(* ------------------------------------------------------------------ *)
(** ** With non-negative costs the distances are the least path costs *)

Module SPFShortest.
Import SPF SPFLoop.

Lemma dist_ltb_irrefl a : dist_ltb a a = false.
Proof. destruct a; simpl; [apply Z.ltb_irrefl|reflexivity]. Qed.

Lemma dist_ge_trans a b c :
  dist_ltb a b = false -> dist_ltb b c = false -> dist_ltb a c = false.
Proof.
  destruct a, b, c; simpl; intros H1 H2; try reflexivity; try discriminate.
  apply Z.ltb_ge in H1, H2. apply Z.ltb_ge. lia.
Qed.

Lemma dist_lt_ge a b c :
  dist_ltb a b = true -> dist_ltb a c = false -> dist_ltb b c = false.
Proof.
  destruct a, b, c; simpl; intros H1 H2; try reflexivity; try discriminate.
  apply Z.ltb_lt in H1. apply Z.ltb_ge in H2. apply Z.ltb_ge. lia.
Qed.

(** [min] returns a key whose value no other value is below. *)
Lemma min_from_least l : forall best bv,
  exists v,
    In (min_from best bv l, v) ((best, bv) :: l)
    /\ forall k' v', In (k', v') ((best, bv) :: l) -> dist_ltb v' v = false.
Proof.
  induction l as [|[k v] t IH]; intros best bv; cbn [min_from].
  - exists bv. split; [now left|].
    intros k' v' [[= <- <-]|[]]. apply dist_ltb_irrefl.
  - destruct (dist_ltb v bv) eqn:E.
    + destruct (IH k v) as [v0 [Hin Hle]]. exists v0. split; [now right|].
      intros k' v' [[= <- <-]|Hin'].
      * apply (dist_lt_ge v); [assumption|].
        apply (Hle k). now left.
      * now apply (Hle k').
    + destruct (IH best bv) as [v0 [Hin Hle]]. exists v0. split.
      * destruct Hin as [Hin|Hin]; [now left|right; now right].
      * intros k' v' [Heq|[[= <- <-]|Hin']].
        -- apply (Hle k'). now left.
        -- apply (dist_ge_trans _ bv); [assumption|].
           apply (Hle best). now left.
        -- apply (Hle k'). now right.
Qed.

Lemma min_key_least c k :
  min_key c = Some k ->
  exists v, In (k, v) c
            /\ forall k' v', In (k', v') c -> dist_ltb v' v = false.
Proof.
  destruct c as [|[k0 v0] t]; simpl; [discriminate|].
  intros [= <-]. apply min_from_least.
Qed.

Lemma min_key_none_exhausted distances unvisited :
  min_key (candidates distances unvisited) = None ->
  forall n, In n unvisited -> dict_mem n distances = false.
Proof.
  intros Hmin n Hin. unfold dict_mem.
  destruct (dict_get n distances) as [d|] eqn:Hd; [|reflexivity].
  apply dict_get_In in Hd.
  assert (Hc : In (n, d) (candidates distances unvisited)).
  { unfold candidates. apply filter_In. split; [assumption|].
    now apply set_mem_In. }
  destruct (candidates distances unvisited) as [|[k v] t];
    [destruct Hc|discriminate].
Qed.

Section NonNegative.
Variables (g : graph) (nodes : list string).
Hypothesis Htarget : forall u v c, edge g u v c -> In v nodes.
Hypothesis Hcost : forall u v c, edge g u v c -> (0 <= c)%Z.

(** The edge is relaxed and changes nothing. *)
Lemma relax_keep_opt current wc done distances unvisited n c :
  relax_opt_inv g nodes current wc done distances unvisited ->
  (exists wn, dict_get n distances = Some (Fin wn) /\ (wn <= wc + c)%Z) ->
  relax_opt_inv g nodes current wc (done ++ [(n, c)]) distances unvisited.
Proof.
  intros [Hwf [Hfin [Hsub [R1 [R2 [R3 [R4 [R5 [Hwc Hcur]]]]]]]]] Hn.
  repeat (split; [assumption|]).
  split; [|repeat (split; [assumption|]); assumption].
  intros m c' Hin. apply in_app_or in Hin.
  destruct Hin as [Hin|[[= <- <-]|[]]]; auto.
Qed.

(** The edge is relaxed and gives [n] a smaller distance. *)
Lemma relax_update_opt current wc done distances unvisited n c :
  relax_opt_inv g nodes current wc done distances unvisited ->
  edge g current n c ->
  In n unvisited ->
  (forall wn, dict_get n distances = Some (Fin wn) -> (wc + c < wn)%Z) ->
  relax_opt_inv g nodes current wc (done ++ [(n, c)])
    (dict_set n (Fin (wc + c)) distances) unvisited.
Proof.
  intros [Hwf [Hfin [Hsub [R1 [R2 [R3 [R4 [R5 [Hwc Hcur]]]]]]]]]
         Hedge Hin Hlt.
  assert (Hne : n <> current) by (intros ->; tauto).
  assert (Hvis : forall v, ~ In v unvisited -> n <> v)
    by (intros v Hv ->; tauto).
  pose proof (Hcost _ _ _ Hedge) as Hc.
  split; [now apply dict_set_wf|].
  split.
  { intros m d Hget. destruct (String.eqb_spec n m) as [<-|Hnm].
    - rewrite dict_get_set_eq in Hget. injection Hget as <-. eauto.
    - rewrite dict_get_set_neq in Hget by assumption. eauto. }
  split; [assumption|].
  split.
  { intros m Hm Hv. rewrite dict_mem_set_neq by auto. auto. }
  split.
  { intros v m c' wv Hvc Hv Hget He.
    rewrite dict_get_set_neq in Hget by auto.
    destruct (R2 v m c' wv Hvc Hv Hget He) as [wm [Hgm Hle]].
    destruct (String.eqb_spec n m) as [<-|Hnm].
    - exists (wc + c)%Z. rewrite dict_get_set_eq. split; [reflexivity|].
      specialize (Hlt _ Hgm). lia.
    - exists wm. rewrite dict_get_set_neq by assumption. auto. }
  split.
  { intros m c' Hd. apply in_app_or in Hd.
    destruct Hd as [Hd|[[= <- <-]|[]]].
    - destruct (R3 m c' Hd) as [wm [Hgm Hle]].
      destruct (String.eqb_spec n m) as [<-|Hnm].
      + exists (wc + c)%Z. rewrite dict_get_set_eq. split; [reflexivity|].
        specialize (Hlt _ Hgm). lia.
      + exists wm. rewrite dict_get_set_neq by assumption. auto.
    - exists (wc + c)%Z. rewrite dict_get_set_eq. split; [reflexivity|lia]. }
  split.
  { intros v m wv wm Hv Hm Hgv Hgm.
    rewrite dict_get_set_neq in Hgv by auto.
    destruct (String.eqb_spec n m) as [<-|Hnm].
    - rewrite dict_get_set_eq in Hgm. injection Hgm as <-.
      specialize (R5 v wv Hv Hgv). lia.
    - rewrite dict_get_set_neq in Hgm by assumption. eauto. }
  split.
  { intros v wv Hv Hgv. rewrite dict_get_set_neq in Hgv by auto. eauto. }
  split; [|assumption].
  now rewrite dict_get_set_neq.
Qed.

Lemma relax_edge_opt current wc done distances previous unvisited n c :
  relax_opt_inv g nodes current wc done distances unvisited ->
  edge g current n c ->
  relax_opt_inv g nodes current wc (done ++ [(n, c)])
    (fst (relax_edge current unvisited (distances, previous) (n, c)))
    unvisited.
Proof.
  intros Hinv Hedge.
  pose proof Hinv as [Hwf [Hfin [Hsub [R1 [R2 [R3 [R4 [R5 [Hwc Hcur]]]]]]]]].
  unfold relax_edge. rewrite Hwc. cbn [dist_add].
  destruct (set_mem n unvisited) eqn:Hmem.
  - apply set_mem_In in Hmem. unfold dict_mem.
    destruct (dict_get n distances) as [d|] eqn:Hd.
    + destruct (Hfin _ _ Hd) as [wn ->]. cbn [negb orb dist_ltb].
      destruct (Z.ltb_spec (wc + c) wn) as [Hlt|Hge]; cbn [fst].
      * apply relax_update_opt; auto.
        intros wn' Hget. rewrite Hd in Hget. now injection Hget as <-.
      * apply relax_keep_opt; eauto.
    + cbn [negb orb fst]. apply relax_update_opt; auto.
      intros wn' Hget. rewrite Hd in Hget. discriminate.
  - cbn [fst]. apply relax_keep_opt; [assumption|].
    assert (Hv : ~ In n unvisited).
    { intros Hin. apply set_mem_In in Hin. congruence. }
    pose proof (R1 n (Htarget _ _ _ Hedge) Hv) as Hm. unfold dict_mem in Hm.
    destruct (dict_get n distances) as [d|] eqn:Hd; [|discriminate].
    destruct (Hfin _ _ Hd) as [wn ->]. exists wn. split; [reflexivity|].
    pose proof (R5 n wn Hv Hd). pose proof (Hcost _ _ _ Hedge). lia.
Qed.

Lemma relax_fold_opt current wc unvisited rest :
  forall done distances previous,
    relax_opt_inv g nodes current wc done distances unvisited ->
    (forall e, In e rest -> edge g current (fst e) (snd e)) ->
    relax_opt_inv g nodes current wc (done ++ rest)
      (fst (fold_left (relax_edge current unvisited) rest
              (distances, previous))) unvisited.
Proof.
  induction rest as [|[n c] t IH]; intros done distances previous Hinv Hes;
    cbn [fold_left].
  - now rewrite app_nil_r.
  - pose proof (relax_edge_opt current wc done distances previous unvisited
                  n c Hinv (Hes (n, c) (or_introl eq_refl))) as Hinv'.
    destruct (relax_edge current unvisited (distances, previous) (n, c))
      as [d' p'].
    change (done ++ (n, c) :: t) with (done ++ [(n, c)] ++ t).
    rewrite app_assoc. apply IH; [exact Hinv'|].
    intros e He. apply Hes. now right.
Qed.

(** Selecting the nearest unvisited vertex. *)
Lemma visit_opt distances unvisited current :
  opt_inv g nodes distances unvisited ->
  min_key (candidates distances unvisited) = Some current ->
  exists wc,
    relax_opt_inv g nodes current wc [] distances
      (set_discard current unvisited).
Proof.
  intros [Hwf [Hfin [Hsub [O1 [O2 O3]]]]] Hmin.
  destruct (min_key_least _ _ Hmin) as [v0 [Hin0 Hleast]].
  unfold candidates in Hin0. apply filter_In in Hin0.
  destruct Hin0 as [Hin0 Hmem0]. cbn [fst] in Hmem0.
  apply set_mem_In in Hmem0.
  pose proof (dict_In_get _ _ _ Hwf Hin0) as Hget0.
  destruct (Hfin _ _ Hget0) as [wc ->]. exists wc.
  assert (Hback : forall x, ~ In x (set_discard current unvisited) ->
                            x = current \/ ~ In x unvisited).
  { intros x Hx. destruct (String.eqb_spec current x) as [->|Hne];
      [now left|]. right. intros Hx'. apply Hx. apply set_discard_In. auto. }
  assert (Hfwd : forall x, In x (set_discard current unvisited) ->
                           In x unvisited /\ current <> x).
  { intros x Hx. now apply set_discard_In in Hx. }
  assert (Hmin' : forall n wn, In n unvisited ->
                    dict_get n distances = Some (Fin wn) -> (wc <= wn)%Z).
  { intros n wn Hn Hgn.
    assert (Hle : dist_ltb (Fin wn) (Fin wc) = false).
    { apply (Hleast n). unfold candidates. apply filter_In. split.
      - now apply dict_get_In.
      - now apply set_mem_In. }
    simpl in Hle. now apply Z.ltb_ge in Hle. }
  split; [assumption|]. split; [assumption|].
  split; [intros n Hn; apply Hsub; now apply Hfwd|].
  split.
  { intros n Hn Hv. destruct (Hback n Hv) as [->|Hv'].
    - unfold dict_mem. now rewrite Hget0.
    - auto. }
  split.
  { intros v n c wv Hvc Hv Hgv He.
    destruct (Hback v Hv) as [->|Hv']; [congruence|]. eauto. }
  split; [intros n c []|].
  split.
  { intros v n wv wn Hv Hn Hgv Hgn. apply Hfwd in Hn. destruct Hn as [Hn _].
    destruct (Hback v Hv) as [->|Hv'].
    - rewrite Hget0 in Hgv. injection Hgv as <-. eauto.
    - eauto. }
  split.
  { intros v wv Hv Hgv. destruct (Hback v Hv) as [->|Hv'].
    - rewrite Hget0 in Hgv. injection Hgv as <-. lia.
    - eapply O3; eauto. }
  split; [assumption|].
  intros Hx. apply Hfwd in Hx. now destruct Hx.
Qed.

(** All the edges of [current] have been relaxed. *)
Lemma finish_opt current wc edges distances unvisited :
  relax_opt_inv g nodes current wc edges distances unvisited ->
  (forall n c, edge g current n c -> In (n, c) edges) ->
  opt_inv g nodes distances unvisited.
Proof.
  intros [Hwf [Hfin [Hsub [R1 [R2 [R3 [R4 [R5 [Hwc Hcur]]]]]]]]] Hall.
  repeat (split; [assumption|]). split; [|assumption].
  intros v n c wv Hv Hgv He.
  destruct (String.eqb_spec v current) as [->|Hne].
  - rewrite Hwc in Hgv. injection Hgv as <-. apply R3. now apply Hall.
  - eauto.
Qed.

Lemma dijkstra_opt :
  forall fuel distances previous unvisited,
    length unvisited <= fuel ->
    opt_inv g nodes distances unvisited ->
    exists unvisited',
      opt_inv g nodes (fst (dijkstra fuel g distances previous unvisited))
        unvisited'
      /\ forall n,
           In n unvisited' ->
           dict_mem n (fst (dijkstra fuel g distances previous unvisited))
           = false.
Proof.
  induction fuel as [|fuel IH]; intros distances previous unvisited Hlen Hinv.
  - destruct unvisited; [|simpl in Hlen; lia].
    exists []. split; [exact Hinv|intros n []].
  - rewrite dijkstra_unfold. destruct unvisited as [|u us] eqn:Hu.
    { exists []. split; [exact Hinv|intros n []]. }
    rewrite <- Hu in *.
    destruct (min_key (candidates distances unvisited)) as [current|] eqn:Hmin.
    2: { exists unvisited. split; [exact Hinv|].
         now apply min_key_none_exhausted. }
    cbv zeta.
    destruct (visit_opt _ _ _ Hinv Hmin) as [wc Hrel].
    apply min_key_candidate in Hmin. destruct Hmin as [Hin _].
    apply set_discard_shorter in Hin.
    destruct (dict_get current g) as [edges|] eqn:Hg.
    + pose proof (relax_fold_opt current wc _ edges [] distances previous
                    Hrel) as Hfold.
      cbn [app] in Hfold.
      destruct (fold_left (relax_edge current
                             (set_discard current unvisited)) edges
                  (distances, previous)) as [d' p'].
      cbn [fst snd] in *. apply IH; [lia|].
      apply (finish_opt current wc edges).
      * apply Hfold. intros [n c] He. exists edges. auto.
      * intros n c [edges' [Hg' He]]. rewrite Hg in Hg'.
        now injection Hg' as <-.
    + cbn [fst snd]. apply IH; [lia|].
      apply (finish_opt current wc []); [exact Hrel|].
      intros n c [edges' [Hg' He]]. rewrite Hg in Hg'. discriminate.
Qed.

Lemma opt_inv_init self_id :
  In self_id nodes -> opt_inv g nodes [(self_id, Fin 0)] nodes.
Proof.
  intros Hself.
  assert (Hkey : forall (v : string) (d : distance),
             dict_get v [(self_id, Fin 0)] = Some d -> v = self_id).
  { intros v d H. simpl in H.
    destruct (String.eqb_spec v self_id); [assumption|discriminate]. }
  split.
  { unfold dict_wf. simpl. constructor; [intros []|constructor]. }
  split.
  { intros n d H. simpl in H. destruct (String.eqb n self_id);
      [|discriminate]. injection H as <-. eauto. }
  split; [auto|]. split; [tauto|]. split.
  - intros v n c wv Hv Hgv. apply Hkey in Hgv. subst v. tauto.
  - intros v n wv wn Hv _ Hgv. apply Hkey in Hgv. subst v. tauto.
Qed.

(** Every path is at least as long as the distance found. *)
Lemma shortest_paths_least self_id :
  In self_id nodes ->
  forall n w,
    reaches g self_id n w ->
    exists w',
      dict_get n (fst (shortest_paths self_id g nodes)) = Some (Fin w')
      /\ (w' <= w)%Z.
Proof.
  intros Hself. unfold shortest_paths.
  destruct (dijkstra_opt (length nodes) [(self_id, Fin 0)] [] nodes
              (le_n _) (opt_inv_init self_id Hself))
    as [u [[Hwf [Hfin [Hsub [O1 [O2 O3]]]]] Hexh]].
  destruct (SPFPaths.dijkstra_path_inv self_id g nodes (length nodes)
              [(self_id, Fin 0)] [] nodes
              (SPFPaths.path_inv_init self_id g nodes))
    as [u' [_ [_ [_ [_ [H5 _]]]]]].
  intros n w Hr. induction Hr as [|v x w c Hr IH He].
  - exists 0%Z. split; [exact H5|lia].
  - destruct IH as [wv [Hgv Hle]].
    assert (Hv : ~ In v u).
    { intros Hin. apply Hexh in Hin. unfold dict_mem in Hin.
      rewrite Hgv in Hin. discriminate. }
    destruct (O2 v x c wv Hv Hgv He) as [wx [Hgx Hlx]].
    exists wx. split; [exact Hgx|lia].
Qed.

End NonNegative.
End SPFShortest.

(** X12. When the source is one of the vertices, every edge of the graph
    leads to one of the vertices and no edge has a negative cost, the
    shortest-path loop finds the least cost: every vertex that some path
    of edges reaches from the source gets a distance, that distance is the
    cost of a path, and no path to the vertex costs less. *)
Theorem distances_are_least_path_costs :
  forall (self_id : string) (g : SPF.graph) (nodes : list string),
    In self_id nodes ->
    (forall u v c, edge g u v c -> In v nodes /\ (0 <= c)%Z) ->
    forall n w,
      reaches g self_id n w ->
      exists w',
        dict_get n (fst (SPF.shortest_paths self_id g nodes))
        = Some (SPF.Fin w')
        /\ reaches g self_id n w'
        /\ (w' <= w)%Z.
Proof.
  intros self_id g nodes Hself Hg n w Hr.
  destruct (SPFShortest.shortest_paths_least g nodes
              (fun u v c He => proj1 (Hg u v c He))
              (fun u v c He => proj2 (Hg u v c He))
              self_id Hself n w Hr) as [w' [Hget Hle]].
  exists w'. split; [exact Hget|]. split; [|exact Hle].
  unfold SPF.shortest_paths in *.
  destruct (SPFPaths.dijkstra_path_inv self_id g nodes (length nodes)
              [(self_id, SPF.Fin 0)] [] nodes
              (SPFPaths.path_inv_init self_id g nodes))
    as [u [H1 _]].
  destruct (H1 _ _ Hget) as [w'' [Heq Hr']]. injection Heq as <-. exact Hr'.
Qed.

(** In the triangle the direct edge A-C costs 50; the distance found for
    C is at most that. *)
Lemma distances_are_least_path_costs_witness :
  exists w',
    dict_get "C" (fst (SPF.shortest_paths "A" triangle_graph ["A"; "B"; "C"]))
    = Some (SPF.Fin w')
    /\ reaches triangle_graph "A" "C" w'
    /\ (w' <= 0 + 50)%Z.
Proof.
  apply (distances_are_least_path_costs "A" triangle_graph ["A"; "B"; "C"]).
  - simpl. auto.
  - intros u v c [edges [Hg Hin]]. unfold triangle_graph in Hg. simpl in Hg.
    destruct (String.eqb u "A").
    { injection Hg as <-. simpl in Hin.
      destruct Hin as [[= <- <-]|[[= <- <-]|[]]]; simpl; split; auto; lia. }
    destruct (String.eqb u "B").
    { injection Hg as <-. simpl in Hin.
      destruct Hin as [[= <- <-]|[[= <- <-]|[]]]; simpl; split; auto; lia. }
    destruct (String.eqb u "C"); [|discriminate].
    injection Hg as <-. simpl in Hin.
    destruct Hin as [[= <- <-]|[[= <- <-]|[]]]; simpl; split; auto; lia.
  - apply (reaches_edge triangle_graph "A" "A" "C" 0%Z 50%Z).
    + constructor.
    + exists [("B", 10%Z); ("C", 50%Z)]. split; [reflexivity|].
      simpl. auto.
Defined.

(* ------------------------------------------------------------------ *)
(** ** The graph built from the LSDB and the cost of a route *)

Module GraphFacts.
Import SPF SPFLoop.

Lemma fold_set_get_inv {V W : Type} (f : V -> W) (l : dict V) (k : string)
      (w : W) :
  dict_wf l ->
  dict_get k
    (fold_left (fun g item => dict_set (fst item) (f (snd item)) g) l [])
  = Some w ->
  exists v, dict_get k l = Some v /\ w = f v.
Proof.
  intros Hwf H. destruct (dict_get k l) as [v|] eqn:E.
  - rewrite (fold_set_get f l [] k v Hwf E) in H. injection H as <-. eauto.
  - apply dict_get_None_not_In in E.
    rewrite fold_set_get_other in H by assumption. discriminate.
Qed.

(** An edge of the graph comes from a stored link that names a neighbor
    whose record is stored too. *)
Lemma ospf_graph_edge db u v c :
  dict_wf db ->
  edge (OSPF.build_graph db) u v c ->
  exists lsa link,
    dict_get u db = Some lsa
    /\ In link (OSPF.lsa_links lsa)
    /\ OSPF.link_neighbor_router_id link = Some v
    /\ dict_mem v db = true
    /\ c = match OSPF.link_cost link with Some c => c | None => 10%Z end.
Proof.
  intros Hwf [edges [Hg Hin]]. unfold OSPF.build_graph in Hg.
  destruct (fold_set_get_inv (OSPF.lsa_edges db) db u edges Hwf Hg)
    as [lsa [Hl ->]].
  unfold OSPF.lsa_edges in Hin. apply in_flat_map in Hin.
  destruct Hin as [link [Hlink Hin]]. unfold OSPF.link_edge in Hin.
  destruct (OSPF.link_neighbor_router_id link) as [nb|] eqn:Hnb;
    [|destruct Hin].
  destruct (truthy nb && dict_mem nb db) eqn:Hguard; [|destruct Hin].
  destruct Hin as [[= <- <-]|[]]. apply andb_true_iff in Hguard.
  exists lsa, link. tauto.
Qed.

Lemma isis_graph_edge db u v c :
  dict_wf db ->
  edge (ISIS.build_graph db) u v c ->
  exists lsp link,
    dict_get u db = Some lsp
    /\ In link (ISIS.lsp_links lsp)
    /\ ISIS.link_neighbor_system_id link = Some v
    /\ dict_mem v db = true
    /\ c = match ISIS.link_cost link with Some c => c | None => 10%Z end.
Proof.
  intros Hwf [edges [Hg Hin]]. unfold ISIS.build_graph in Hg.
  destruct (fold_set_get_inv (ISIS.lsp_edges db) db u edges Hwf Hg)
    as [lsp [Hl ->]].
  unfold ISIS.lsp_edges in Hin. apply in_flat_map in Hin.
  destruct Hin as [link [Hlink Hin]]. unfold ISIS.link_edge in Hin.
  destruct (ISIS.link_neighbor_system_id link) as [nb|] eqn:Hnb;
    [|destruct Hin].
  destruct (truthy nb && dict_mem nb db) eqn:Hguard; [|destruct Hin].
  destruct Hin as [[= <- <-]|[]]. apply andb_true_iff in Hguard.
  exists lsp, link. tauto.
Qed.

Lemma ospf_graph_closed db u v c :
  dict_wf db -> ospf_costs_nonneg db = true ->
  edge (OSPF.build_graph db) u v c ->
  In v (dict_keys db) /\ (0 <= c)%Z.
Proof.
  intros Hwf Hnn He.
  destruct (ospf_graph_edge db u v c Hwf He)
    as [lsa [link [Hl [Hlink [_ [Hmem ->]]]]]].
  split; [now apply dict_mem_In|].
  unfold ospf_costs_nonneg in Hnn. rewrite forallb_forall in Hnn.
  specialize (Hnn (u, lsa) (dict_get_In _ _ _ Hl)). cbn [snd] in Hnn.
  rewrite forallb_forall in Hnn. specialize (Hnn link Hlink).
  destruct (OSPF.link_cost link); [now apply Z.leb_le|lia].
Qed.

Lemma isis_graph_closed db u v c :
  dict_wf db -> isis_costs_nonneg db = true ->
  edge (ISIS.build_graph db) u v c ->
  In v (dict_keys db) /\ (0 <= c)%Z.
Proof.
  intros Hwf Hnn He.
  destruct (isis_graph_edge db u v c Hwf He)
    as [lsp [link [Hl [Hlink [_ [Hmem ->]]]]]].
  split; [now apply dict_mem_In|].
  unfold isis_costs_nonneg in Hnn. rewrite forallb_forall in Hnn.
  specialize (Hnn (u, lsp) (dict_get_In _ _ _ Hl)). cbn [snd] in Hnn.
  rewrite forallb_forall in Hnn. specialize (Hnn link Hlink).
  destruct (ISIS.link_cost link); [now apply Z.leb_le|lia].
Qed.

(** The keys of [distances] stay distinct. *)
Lemma relax_edge_wf current unvisited st e :
  dict_wf (fst st) -> dict_wf (fst (relax_edge current unvisited st e)).
Proof.
  destruct st as [d p], e as [n c]. unfold relax_edge. cbn [fst].
  intros Hwf. destruct (set_mem n unvisited); [|assumption].
  match goal with
  | |- context [if ?b then _ else _] => destruct b
  end; cbn [fst]; [now apply dict_set_wf|assumption].
Qed.

Lemma relax_fold_wf current unvisited edges : forall st,
  dict_wf (fst st) ->
  dict_wf (fst (fold_left (relax_edge current unvisited) edges st)).
Proof.
  induction edges as [|e t IH]; intros st Hwf; cbn [fold_left];
    [assumption|].
  apply IH. now apply relax_edge_wf.
Qed.

Lemma dijkstra_wf g : forall fuel distances previous unvisited,
  dict_wf distances ->
  dict_wf (fst (dijkstra fuel g distances previous unvisited)).
Proof.
  induction fuel as [|fuel IH]; intros distances previous unvisited Hwf;
    [assumption|].
  rewrite dijkstra_unfold. destruct unvisited as [|u us]; [assumption|].
  destruct (min_key _) as [current|]; [|assumption].
  cbv zeta. apply IH.
  destruct (dict_get current g) as [edges|]; [|assumption].
  now apply relax_fold_wf.
Qed.

Lemma shortest_paths_wf self_id g nodes :
  dict_wf (fst (shortest_paths self_id g nodes)).
Proof.
  unfold shortest_paths. apply dijkstra_wf.
  unfold dict_wf. simpl. constructor; [intros []|constructor].
Qed.

(** What the two halves say together about one stored distance. *)
Lemma stored_distance_least self_id g nodes dest d :
  In self_id nodes ->
  (forall u v c, edge g u v c -> In v nodes /\ (0 <= c)%Z) ->
  dict_get dest (fst (shortest_paths self_id g nodes)) = Some d ->
  exists w,
    d = Fin w
    /\ reaches g self_id dest w
    /\ forall w', reaches g self_id dest w' -> (w <= w')%Z.
Proof.
  intros Hself Hg Hget.
  pose proof Hget as Hget0. unfold shortest_paths in Hget0.
  destruct (SPFPaths.dijkstra_path_inv self_id g nodes (length nodes)
              [(self_id, Fin 0)] [] nodes
              (SPFPaths.path_inv_init self_id g nodes))
    as [u [H1 _]].
  destruct (H1 _ _ Hget0) as [w [-> Hr]].
  exists w. split; [reflexivity|]. split; [exact Hr|].
  intros w' Hr'.
  destruct (SPFShortest.shortest_paths_least g nodes
              (fun u v c He => proj1 (Hg u v c He))
              (fun u v c He => proj2 (Hg u v c He))
              self_id Hself dest w' Hr') as [w0 [Hget' Hle]].
  rewrite Hget in Hget'. now injection Hget' as <-.
Qed.

End GraphFacts.

Module ISISRoutes.
Import ISIS.

Lemma isis_route_for_emits r previous dest cost route :
  route_for r previous (dest, cost) = Some (Some route) ->
  dest <> system_id r
  /\ route = mkRoute (prefix_of dest) (rt_next_hop route) cost
               (rt_interface route) (level r)
  /\ _find_next_hop r dest previous = Some (Some (rt_next_hop route))
  /\ dict_mem (rt_next_hop route) (neighbors r) = true
  /\ _get_interface_to_neighbor r (rt_next_hop route)
     = Some (rt_interface route).
Proof.
  unfold route_for. cbn [fst snd].
  destruct (String.eqb_spec dest (system_id r)) as [|Hne]; [discriminate|].
  destruct (_find_next_hop r dest previous) as [[nh|]|]; cbn [bind];
    try discriminate.
  destruct (truthy nh && dict_mem nh (neighbors r)) eqn:Hg; [|discriminate].
  apply andb_true_iff in Hg. destruct Hg as [_ Hmem].
  destruct (_get_interface_to_neighbor r nh) as [iface|] eqn:Hif;
    [|discriminate].
  destruct (truthy iface); [|discriminate].
  intros [= <-]. simpl. auto.
Qed.

Lemma isis_route_fold_none r previous distances :
  fold_left (route_step r previous) distances None = None.
Proof. induction distances as [|x t IH]; simpl; auto. Qed.

Lemma isis_table_routes r previous distances : forall table0 table,
  fold_left (route_step r previous) distances (Some table0) = Some table ->
  forall prefix route,
    dict_get prefix table = Some route ->
    dict_get prefix table0 = Some route
    \/ exists item,
        In item distances
        /\ route_for r previous item = Some (Some route)
        /\ prefix = rt_prefix route.
Proof.
  induction distances as [|item t IH];
    intros table0 table Hfold prefix route Hget.
  - simpl in Hfold. injection Hfold as <-. now left.
  - simpl in Hfold.
    destruct (route_for r previous item) as [[new|]|] eqn:Hrf;
      cbn [bind] in Hfold.
    + destruct (IH _ _ Hfold _ _ Hget) as [H0|[item' [Hin [Hr Hp]]]].
      * destruct (String.eqb_spec (rt_prefix new) prefix) as [He|Hne].
        -- subst prefix. rewrite dict_get_set_eq in H0. injection H0 as ->.
           right. exists item. simpl. auto.
        -- rewrite dict_get_set_neq in H0 by assumption. now left.
      * right. exists item'. simpl. auto.
    + destruct (IH _ _ Hfold _ _ Hget) as [H0|[item' [Hin [Hr Hp]]]].
      * now left.
      * right. exists item'. simpl. auto.
    + rewrite isis_route_fold_none in Hfold. discriminate.
Qed.

Lemma isis_built_routes r r' distances previous :
  _build_routing_table r distances previous = Some r' ->
  forall prefix route,
    dict_get prefix (routing_table r') = Some route ->
    exists dest,
      In (dest, rt_cost route) distances
      /\ prefix = prefix_of dest
      /\ route_for r previous (dest, rt_cost route) = Some (Some route).
Proof.
  unfold _build_routing_table. intros Hbuild.
  destruct (fold_left _ _ _) as [table|] eqn:Hfold; cbn [bind] in Hbuild;
    [|discriminate].
  injection Hbuild as <-. simpl. intros prefix route Hget.
  destruct (isis_table_routes _ _ _ _ _ Hfold _ _ Hget)
    as [H0|[[dest cost] [Hin [Hrf Hp]]]]; [discriminate|].
  destruct (isis_route_for_emits _ _ _ _ _ Hrf) as [_ [Hr _]].
  assert (Hc : rt_cost route = cost) by (rewrite Hr; reflexivity).
  exists dest. rewrite Hc. split; [assumption|]. split; [|assumption].
  rewrite Hp, Hr. reflexivity.
Qed.

Lemma isis_build_routing_table_frame r distances previous r' :
  _build_routing_table r distances previous = Some r' ->
  system_id r' = system_id r /\ level r' = level r
  /\ neighbors r' = neighbors r
  /\ lsdb r' = lsdb r /\ interfaces r' = interfaces r.
Proof.
  unfold _build_routing_table.
  destruct (fold_left _ _ _) as [t|]; cbn [bind]; [|discriminate].
  intros [= <-]. simpl. auto.
Qed.

End ISISRoutes.

(** X13. When the keys of the LSDB are distinct, the router's own record
    is stored, at least two records are stored and no stored link has a
    negative cost, [calculate_spf] returns, and the cost of every route of
    the table it builds is the least total cost of a path from the router
    to the route's destination in the graph built from the LSDB: a path of
    that cost exists and no path costs less.  This holds for the OSPF
    router and for the ISIS router. *)
Theorem route_costs_are_least :
  (forall r : OSPF.OSPFRouter,
      dict_wf (OSPF.lsdb r) ->
      dict_mem (OSPF.router_id r) (OSPF.lsdb r) = true ->
      ospf_costs_nonneg (OSPF.lsdb r) = true ->
      2 <= length (OSPF.lsdb r) ->
      exists r',
        OSPF.calculate_spf r = Some r'
        /\ forall prefix route,
            dict_get prefix (OSPF.routing_table r') = Some route ->
            exists dest w,
              prefix = OSPF.prefix_of dest
              /\ OSPF.rt_cost route = SPF.Fin w
              /\ reaches (OSPF.build_graph (OSPF.lsdb r)) (OSPF.router_id r)
                   dest w
              /\ forall w',
                  reaches (OSPF.build_graph (OSPF.lsdb r)) (OSPF.router_id r)
                    dest w' ->
                  (w <= w')%Z)
  /\ (forall r : ISIS.ISISRouter,
         dict_wf (ISIS.lsdb r) ->
         dict_mem (ISIS.system_id r) (ISIS.lsdb r) = true ->
         isis_costs_nonneg (ISIS.lsdb r) = true ->
         2 <= length (ISIS.lsdb r) ->
         exists r',
           ISIS.calculate_spf r = Some r'
           /\ forall prefix route,
               dict_get prefix (ISIS.routing_table r') = Some route ->
               exists dest w,
                 prefix = ISIS.prefix_of dest
                 /\ ISIS.rt_cost route = SPF.Fin w
                 /\ reaches (ISIS.build_graph (ISIS.lsdb r))
                      (ISIS.system_id r) dest w
                 /\ forall w',
                     reaches (ISIS.build_graph (ISIS.lsdb r))
                       (ISIS.system_id r) dest w' ->
                     (w <= w')%Z).
Proof.
  split.
  - intros r Hwf Hself Hnn Hlen.
    destruct (OSPFTotal.ospf_calculate_spf_returns r) as [r' Hspf].
    exists r'. split; [exact Hspf|].
    intros prefix route Hget.
    unfold OSPF.calculate_spf in Hspf.
    destruct (Nat.ltb_spec (length (OSPF.lsdb r)) 2) as [Hlt|_]; [lia|].
    cbv zeta in Hspf.
    destruct (OSPFRoutes.ospf_built_routes _ _ _ _ Hspf _ _ Hget)
      as [dest [Hin [Hp _]]].
    apply (dict_In_get _ _ _ (GraphFacts.shortest_paths_wf _ _ _)) in Hin.
    destruct (GraphFacts.stored_distance_least _ _ _ _ _
                (proj1 (dict_mem_In _ _) Hself)
                (fun u v c => GraphFacts.ospf_graph_closed _ u v c Hwf Hnn)
                Hin) as [w [Hw [Hr Hleast]]].
    exists dest, w. auto.
  - intros r Hwf Hself Hnn Hlen.
    destruct (ISISTotal.isis_calculate_spf_returns r) as [r' Hspf].
    exists r'. split; [exact Hspf|].
    intros prefix route Hget.
    unfold ISIS.calculate_spf in Hspf.
    destruct (Nat.ltb_spec (length (ISIS.lsdb r)) 2) as [Hlt|_]; [lia|].
    cbv zeta in Hspf.
    destruct (ISISRoutes.isis_built_routes _ _ _ _ Hspf _ _ Hget)
      as [dest [Hin [Hp _]]].
    apply (dict_In_get _ _ _ (GraphFacts.shortest_paths_wf _ _ _)) in Hin.
    destruct (GraphFacts.stored_distance_least _ _ _ _ _
                (proj1 (dict_mem_In _ _) Hself)
                (fun u v c => GraphFacts.isis_graph_closed _ u v c Hwf Hnn)
                Hin) as [w [Hw [Hr Hleast]]].
    exists dest, w. auto.
Qed.

(** Router A of the line A-B-C, OSPF and ISIS: the hypotheses hold, so the
    costs of the routes it computes are least path costs. *)
Lemma route_costs_are_least_witness :
  (exists a',
      OSPF.calculate_spf line_router_A = Some a'
      /\ forall prefix route,
          dict_get prefix (OSPF.routing_table a') = Some route ->
          exists dest w,
            prefix = OSPF.prefix_of dest
            /\ OSPF.rt_cost route = SPF.Fin w
            /\ reaches (OSPF.build_graph (OSPF.lsdb line_router_A))
                 (OSPF.router_id line_router_A) dest w
            /\ forall w',
                reaches (OSPF.build_graph (OSPF.lsdb line_router_A))
                  (OSPF.router_id line_router_A) dest w' ->
                (w <= w')%Z)
  /\ (exists a',
         ISIS.calculate_spf isis_line_router_A = Some a'
         /\ forall prefix route,
             dict_get prefix (ISIS.routing_table a') = Some route ->
             exists dest w,
               prefix = ISIS.prefix_of dest
               /\ ISIS.rt_cost route = SPF.Fin w
               /\ reaches (ISIS.build_graph (ISIS.lsdb isis_line_router_A))
                    (ISIS.system_id isis_line_router_A) dest w
               /\ forall w',
                   reaches (ISIS.build_graph (ISIS.lsdb isis_line_router_A))
                     (ISIS.system_id isis_line_router_A) dest w' ->
                   (w <= w')%Z).
Proof.
  split.
  - apply (proj1 route_costs_are_least line_router_A).
    + unfold dict_wf. vm_compute.
      repeat constructor; intros H; simpl in H; intuition discriminate.
    + vm_compute. reflexivity.
    + vm_compute. reflexivity.
    + vm_compute. repeat constructor.
  - apply (proj2 route_costs_are_least isis_line_router_A).
    + unfold dict_wf. vm_compute.
      repeat constructor; intros H; simpl in H; intuition discriminate.
    + vm_compute. reflexivity.
    + vm_compute. reflexivity.
    + vm_compute. repeat constructor.
Defined.

(** X14. [calculate_spf] of the ISIS router always returns and changes
    only the routing table; with fewer than two stored records it changes
    nothing.  Otherwise every route of the new table belongs to a
    destination other than the router whose record is stored, carries the
    distance found for it and the router's own level, and its next hop is
    the vertex that follows the router on the path of predecessors to the
    destination: a key of the neighbor table whose predecessor is the
    router, reached over the interface [_get_interface_to_neighbor]
    finds. *)
Theorem isis_routes_use_first_hop :
  forall r : ISIS.ISISRouter,
    exists r',
      ISIS.calculate_spf r = Some r'
      /\ ISIS.lsdb r' = ISIS.lsdb r
      /\ ISIS.neighbors r' = ISIS.neighbors r
      /\ ISIS.interfaces r' = ISIS.interfaces r
      /\ ISIS.level r' = ISIS.level r
      /\ (length (ISIS.lsdb r) < 2 -> r' = r)
      /\ (2 <= length (ISIS.lsdb r) ->
          let sp :=
            SPF.shortest_paths (ISIS.system_id r)
              (ISIS.build_graph (ISIS.lsdb r)) (dict_keys (ISIS.lsdb r)) in
          forall prefix route,
            dict_get prefix (ISIS.routing_table r') = Some route ->
            exists dest rest,
              prefix = (dest ++ "/32")%string
              /\ ISIS.rt_prefix route = prefix
              /\ dest <> ISIS.system_id r
              /\ dict_mem dest (ISIS.lsdb r) = true
              /\ dict_get dest (fst sp) = Some (ISIS.rt_cost route)
              /\ ISIS.rt_level route = ISIS.level r
              /\ SPF._get_path (ISIS.system_id r) dest (snd sp)
                 = Some (ISIS.system_id r :: ISIS.rt_next_hop route :: rest)
              /\ last (ISIS.rt_next_hop route :: rest)
                   (ISIS.rt_next_hop route) = dest
              /\ dict_get (ISIS.rt_next_hop route) (snd sp)
                 = Some (ISIS.system_id r)
              /\ dict_mem (ISIS.rt_next_hop route) (ISIS.neighbors r) = true
              /\ ISIS._get_interface_to_neighbor r (ISIS.rt_next_hop route)
                 = Some (ISIS.rt_interface route)).
Proof.
  intros r. destruct (ISISTotal.isis_calculate_spf_returns r) as [r' Hspf].
  exists r'. split; [exact Hspf|].
  unfold ISIS.calculate_spf in Hspf.
  destruct (Nat.ltb_spec (length (ISIS.lsdb r)) 2) as [Hlt|Hge].
  - injection Hspf as <-. do 4 (split; [reflexivity|]).
    split; [reflexivity|]. intros Hlen. lia.
  - cbv zeta in Hspf.
    destruct (ISISRoutes.isis_build_routing_table_frame _ _ _ _ Hspf)
      as [_ [Hlvl [Hnb [Hdb Hif]]]].
    do 4 (split; [assumption|]).
    split; [intros Hlen; lia|].
    intros _ sp prefix route Hget. subst sp.
    destruct (ISISRoutes.isis_built_routes _ _ _ _ Hspf _ _ Hget)
      as [dest [Hin [Hp Hrf]]].
    destruct (ISISRoutes.isis_route_for_emits _ _ _ _ _ Hrf)
      as [Hne [Hr [Hnh [Hmem Hiface]]]].
    destruct (SPFFacts.next_hop_on_path _ _ _ _ Hnh) as [rest [Hpath Hlast]].
    apply (dict_In_get _ _ _ (GraphFacts.shortest_paths_wf _ _ _)) in Hin.
    exists dest, rest.
    split; [exact Hp|].
    split; [rewrite Hr, Hp; reflexivity|].
    split; [exact Hne|].
    split.
    { pose proof Hin as Hin0. unfold SPF.shortest_paths in Hin0.
      destruct (SPFPaths.dijkstra_path_inv (ISIS.system_id r)
                  (ISIS.build_graph (ISIS.lsdb r)) (dict_keys (ISIS.lsdb r))
                  (length (dict_keys (ISIS.lsdb r)))
                  [(ISIS.system_id r, SPF.Fin 0)] []
                  (dict_keys (ISIS.lsdb r))
                  (SPFPaths.path_inv_init _ _ _))
        as [u [_ [_ [H3 _]]]].
      destruct (H3 dest) as [Heq|Hk].
      - unfold dict_mem. now rewrite Hin0.
      - contradiction.
      - now apply dict_mem_In. }
    split; [exact Hin|].
    split; [rewrite Hr; reflexivity|].
    split; [exact Hpath|].
    split; [exact Hlast|].
    split; [|split; assumption].
    eapply SPFRooted.next_hop_follows_source; [|exact Hnh].
    apply SPFRooted.shortest_paths_dist_inv.
Qed.

(** ISIS router A of the line: its route to C goes to its neighbor B and
    carries its level. *)
Lemma isis_routes_use_first_hop_witness :
  exists r' route,
    ISIS.calculate_spf isis_line_router_A = Some r'
    /\ dict_get "C/32" (ISIS.routing_table r') = Some route
    /\ ISIS.rt_level route = ISIS.LEVEL_1
    /\ dict_mem (ISIS.rt_next_hop route) (ISIS.neighbors isis_line_router_A)
       = true
    /\ dict_get "C"
         (fst (SPF.shortest_paths "A"
                 (ISIS.build_graph (ISIS.lsdb isis_line_router_A))
                 ["A"; "B"; "C"]))
       = Some (ISIS.rt_cost route).
Proof.
  destruct (isis_routes_use_first_hop isis_line_router_A)
    as [r' [H1 [_ [_ [_ [_ [_ H2]]]]]]].
  assert (Hroute : exists route,
             dict_get "C/32" (ISIS.routing_table r') = Some route).
  { vm_compute in H1. injection H1 as <-. eexists. reflexivity. }
  destruct Hroute as [route Hroute].
  assert (Hlen : 2 <= length (ISIS.lsdb isis_line_router_A))
    by (vm_compute; repeat constructor).
  destruct (H2 Hlen "C/32"%string route Hroute)
    as [dest [rest [Hp [_ [_ [_ [Hd [Hl [_ [_ [_ [Hm _]]]]]]]]]]]].
  exists r', route. split; [exact H1|]. split; [exact Hroute|].
  split; [exact Hl|]. split; [exact Hm|].
  apply (string_append_cancel_r "/32" "C" dest) in Hp. subst dest. exact Hd.
Defined.

(* ------------------------------------------------------------------ *)
(** ** Every ISIS router that calls can reach *)

Module ISISReach.
Import ISIS.

Lemma isis_receive_keeps_origins r lsp from_router origin :
  dict_mem origin (lsdb r) = true ->
  dict_mem origin (lsdb (fst (receive_lsp r lsp from_router))) = true.
Proof.
  intros H. unfold receive_lsp, _receive_lsp.
  destruct (dict_get (lsp_system_id lsp) (lsdb r)) as [stored|].
  - destruct (Z.gtb _ _); simpl; [|assumption].
    now apply SPFRooted.dict_mem_set_mono.
  - simpl. now apply SPFRooted.dict_mem_set_mono.
Qed.

Lemma isis_calculate_spf_frame r r' :
  calculate_spf r = Some r' ->
  system_id r' = system_id r /\ level r' = level r
  /\ neighbors r' = neighbors r
  /\ lsdb r' = lsdb r /\ interfaces r' = interfaces r.
Proof.
  unfold calculate_spf. destruct (Nat.ltb _ _).
  - intros [= <-]. auto.
  - cbv zeta. apply ISISRoutes.isis_build_routing_table_frame.
Qed.

Lemma isis_neighbor_kept_refl info : isis_neighbor_kept info info.
Proof. unfold isis_neighbor_kept. auto. Qed.

Lemma isis_hello_entry_alive r neighbor_id interface neighbor_level now :
  Forall (fun kv => nb_state (snd kv) <> DOWN) (neighbors r) ->
  nb_state (isis_hello_entry r neighbor_id interface neighbor_level now)
  <> DOWN.
Proof.
  intros Hall. unfold isis_hello_entry.
  destruct (dict_get neighbor_id (neighbors r)) as [info|] eqn:Hget.
  - cbn [nb_state]. destruct (state_eqb (nb_state info) INIT).
    + destruct (_levels_compatible _ _); discriminate.
    + apply dict_get_In in Hget. rewrite Forall_forall in Hall.
      apply (Hall _ Hget).
  - cbn [nb_state]. destruct (_levels_compatible _ _); discriminate.
Qed.

Lemma isis_hello_entry_kept r neighbor_id interface neighbor_level now info :
  dict_get neighbor_id (neighbors r) = Some info ->
  isis_neighbor_kept info
    (isis_hello_entry r neighbor_id interface neighbor_level now).
Proof.
  intros Hget. unfold isis_hello_entry. rewrite Hget.
  unfold isis_neighbor_kept. cbn [nb_interface nb_level nb_state].
  split; [reflexivity|]. split; [reflexivity|].
  intros ->. reflexivity.
Qed.

(** One call on a sound router. *)
Lemma isis_call_sound r c :
  isis_sound r ->
  exists r',
    isis_call_step r c = Some r'
    /\ isis_sound r'
    /\ system_id r' = system_id r
    /\ level r' = level r
    /\ (forall origin,
          dict_mem origin (lsdb r) = true -> dict_mem origin (lsdb r') = true)
    /\ (forall nid info,
          dict_get nid (neighbors r) = Some info ->
          exists info',
            dict_get nid (neighbors r') = Some info'
            /\ isis_neighbor_kept info info').
Proof.
  intros [Hk [Hself [Hn [Hi Halive]]]].
  destruct c as [interface ip mask cost|neighbor_id interface lvl now
                |lsp from_router|]; simpl.
  - eexists. split; [reflexivity|].
    split; [|split; [reflexivity|split; [reflexivity|split]]].
    + split; [now apply ISISKeyed.isis_keyed_add_interface|].
      split; [unfold add_interface, _create_self_lsp; simpl;
              apply dict_mem_set_eq|].
      split; [exact Hn|]. split; [|exact Halive].
      unfold add_interface, _create_self_lsp. simpl. now apply dict_set_wf.
    + intros origin Ho. unfold add_interface, _create_self_lsp. simpl.
      now apply SPFRooted.dict_mem_set_mono.
    + intros nid info Hget. exists info. split; [exact Hget|].
      apply isis_neighbor_kept_refl.
  - rewrite ISISKeyed.isis_receive_hello_result by exact Hk. cbn [bind fst].
    eexists. split; [reflexivity|].
    split; [|split; [reflexivity|split; [reflexivity|split; [auto|]]]].
    + split; [exact Hk|]. split; [exact Hself|]. simpl.
      split; [now apply dict_set_wf|]. split; [exact Hi|].
      apply dict_set_Forall; [exact Halive|]. simpl.
      now apply isis_hello_entry_alive.
    + intros nid info Hget. simpl.
      destruct (String.eqb_spec neighbor_id nid) as [->|Hne].
      * rewrite dict_get_set_eq. eexists. split; [reflexivity|].
        now apply isis_hello_entry_kept.
      * rewrite dict_get_set_neq by assumption. exists info.
        split; [exact Hget|apply isis_neighbor_kept_refl].
  - destruct (ISISAcceptance.isis_receive_frame r lsp from_router)
      as [Hid [Hlvl [Hnb [Hif _]]]].
    eexists. split; [reflexivity|].
    split; [|split; [exact Hid|split; [exact Hlvl|split]]].
    + split; [now apply ISISKeyed.isis_keyed_receive|].
      split; [rewrite Hid; now apply isis_receive_keeps_origins|].
      rewrite Hnb, Hif. auto.
    + intros origin. apply isis_receive_keeps_origins.
    + intros nid info Hget. rewrite Hnb. exists info.
      split; [exact Hget|apply isis_neighbor_kept_refl].
  - destruct (ISISTotal.isis_calculate_spf_returns r) as [r' Hr'].
    destruct (isis_calculate_spf_frame r r' Hr')
      as [Hid [Hlvl [Hnb [Hdb Hif]]]].
    exists r'. split; [exact Hr'|].
    split; [|split; [exact Hid|split; [exact Hlvl|split]]].
    + unfold isis_sound. rewrite Hid, Hnb, Hdb, Hif. auto.
    + intros origin. now rewrite Hdb.
    + intros nid info Hget. rewrite Hnb. exists info.
      split; [exact Hget|apply isis_neighbor_kept_refl].
Qed.

Lemma isis_new_router_sound sid lvl : isis_sound (new_router sid lvl).
Proof.
  split; [apply ISISKeyed.isis_keyed_new_router|].
  split; [exact (dict_mem_set_eq sid (mkLSP sid 0 [] 0 lvl) [])|].
  simpl. repeat split; constructor.
Qed.

Lemma isis_calls_sound calls : forall r,
  isis_sound r ->
  exists r',
    isis_calls calls r = Some r'
    /\ isis_sound r'
    /\ system_id r' = system_id r
    /\ level r' = level r
    /\ (forall origin,
          dict_mem origin (lsdb r) = true -> dict_mem origin (lsdb r') = true)
    /\ (forall nid info,
          dict_get nid (neighbors r) = Some info ->
          exists info',
            dict_get nid (neighbors r') = Some info'
            /\ isis_neighbor_kept info info').
Proof.
  induction calls as [|c rest IH]; intros r Hs; simpl.
  - exists r. repeat (split; [auto|]).
    intros nid info Hget. exists info.
    split; [exact Hget|apply isis_neighbor_kept_refl].
  - destruct (isis_call_sound r c Hs)
      as [r1 [-> [Hs1 [Hid1 [Hl1 [Hkeep1 Hnb1]]]]]].
    cbn [bind].
    destruct (IH r1 Hs1) as [r' [Hrun [Hs' [Hid' [Hl' [Hkeep' Hnb']]]]]].
    exists r'. split; [exact Hrun|]. split; [exact Hs'|].
    split; [congruence|]. split; [congruence|]. split; [auto|].
    intros nid info Hget.
    destruct (Hnb1 nid info Hget) as [info1 [Hget1 [Ha [Hb Hc]]]].
    destruct (Hnb' nid info1 Hget1) as [info' [Hget' [Ha' [Hb' Hc']]]].
    exists info'. split; [exact Hget'|].
    split; [congruence|]. split; [congruence|auto].
Qed.

End ISISReach.

(** X15. From a new ISIS router, every sequence of [add_interface],
    [receive_hello], [receive_lsp] and [calculate_spf] calls returns
    without an exception and leaves the system id and the level as they
    were given.  In the state it reaches the LSDB binds no origin twice,
    stores every record under the record's own origin and holds the
    router's own origin; neighbor and interface table have distinct keys;
    and no neighbor is DOWN. *)
Theorem isis_calls_never_raise :
  forall (sid : string) (lvl : ISIS.ISISLevel) (calls : list isis_call),
  exists r,
    isis_calls calls (ISIS.new_router sid lvl) = Some r
    /\ ISIS.system_id r = sid
    /\ ISIS.level r = lvl
    /\ isis_lsdb_keyed (ISIS.lsdb r)
    /\ dict_mem sid (ISIS.lsdb r) = true
    /\ dict_wf (ISIS.neighbors r)
    /\ dict_wf (ISIS.interfaces r)
    /\ forall neighbor_id,
        isis_neighbor_state neighbor_id r <> Some ISIS.DOWN.
Proof.
  intros sid lvl calls.
  destruct (ISISReach.isis_calls_sound calls (ISIS.new_router sid lvl)
              (ISISReach.isis_new_router_sound sid lvl))
    as [r [Hrun [[Hk [Hself [Hn [Hi Halive]]]] [Hid [Hlvl _]]]]].
  exists r. simpl in Hid, Hlvl. rewrite Hid in Hself.
  do 7 (split; [assumption|]).
  intros neighbor_id. unfold isis_neighbor_state.
  destruct (dict_get neighbor_id (ISIS.neighbors r)) as [info|] eqn:Hget;
    [|discriminate].
  apply dict_get_In in Hget. rewrite Forall_forall in Halive.
  simpl. intros [= Hst]. apply (Halive _ Hget). exact Hst.
Qed.

(** X16. The calls an ISIS router receives never forget what it knows: a
    stored origin stays stored, and a neighbor stays in the neighbor table
    with the interface and the level of its first hello (a later hello
    over another interface or with another level changes neither), and
    once UP it stays UP. *)
Theorem isis_calls_keep_neighbors :
  forall (r : ISIS.ISISRouter) (calls : list isis_call),
    isis_sound r ->
    exists r',
      isis_calls calls r = Some r'
      /\ (forall origin,
            dict_mem origin (ISIS.lsdb r) = true ->
            dict_mem origin (ISIS.lsdb r') = true)
      /\ (forall nid info,
            dict_get nid (ISIS.neighbors r) = Some info ->
            exists info',
              dict_get nid (ISIS.neighbors r') = Some info'
              /\ ISIS.nb_interface info' = ISIS.nb_interface info
              /\ ISIS.nb_level info' = ISIS.nb_level info
              /\ (ISIS.nb_state info = ISIS.UP ->
                  ISIS.nb_state info' = ISIS.UP)).
Proof.
  intros r calls Hs.
  destruct (ISISReach.isis_calls_sound calls r Hs)
    as [r' [Hrun [_ [_ [_ [Hkeep Hnb]]]]]].
  exists r'. split; [exact Hrun|]. split; [exact Hkeep|]. exact Hnb.
Qed.

(** A level-1 router has heard B on eth0 at level 2; a hello of B over
    eth1 at level 1 then brings B up, and B keeps eth0 and level 2. *)
Lemma isis_calls_keep_neighbors_witness :
  exists r' info',
    isis_calls isis_calls_after_B isis_router_heard_B = Some r'
    /\ dict_mem "A" (ISIS.lsdb r') = true
    /\ dict_get "B" (ISIS.neighbors r') = Some info'
    /\ ISIS.nb_interface info' = "eth0"%string
    /\ ISIS.nb_level info' = ISIS.LEVEL_2.
Proof.
  destruct (isis_calls_keep_neighbors isis_router_heard_B isis_calls_after_B)
    as [r' [Hrun [Hkeep Hnb]]].
  - split; [split|].
    + unfold dict_wf. vm_compute.
      repeat constructor; intros H; simpl in H; intuition discriminate.
    + vm_compute. repeat constructor.
    + split; [vm_compute; reflexivity|].
      split.
      { unfold dict_wf. vm_compute.
        repeat constructor; intros H; simpl in H; intuition discriminate. }
      split; [unfold dict_wf; vm_compute; constructor|].
      vm_compute. repeat constructor. discriminate.
  - destruct (Hnb "B"%string
                (ISIS.mkNeighbor ISIS.INIT 0%Z "eth0" ISIS.LEVEL_2) eq_refl)
      as [info' [Hget [Hif [Hlvl _]]]].
    exists r', info'. split; [exact Hrun|].
    split; [apply Hkeep; reflexivity|]. split; [exact Hget|].
    split; [exact Hif|exact Hlvl].
Defined.

(** With B behind eth0 and eth1 the lookup answers eth0, so eth0 is the
    first interface that lists B. *)
Lemma interface_lookup_first_match_witness :
  exists before info after,
    two_interfaces_to_B = before ++ ("eth0"%string, info) :: after
    /\ set_mem "B" (if_neighbors info) = true
    /\ forall item,
        In item before -> set_mem "B" (if_neighbors (snd item)) = false.
Proof.
  apply (proj1 (proj2 (interface_lookup_first_match two_interfaces_to_B "B")
                  "eth0"%string)).
  reflexivity.
Defined.

(** In the triangle C gets a distance, and it is the cost of a path. *)
Lemma distances_are_path_costs_witness :
  exists w,
    dict_get "C" (fst (SPF.shortest_paths "A" triangle_graph ["A"; "B"; "C"]))
    = Some (SPF.Fin w)
    /\ reaches triangle_graph "A" "C" w.
Proof.
  destruct (distances_are_path_costs "A" triangle_graph ["A"; "B"; "C"])
    as [_ [H _]].
  destruct (H "C"%string (SPF.Fin 20) eq_refl) as [w [Heq Hr]].
  exists w. split; [rewrite <- Heq; reflexivity|exact Hr].
Defined.
